(** * StateStinger: mutation strategies, target adapter and fuzz engine

    A shallow embedding of the Go packages [engine] (mutators and the
    fuzzing loop) and [cosmossdk] (the simulated target), followed by the
    properties established about them.

    Conventions
    - a Go [byte] is a [Z] in [0, 256); [byte_of_int] is the conversion
      [byte(x)];
    - a Go [int] is a [Z]; counters that are incremented without a static
      bound wrap at 64 bits ([int_incr]);
    - a [[]byte] value is a [list byte]; where the source distinguishes the
      nil slice it is an [option (list byte)];
    - an [error] is its message, [option string] ([None] is [nil]);
    - [*rand.Rand] is one generator shared by the engine and every mutator:
      its state is threaded explicitly ([St R]);
    - [time.Now().UnixNano()] reads a clock that is threaded the same way. *)

From Stdlib Require Import ZArith List String Ascii Bool Lia.
From stdpp Require Import base option list strings pretty gmap.
Import ListNotations.

Local Open Scope string_scope.
Local Open Scope list_scope.
Local Open Scope Z_scope.

(** ** Bytes, strings and machine integers *)

Abbreviation byte := Z.

Definition byte_of_int (x : Z) : byte := x mod 256.

Definition bytes_of_string (s : string) : list byte :=
  map (fun a => Z.of_N (N_of_ascii a)) (list_ascii_of_string s).

(** [string(output) == lit] on a byte slice. *)
Definition bytes_eq_string (b : list byte) (lit : string) : bool :=
  bool_decide (b = bytes_of_string lit).

(** [len] of a slice, as a Go [int]. *)
Definition len {A} (l : list A) : Z := Z.of_nat (length l).

Definition int_wrap (x : Z) : Z := (x + 2 ^ 63) mod 2 ^ 64 - 2 ^ 63.
Definition int_incr (x : Z) : Z := int_wrap (x + 1).
Definition is_int (x : Z) : Prop := - 2 ^ 63 <= x < 2 ^ 63.

(** ** State passing *)

Definition St (S A : Type) : Type := S -> A * S.

Definition ret {S A} (a : A) : St S A := fun s => (a, s).
Definition bind {S A B} (c : St S A) (k : A -> St S B) : St S B :=
  fun s => let (a, s') := c s in k a s'.

Declare Scope st_scope.
Delimit Scope st_scope with st.
Notation "'let*' x ':=' c 'in' k" := (bind c (fun x => k))
  (at level 10, x pattern, c at level 100, k at level 200) : st_scope.

(** ** math/rand

    The generator is a library of the Go distribution.  The mutators use
    three of its operations; they are taken through an interface that states
    what the library documents: [Intn n] is in [0, n) for [n > 0] (it
    panics otherwise; the mutators that their constructors build call it
    with positive arguments only), and [Read] fills the whole slice it is
    given with bytes.  [NewSource seed] is [rand.New(rand.NewSource(seed))]. *)

Class RandSource (R : Type) := {
  NewSource : Z -> R;
  Intn : Z -> St R Z;
  Read : nat -> St R (list byte);
  Intn_range : forall n r, 0 < n -> 0 <= fst (Intn n r) < n;
  Read_length : forall n r, length (fst (Read n r)) = n;
  Read_bytes : forall n r, Forall (fun b => 0 <= b < 256) (fst (Read n r));
}.

(** ** time.Now().UnixNano() *)

Record Clock := MkClock { readings : nat -> Z; ticks : nat }.

Definition UnixNano : St Clock Z :=
  fun c => (readings c (ticks c), MkClock (readings c) (S (ticks c))).

(** ** engine: results *)

Module FuzzResult.
Record t := Make {
  ID : string;
  Input : list byte;
  ErrorMessage : string;
  Failed : bool;
  StateInconsistency : bool;
  ConsensusFailure : bool;
  Crashed : bool;
}.
End FuzzResult.

Module FuzzSummary.
Record t := Make {
  TotalTests : Z;
  Failed : Z;
  StateInconsistencies : Z;
  ConsensusFailures : Z;
  Crashes : Z;
}.
End FuzzSummary.

(** [fmt.Sprintf("<prefix>%d", time.Now().UnixNano())] *)
Definition sprintf_id (prefix : string) : St Clock string :=
  (let* now := UnixNano in ret (prefix +:+ pretty now))%st.

(** [err != nil && err.Error() != "invalid arguments" &&
     err.Error() != "permission denied"] *)
Definition unexpected (err : option string) : bool :=
  match err with
  | Some e => negb (String.eqb e "invalid arguments")
              && negb (String.eqb e "permission denied")
  | None => false
  end.

(** [output != nil && len(output) > 0] *)
Definition nonempty (output : option (list byte)) : option (list byte) :=
  match output with
  | Some o => if (0 <? len o)%Z then Some o else None
  | None => None
  end.

(** The fields of [BaseMutator] but [rand], the pointer to the shared
    generator, whose state the methods receive and return. *)
Record BaseMutator := { name : string }.

(** The interface [StateMutator] of the engine.  [GenerateFuzzInput] has a
    pointer receiver: it returns the receiver as the call leaves it. *)
Class StateMutator (R M : Type) := {
  Name : M -> string;
  GenerateFuzzInput : M -> St R (list byte * M);
  ValidateOutput :
    M -> option (list byte) -> option string -> St Clock (option FuzzResult.t);
}.

(** *** RandomTxMutator *)

Module RandomTxMutator.
Section WithRand.
Context {R : Type} `{RandSource R}.

Record t := Make { base : BaseMutator }.

Definition New : t := Make {| name := "RandomTxMutator" |}.

Definition GenerateFuzzInput (m : t) : St R (list byte) :=
  (let* n := Intn 4080 in
   let length := 16 + n in
   let* input := Read (Z.to_nat length) in
   ret input)%st.

Definition ValidateOutput (m : t) (output : option (list byte))
    (err : option string) : St Clock (option FuzzResult.t) :=
  if unexpected err then
    (let* id := sprintf_id "random_tx_" in
     ret (Some (FuzzResult.Make id [] (default "" err) true false false true)))%st
  else
    match nonempty output with
    | Some o =>
        if bytes_eq_string o "state_inconsistent" then
          (let* id := sprintf_id "random_tx_" in
           ret (Some (FuzzResult.Make id [] "State inconsistency detected"
                        true true false false)))%st
        else if bytes_eq_string o "consensus_failure" then
          (let* id := sprintf_id "random_tx_" in
           ret (Some (FuzzResult.Make id [] "Consensus failure detected"
                        true false true false)))%st
        else ret None
    | None => ret None
    end.

End WithRand.
Arguments t : clear implicits.
End RandomTxMutator.

(** *** BoundaryValueMutator *)

(** [binary.LittleEndian.PutUint64(b, v)]: the eight bytes of [v], least
    significant first, over the first eight bytes of [b]. *)
Definition le_bytes (v : Z) : list byte :=
  map (fun i => byte_of_int (Z.shiftr v (8 * i))) [0; 1; 2; 3; 4; 5; 6; 7].

Definition PutUint64 (b : list byte) (v : Z) : list byte :=
  le_bytes v ++ drop 8 b.

(** [f(s[lo:hi])] where [f] writes through the sub-slice. *)
Definition on_subslice (lo hi : nat) (f : list byte -> list byte)
    (s : list byte) : list byte :=
  take lo s ++ f (take (hi - lo) (drop lo s)) ++ drop hi s.

(** [make([]byte, n)] *)
Definition make (n : Z) : list byte := repeat 0 (Z.to_nat n).

Module BoundaryValueMutator.
Section WithRand.
Context {R : Type} `{RandSource R}.

Record t := Make { base : BaseMutator }.

Definition New : t := Make {| name := "BoundaryValueMutator" |}.

Definition GenerateFuzzInput (m : t) : St R (list byte) :=
  (let* testCase := Intn 6 in
   match testCase with
   | 0 => ret []
   | 1 => let* b := Intn 256 in ret [byte_of_int b]
   | 2 =>
       let input := make 16 in
       let input := on_subslice 0 8 (fun b => PutUint64 b 0xFFFFFFFFFFFFFFFF) input in
       let input := on_subslice 8 16 (fun b => PutUint64 b 0xFFFFFFFFFFFFFFFF) input in
       ret input
   | 3 =>
       let* n := Intn 100 in
       let length := 16 + n in
       ret (make length)
   | 4 =>
       let input := make 16 in
       let input := on_subslice 0 8 (fun b => PutUint64 b 0x8000000000000000) input in
       ret input
   | 5 =>
       let* k := Intn 5 in
       let length := 1024 * 1024 * (1 + k) in
       let* input := Read (Z.to_nat length) in
       ret input
   | _ => ret []
   end)%st.

Definition ValidateOutput (m : t) (output : option (list byte))
    (err : option string) : St Clock (option FuzzResult.t) :=
  if unexpected err then
    (let* id := sprintf_id "boundary_" in
     ret (Some (FuzzResult.Make id [] (default "" err) true false false true)))%st
  else
    match nonempty output with
    | Some o =>
        if bytes_eq_string o "state_inconsistent" then
          (let* id := sprintf_id "boundary_" in
           ret (Some (FuzzResult.Make id []
                        "State inconsistency detected with boundary value"
                        true true false false)))%st
        else if bytes_eq_string o "consensus_failure" then
          (let* id := sprintf_id "boundary_" in
           ret (Some (FuzzResult.Make id []
                        "Consensus failure detected with boundary value"
                        true false true false)))%st
        else ret None
    | None => ret None
    end.

End WithRand.
Arguments t : clear implicits.
End BoundaryValueMutator.

(** *** StatefulMutator *)

Module StatefulMutator.
Section WithRand.
Context {R : Type} `{RandSource R}.

Record t := Make { base : BaseMutator; currentState : list byte }.

Definition New : t := Make {| name := "StatefulMutator" |} (make 0).

Definition GenerateFuzzInput (m : t) : St R (list byte * t) :=
  (let* op := Intn 4 in
   let opType := byte_of_int op in
   let input := [] in
   let input := input ++ [opType] in
   let* header := Read 4 in
   let input := input ++ header in
   let input :=
     if (0 <? len (currentState m))%Z then input ++ currentState m else input in
   let* e := Intn 92 in
   let extraLen := 8 + e in
   let* extra := Read (Z.to_nat extraLen) in
   let input := input ++ extra in
   let cs := currentState m ++ [nth 0 input 0] in
   let cs := if (64 <? len cs)%Z then drop (Z.to_nat (len cs - 64)) cs else cs in
   ret (input, Make (base m) cs))%st.

Definition ValidateOutput (m : t) (output : option (list byte))
    (err : option string) : St Clock (option FuzzResult.t) :=
  let on_error : St Clock (option FuzzResult.t) :=
    if unexpected err then
      (let* id := sprintf_id "stateful_" in
       ret (Some (FuzzResult.Make id (currentState m)
                    ("Unexpected error in state sequence: " +:+ default "" err)
                    true false false true)))%st
    else ret None in
  match nonempty output with
  | Some o =>
      if bytes_eq_string o "state_inconsistent" then
        (let* id := sprintf_id "stateful_" in
         ret (Some (FuzzResult.Make id (currentState m)
                      "State transition inconsistency detected"
                      true true false false)))%st
      else if bytes_eq_string o "consensus_failure" then
        (let* id := sprintf_id "stateful_" in
         ret (Some (FuzzResult.Make id (currentState m)
                      "Consensus failure in state transition sequence"
                      true false true false)))%st
      else on_error
  | None => on_error
  end.

End WithRand.
End StatefulMutator.

(** *** SpecialCasesMutator *)

(** [copy(dst, src)]: the first [min(len(dst), len(src))] bytes of [src]
    over those of [dst]. *)
Definition copy (dst src : list byte) : list byte :=
  let n := Nat.min (length dst) (length src) in
  take n src ++ drop n dst.

Definition specialCases : list (list byte) :=
  [ [0x1; 0x0; 0x0; 0x0; 0xAA; 0xBB; 0xCC; 0xDD];
    [0x2; 0xFF; 0xFF; 0xFF; 0xFF; 0x0; 0x0; 0x0];
    [0x3; 0x1; 0x0; 0x0; 0x0; 0x1; 0x0; 0x0; 0x0];
    [0x4; 0xF0; 0xF0; 0xF0; 0xF0; 0x0; 0x0; 0x0; 0x0];
    [0x5; 0x1; 0x0; 0x0; 0x0; 0xFF; 0xFF; 0xFF; 0xFF];
    [0x6; 0xFF; 0xFF; 0xFF; 0xFF; 0xFF; 0xFF; 0xFF; 0xFF];
    [0x7; 0xA; 0xB; 0xC; 0xD; 0x1; 0x0; 0x0; 0x0] ].

Module SpecialCasesMutator.
Section WithRand.
Context {R : Type} `{RandSource R}.

Record t := Make { base : BaseMutator; cases : list (list byte); index : Z }.

Definition New : t := Make {| name := "SpecialCasesMutator" |} specialCases 0.

(** [m.cases[i]] *)
Definition case_at (m : t) (i : Z) : list byte := nth (Z.to_nat i) (cases m) [].

(** [for i := 0; i < mutations; i++ { pos := ...; baseCase[pos] = ... }],
    with [n] rounds left. *)
Fixpoint mutate (n : nat) (baseCase : list byte) : St R (list byte) :=
  match n with
  | O => ret baseCase
  | S n' =>
      (let* pos := Intn (len baseCase) in
       let* b := Intn 256 in
       mutate n' (<[Z.to_nat pos := byte_of_int b]> baseCase))%st
  end.

Definition GenerateFuzzInput (m : t) : St R (list byte) :=
  (let* p := Intn 100 in
   let useRaw := (p <? 75)%Z in
   let* baseCase :=
     if useRaw then
       let* i := Intn (len (cases m)) in
       ret (case_at m i)
     else
       let* i := Intn (len (cases m)) in
       let baseCase := make (len (case_at m i)) in
       let* j := Intn (len (cases m)) in
       let baseCase := copy baseCase (case_at m j) in
       let* k := Intn 5 in
       let mutations := 1 + k in
       mutate (Z.to_nat mutations) baseCase in
   let* paddingLen := Intn 100 in
   let* padding := Read (Z.to_nat paddingLen) in
   ret (baseCase ++ padding))%st.

Definition ValidateOutput (m : t) (output : option (list byte))
    (err : option string) : St Clock (option FuzzResult.t) :=
  if unexpected err then
    (let* id := sprintf_id "special_" in
     ret (Some (FuzzResult.Make id []
                  ("Special case triggered error: " +:+ default "" err)
                  true false false true)))%st
  else
    match nonempty output with
    | Some o =>
        if bytes_eq_string o "state_inconsistent" then
          (let* id := sprintf_id "special_" in
           ret (Some (FuzzResult.Make id []
                        "Special case triggered state inconsistency"
                        true true false false)))%st
        else if bytes_eq_string o "consensus_failure" then
          (let* id := sprintf_id "special_" in
           ret (Some (FuzzResult.Make id []
                        "Special case triggered consensus failure"
                        true false true false)))%st
        else ret None
    | None => ret None
    end.

End WithRand.
End SpecialCasesMutator.

(** ** cosmossdk: the target module *)

Module CosmosModule.

Record t := Make {
  Path : string;
  Name : string;
  Handlers : list string;
  StateTypes : list string;
}.

(** [errors.New] and [fmt.Errorf] without verbs: the error is its message. *)
Definition ExecuteFuzz (m : t) (input : list byte)
    : option (list byte) * option string :=
  if (len input <? 4)%Z then (None, Some "input too short")
  else
    let handlerIndex := Z.rem (nth 0 input 0) (len (Handlers m) + 1) in
    if (handlerIndex =? len (Handlers m))%Z then
      (None, Some "simulated error: invalid handler")
    else
      let outcome := nth 1 input 0 mod 5 in
      match outcome with
      | 0 => (Some (bytes_of_string "success"), None)
      | 1 => (None, Some "invalid arguments")
      | 2 => (None, Some "permission denied")
      | 3 => (Some (bytes_of_string "state_inconsistent"), None)
      | 4 => (Some (bytes_of_string "consensus_failure"), None)
      | _ => (Some (bytes_of_string "unknown"), None)
      end.

End CosmosModule.

(** ** cosmossdk: loading the target module *)

(** The functions of package [strings] that the loader calls, on strings
    as sequences of bytes. *)
Module Strings.

(** [s[:n]] and [s[n:]] *)
Fixpoint take (n : nat) (s : string) : string :=
  match n, s with
  | S n, String c s => String c (take n s)
  | _, _ => ""
  end.

Fixpoint drop (n : nat) (s : string) : string :=
  match n, s with
  | S n, String _ s => drop n s
  | _, _ => s
  end.

(** [strings.HasPrefix(s, prefix)] *)
Fixpoint HasPrefix (s prefix : string) {struct prefix} : bool :=
  match prefix, s with
  | EmptyString, _ => true
  | String a prefix, String b s => Ascii.eqb a b && HasPrefix s prefix
  | String _ _, EmptyString => false
  end.

(** [strings.Index(s, substr)]: the first position at which [substr]
    occurs, [None] for -1. *)
Fixpoint Index (s substr : string) : option nat :=
  if HasPrefix s substr then Some 0%nat
  else match s with
       | EmptyString => None
       | String _ s' => option_map S (Index s' substr)
       end.

(** [strings.Contains(s, substr)] is [Index(s, substr) >= 0]. *)
Definition Contains (s substr : string) : bool :=
  match Index s substr with Some _ => true | None => false end.

(** The loop of [genSplit]: cut at the first separator and go on with what
    follows it.  Every cut removes the separator, so for a non-empty [sep]
    there are at most [len(s)] of them. *)
Fixpoint genSplit (fuel : nat) (s sep : string) : list string :=
  match Index s sep with
  | None => [s]
  | Some m =>
      match fuel with
      | O => [s]
      | S fuel => take m s :: genSplit fuel (drop (m + String.length sep) s) sep
      end
  end.

(** [strings.Split(s, sep)] for a non-empty [sep], as at every call in
    this package. *)
Definition Split (s sep : string) : list string :=
  genSplit (String.length s) s sep.

End Strings.

Definition newline : string := String (ascii_of_nat 10) "".

(** What the loader reaches outside the process: [os.Stat] on a path
    ([missing] is [os.IsNotExist] of its error) and the run of
    [grep -r pattern dir] with its combined output and its error. *)
Record Tree := MkTree {
  missing : string -> bool;
  grep : string -> string -> string * option string;
}.

Module Loader.
Section WithLibrary.
(** [strings.TrimSpace] and [filepath.Join]. *)
Variable TrimSpace : string -> string.
Variable Join : string -> string -> string.

(** The body of the loop of [discoverMessageHandlers] for one line: the
    name to append, if any. *)
Definition handler_of_line (line : string) : option string :=
  if Strings.Contains line "func" && Strings.Contains line "Msg" then
    let parts := Strings.Split line "func " in
    match parts with
    | _ :: part1 :: _ =>
        let handlerParts := Strings.Split part1 "(" in
        match handlerParts with
        | part0 :: _ :: _ =>
            let handlerName := TrimSpace part0 in
            if String.eqb handlerName "" then None else Some handlerName
        | _ => None
        end
    | _ => None
    end
  else None.

Definition discoverMessageHandlers (tree : Tree) (m : CosmosModule.t)
    : CosmosModule.t + string :=
  let keeperDir := Join (CosmosModule.Path m) "keeper" in
  if missing tree keeperDir
  then inr ("keeper directory not found: " +:+ keeperDir)
  else
    let '(output, err) := grep tree "func.*Msg.*" keeperDir in
    match err with
    | Some e => inr ("failed to discover handlers: " +:+ e)
    | None =>
        let lines := Strings.Split output newline in
        let handlers :=
          fold_left
            (fun hs line =>
               match handler_of_line line with
               | Some name => hs ++ [name]
               | None => hs
               end)
            lines (CosmosModule.Handlers m) in
        inl (CosmosModule.Make (CosmosModule.Path m) (CosmosModule.Name m)
               handlers (CosmosModule.StateTypes m))
    end.

(** The body of the loop of [discoverStateTypes] for one line. *)
Definition type_of_line (line : string) : option string :=
  if Strings.Contains line "type" && Strings.Contains line "struct" then
    let parts := Strings.Split line "type " in
    match parts with
    | _ :: part1 :: _ =>
        let typeParts := Strings.Split part1 " " in
        match typeParts with
        | part0 :: _ :: _ =>
            let typeName := TrimSpace part0 in
            if String.eqb typeName "" then None else Some typeName
        | _ => None
        end
    | _ => None
    end
  else None.

Definition discoverStateTypes (tree : Tree) (m : CosmosModule.t)
    : CosmosModule.t + string :=
  let typesDir := Join (CosmosModule.Path m) "types" in
  if missing tree typesDir
  then inr ("types directory not found: " +:+ typesDir)
  else
    let '(output, err) := grep tree "type.*struct" typesDir in
    match err with
    | Some e => inr ("failed to discover state types: " +:+ e)
    | None =>
        let lines := Strings.Split output newline in
        let types :=
          fold_left
            (fun ts line =>
               match type_of_line line with
               | Some name => ts ++ [name]
               | None => ts
               end)
            lines (CosmosModule.StateTypes m) in
        inl (CosmosModule.Make (CosmosModule.Path m) (CosmosModule.Name m)
               (CosmosModule.Handlers m) types)
    end.

Definition LoadCosmosModule (tree : Tree) (path moduleName : string)
    : CosmosModule.t + string :=
  if missing tree path then inr ("module path does not exist: " +:+ path)
  else
    let module := CosmosModule.Make path moduleName [] [] in
    match discoverMessageHandlers tree module with
    | inr e => inr e
    | inl module =>
        match discoverStateTypes tree module with
        | inr e => inr e
        | inl module => inl module
        end
    end.

End WithLibrary.
End Loader.

(** ** engine: configuration, environment and the fuzzing loop *)

Module Config.
Record t := Make {
  TargetPath : string;
  ModuleName : string;
  FuzzCount : Z;
  Seed : Z;
  OutputDir : string;
  Verbose : bool;
  StateMutator : list string;
  SpecialCases : bool;
}.
End Config.

(** What the engine reaches outside the process: the clock, the directory
    of failure reports ([os.Create] succeeds on the names [creatable]
    accepts), and the outcome of [cosmossdk.LoadCosmosModule], which stats
    the module tree and greps it. *)
Record Env := MkEnv {
  clock : Clock;
  files : gmap string FuzzResult.t;
  creatable : string -> bool;
  LoadCosmosModule : string -> string -> CosmosModule.t + string;
}.

Definition with_clock {A} (c : St Clock A) : St Env A :=
  fun e => let (a, c') := c (clock e) in
           (a, MkEnv c' (files e) (creatable e) (LoadCosmosModule e)).

(** A value of interface type [StateMutator]: one of the four mutators. *)
Inductive Mutator :=
| OfRandomTx (m : RandomTxMutator.t)
| OfBoundaryValue (m : BoundaryValueMutator.t)
| OfStateful (m : StatefulMutator.t)
| OfSpecialCases (m : SpecialCasesMutator.t).

(** One round of [Run], as observed: the index drawn among the mutators,
    the generated input, the adapter's answer and the verdict. *)
Record Round := MkRound {
  choice : Z;
  input : list byte;
  output : option (list byte);
  err : option string;
  verdict : option FuzzResult.t;
}.

Inductive RunResult (E : Type) :=
| Fatal (msg : string)                       (* log.Fatalf: the process exits *)
| Panicked                                   (* index out of range *)
| Returned (s : FuzzSummary.t) (rounds : list Round) (f : E) (e : Env).
Arguments Fatal {E}.
Arguments Panicked {E}.
Arguments Returned {E}.

Section Engine.
Context {R : Type} `{RandSource R}.

#[export] Instance RandomTx_StateMutator : StateMutator R RandomTxMutator.t := {|
  Name m := name (RandomTxMutator.base m);
  GenerateFuzzInput m :=
    (let* i := RandomTxMutator.GenerateFuzzInput m in ret (i, m))%st;
  ValidateOutput := RandomTxMutator.ValidateOutput;
|}.

#[export] Instance BoundaryValue_StateMutator
    : StateMutator R BoundaryValueMutator.t := {|
  Name m := name (BoundaryValueMutator.base m);
  GenerateFuzzInput m :=
    (let* i := BoundaryValueMutator.GenerateFuzzInput m in ret (i, m))%st;
  ValidateOutput := BoundaryValueMutator.ValidateOutput;
|}.

#[export] Instance Stateful_StateMutator : StateMutator R StatefulMutator.t := {|
  Name m := name (StatefulMutator.base m);
  GenerateFuzzInput := StatefulMutator.GenerateFuzzInput;
  ValidateOutput := StatefulMutator.ValidateOutput;
|}.

#[export] Instance SpecialCases_StateMutator
    : StateMutator R SpecialCasesMutator.t := {|
  Name m := name (SpecialCasesMutator.base m);
  GenerateFuzzInput m :=
    (let* i := SpecialCasesMutator.GenerateFuzzInput m in ret (i, m))%st;
  ValidateOutput := SpecialCasesMutator.ValidateOutput;
|}.

(** Dynamic dispatch on the interface value. *)
#[export] Instance Mutator_StateMutator : StateMutator R Mutator := {|
  Name m :=
    match m with
    | OfRandomTx m => Name (R := R) m
    | OfBoundaryValue m => Name (R := R) m
    | OfStateful m => Name (R := R) m
    | OfSpecialCases m => Name (R := R) m
    end;
  GenerateFuzzInput m :=
    match m with
    | OfRandomTx m =>
        (let* (i, m') := GenerateFuzzInput m in ret (i, OfRandomTx m'))%st
    | OfBoundaryValue m =>
        (let* (i, m') := GenerateFuzzInput m in ret (i, OfBoundaryValue m'))%st
    | OfStateful m =>
        (let* (i, m') := GenerateFuzzInput m in ret (i, OfStateful m'))%st
    | OfSpecialCases m =>
        (let* (i, m') := GenerateFuzzInput m in ret (i, OfSpecialCases m'))%st
    end;
  ValidateOutput m :=
    match m with
    | OfRandomTx m => ValidateOutput (R := R) m
    | OfBoundaryValue m => ValidateOutput (R := R) m
    | OfStateful m => ValidateOutput (R := R) m
    | OfSpecialCases m => ValidateOutput (R := R) m
    end;
|}.

Record FuzzEngine := MkEngine {
  config : Config.t;
  rand : R;
  mutators : list Mutator;
  results : list FuzzResult.t;
  summary : FuzzSummary.t;
}.

Definition registerDefaultMutators (f : FuzzEngine) : FuzzEngine :=
  let ms := mutators f in
  let ms := ms ++ [OfRandomTx RandomTxMutator.New] in
  let ms := ms ++ [OfBoundaryValue BoundaryValueMutator.New] in
  let ms := ms ++ [OfStateful StatefulMutator.New] in
  let ms :=
    if Config.SpecialCases (config f)
    then ms ++ [OfSpecialCases SpecialCasesMutator.New] else ms in
  MkEngine (config f) (rand f) ms (results f) (summary f).

Definition NewFuzzerEngine (config : Config.t) : St Clock FuzzEngine :=
  (let* seed :=
     if Config.Seed config =? 0 then UnixNano else ret (Config.Seed config) in
   let rng := NewSource seed in
   let engine := MkEngine config rng [] [] (FuzzSummary.Make 0 0 0 0 0) in
   ret (registerDefaultMutators engine))%st.

(** [filepath.Join(dir, "failure_<id>.json")], for a clean [dir]. *)
Definition failure_path (dir id : string) : string :=
  dir +:+ "/" +:+ "failure_" +:+ id +:+ ".json".

Definition recordFailure (f : FuzzEngine) (result : FuzzResult.t) : St Env unit :=
  fun e =>
    let filename := failure_path (Config.OutputDir (config f)) (FuzzResult.ID result) in
    if creatable e filename
    then (tt, MkEnv (clock e) (<[filename := result]> (files e))
                    (creatable e) (LoadCosmosModule e))
    else (tt, e).

Definition trackResult (f : FuzzEngine) (result : FuzzResult.t)
    : St Env FuzzEngine :=
  if FuzzResult.Failed result then
    (let* _ := recordFailure f result in
     let s := summary f in
     let failed := int_incr (FuzzSummary.Failed s) in
     let si := if FuzzResult.StateInconsistency result
               then int_incr (FuzzSummary.StateInconsistencies s)
               else FuzzSummary.StateInconsistencies s in
     let cf := if FuzzResult.ConsensusFailure result
               then int_incr (FuzzSummary.ConsensusFailures s)
               else FuzzSummary.ConsensusFailures s in
     let cr := if FuzzResult.Crashed result
               then int_incr (FuzzSummary.Crashes s)
               else FuzzSummary.Crashes s in
     ret (MkEngine (config f) (rand f) (mutators f) (results f)
            (FuzzSummary.Make (FuzzSummary.TotalTests s) failed si cf cr)))%st
  else ret f.

(** The body of the main loop of [Run]. *)
Definition round (targetModule : CosmosModule.t) (f : FuzzEngine) (e : Env)
    : option (Round * FuzzEngine * Env) :=
  let (k, r1) := Intn (len (mutators f)) (rand f) in
  match mutators f !! Z.to_nat k with
  | None => None
  | Some mutator =>
      let '((input, mutator'), r2) := GenerateFuzzInput mutator r1 in
      let f := MkEngine (config f) r2 (<[Z.to_nat k := mutator']> (mutators f))
                 (results f) (summary f) in
      let '(output, err) := CosmosModule.ExecuteFuzz targetModule input in
      let (result, e) := with_clock (ValidateOutput (R := R) mutator' output err) e in
      let (f, e) :=
        match result with
        | Some result => trackResult f result e
        | None => (f, e)
        end in
      let s := summary f in
      let f := MkEngine (config f) (rand f) (mutators f) (results f)
                 (FuzzSummary.Make (int_incr (FuzzSummary.TotalTests s))
                    (FuzzSummary.Failed s) (FuzzSummary.StateInconsistencies s)
                    (FuzzSummary.ConsensusFailures s) (FuzzSummary.Crashes s)) in
      Some (MkRound k input output err result, f, e)
  end.

(** [for i := 0; i < f.config.FuzzCount; i++], with [n] rounds left. *)
Fixpoint rounds (n : nat) (targetModule : CosmosModule.t) (f : FuzzEngine)
    (e : Env) : option (list Round * FuzzEngine * Env) :=
  match n with
  | O => Some ([], f, e)
  | S n' =>
      match round targetModule f e with
      | None => None
      | Some (r, f, e) =>
          match rounds n' targetModule f e with
          | None => None
          | Some (rs, f, e) => Some (r :: rs, f, e)
          end
      end
  end.

Definition Run (f : FuzzEngine) (e : Env) : RunResult FuzzEngine :=
  match LoadCosmosModule e (Config.TargetPath (config f))
          (Config.ModuleName (config f)) with
  | inr msg => Fatal ("Failed to load target module: " +:+ msg)
  | inl targetModule =>
      match rounds (Z.to_nat (Config.FuzzCount (config f))) targetModule f e with
      | None => Panicked
      | Some (rs, f, e) => Returned (summary f) rs f e
      end
  end.

End Engine.
Arguments FuzzEngine : clear implicits.

(** ** engine: the entry point *)


Section EntryPoint.
Context {R : Type} `{RandSource R}.
(** [filepath.Base]; [os.MkdirAll] with mode 0755, as the error it
    returns; the build's [Version] and [runtime.Version()]. *)
Variable Base : string -> string.
Variable MkdirAll : string -> option string.
Variable Version GoVersion : string.






End EntryPoint.

(** ** Slices in memory

    The model above takes a [[]byte] for its contents.  [ValidateOutput] of
    the stateful mutator stores the slice [m.currentState] itself in the
    verdict, and [GenerateFuzzInput] keeps appending to that slice: what
    the verdict shows afterwards depends on the backing arrays.  This part
    models slice headers over a store of arrays, and the stateful mutator
    over them. *)

(** [runtime.growslice] chooses the capacity of the array that [append]
    allocates when the old one is too small: at least the length needed. *)
Class GrowSlice := {
  growcap : nat -> nat -> nat;
  growcap_fits : forall oldcap needed, (needed <= growcap oldcap needed)%nat;
}.

Module Mem.

(** A slice header: the backing array, the offset of the slice in it, the
    length and the capacity. *)
Record Slice := MkSlice { arr : nat; off : nat; slen : nat; scap : nat }.

(** The arrays allocated so far; an array's address is its index. *)
Abbreviation Heap := (list (list byte)).

(** [var s []byte] *)
Definition nil_slice : Slice := MkSlice 0 0 0 0.

Definition alloc (n : nat) : St Heap nat :=
  fun h => (length h, h ++ [repeat 0 n]).

(** [make([]byte, n)] *)
Definition make (n : nat) : St Heap Slice :=
  (let* a := alloc n in ret (MkSlice a 0 n n))%st.

(** The elements of a slice. *)
Definition load (s : Slice) (h : Heap) : list byte :=
  take (slen s) (drop (off s) (nth (arr s) h [])).

(** [s[i]] *)
Definition index (s : Slice) (i : nat) : St Heap byte :=
  fun h => (nth i (load s h) 0, h).

(** [s[i:]] *)
Definition reslice_from (s : Slice) (i : nat) : Slice :=
  MkSlice (arr s) (off s + i) (slen s - i) (scap s - i).

(** An array with [bs] stored from offset [o] on. *)
Definition patch (o : nat) (bs block : list byte) : list byte :=
  take o block ++ bs ++ drop (o + length bs) block.

(** Store [bs] in array [a] from offset [o] on. *)
Definition write (a o : nat) (bs : list byte) : St Heap unit :=
  fun h =>
    match h !! a with
    | Some block => (tt, <[a := patch o bs block]> h)
    | None => (tt, h)
    end.

Section WithRuntime.
Context `{GrowSlice}.

(** [append(s, bs...)]: in place when the capacity allows, else into a new
    array that receives the old elements first. *)
Definition append (s : Slice) (bs : list byte) : St Heap Slice :=
  let n := (slen s + length bs)%nat in
  if (n <=? scap s)%nat then
    (let* _ := write (arr s) (off s + slen s) bs in
     ret (MkSlice (arr s) (off s) n (scap s)))%st
  else
    fun h =>
      let old := load s h in
      let c := growcap (scap s) n in
      let (a, h) := alloc c h in
      let (_, h) := write a 0 (old ++ bs) h in
      (MkSlice a 0 n c, h).

(** [append(dst, src...)] for a slice [src]. *)
Definition append_slice (dst src : Slice) : St Heap Slice :=
  fun h => append dst (load src h) h.

End WithRuntime.

Definition liftH {R A : Type} (c : St Heap A) : St (Heap * R) A :=
  fun '(h, r) => let (a, h') := c h in (a, (h', r)).

Definition liftR {R A : Type} (c : St R A) : St (Heap * R) A :=
  fun '(h, r) => let (a, r') := c r in (a, (h, r')).

(** [m.rand.Read(s)]: fills the slice. *)
Definition rand_Read {R : Type} `{RandSource R} (s : Slice) : St (Heap * R) unit :=
  (let* bs := liftR (Read (slen s)) in liftH (write (arr s) (off s) bs))%st.

(** [FuzzResult] with its [Input] as the slice header that the struct
    holds. *)
Record FuzzResult := MkResult {
  ID : string;
  Input : Slice;
  ErrorMessage : string;
  Failed : bool;
  StateInconsistency : bool;
  ConsensusFailure : bool;
  Crashed : bool;
}.

(** The verdict with the bytes that its [Input] shows in a heap. *)
Definition snapshot (h : Heap) (v : FuzzResult) : FuzzResult.t :=
  FuzzResult.Make (ID v) (load (Input v) h) (ErrorMessage v) (Failed v)
    (StateInconsistency v) (ConsensusFailure v) (Crashed v).

Module StatefulMutator.
Section WithRand.
Context {R : Type} `{RandSource R} `{GrowSlice}.

Record t := Make { base : BaseMutator; currentState : Slice }.

Definition New : St Heap t :=
  (let* cs := make 0 in ret (Make {| name := "StatefulMutator" |} cs))%st.

Definition GenerateFuzzInput (m : t) : St (Heap * R) (Slice * t) :=
  (let* op := liftR (Intn 4) in
   let opType := byte_of_int op in
   let input := nil_slice in
   let* input := liftH (append input [opType]) in
   let* header := liftH (make 4) in
   let* _ := rand_Read header in
   let* input := liftH (append_slice input header) in
   let* input :=
     if (0 <? slen (currentState m))%nat
     then liftH (append_slice input (currentState m)) else ret input in
   let* e := liftR (Intn 92) in
   let extraLen := 8 + e in
   let* extra := liftH (make (Z.to_nat extraLen)) in
   let* _ := rand_Read extra in
   let* input := liftH (append_slice input extra) in
   let* b := liftH (index input 0) in
   let* cs := liftH (append (currentState m) [b]) in
   let cs := if (64 <? slen cs)%nat then reslice_from cs (slen cs - 64) else cs in
   ret (input, Make (base m) cs))%st.

Definition ValidateOutput (m : t) (output : option (list byte))
    (err : option string) : St Clock (option FuzzResult) :=
  let on_error : St Clock (option FuzzResult) :=
    if unexpected err then
      (let* id := sprintf_id "stateful_" in
       ret (Some (MkResult id (currentState m)
                    ("Unexpected error in state sequence: " +:+ default "" err)
                    true false false true)))%st
    else ret None in
  match nonempty output with
  | Some o =>
      if bytes_eq_string o "state_inconsistent" then
        (let* id := sprintf_id "stateful_" in
         ret (Some (MkResult id (currentState m)
                      "State transition inconsistency detected"
                      true true false false)))%st
      else if bytes_eq_string o "consensus_failure" then
        (let* id := sprintf_id "stateful_" in
         ret (Some (MkResult id (currentState m)
                      "Consensus failure in state transition sequence"
                      true false true false)))%st
      else on_error
  | None => on_error
  end.

End WithRand.
End StatefulMutator.

End Mem.

(** A growth policy to run the model with: double, or what is needed. *)
Definition doubling_growcap (oldcap needed : nat) : nat :=
  Nat.max needed (2 * oldcap).

(** * A concrete generator

    Used to run the model on concrete inputs. *)

(** A generator that replays a tape of raw draws. *)
Module Tape.

Record t := Make { draws : nat -> Z; pos : nat }.

Definition next (s : t) : Z * t :=
  (draws s (pos s), Make (draws s) (S (pos s))).

Definition intn (n : Z) : St t Z :=
  fun s => let (x, s') := next s in (x mod n, s').

Fixpoint read (k : nat) : St t (list byte) :=
  match k with
  | O => ret []
  | S k' => fun s =>
      let (x, s1) := next s in
      let (xs, s2) := read k' s1 in
      (x mod 256 :: xs, s2)
  end.

(** A tape given by its first draws; it continues with zeros. *)
Definition of_list (l : list Z) : t := Make (fun i => nth i l 0) 0.

(** A seeded tape (a linear congruential sequence). *)
Definition seeded (seed : Z) : t :=
  Make (fun i => ((seed + Z.of_nat i) * 6364136223846793005
                  + 1442695040888963407) mod 2 ^ 63) 0.

End Tape.

Lemma Tape_intn_range n (r : Tape.t) : 0 < n -> 0 <= fst (Tape.intn n r) < n.
Proof.
  intros Hn. unfold Tape.intn, Tape.next. simpl. apply Z.mod_pos_bound, Hn.
Qed.

Lemma Tape_read_length n (r : Tape.t) : length (fst (Tape.read n r)) = n.
Proof.
  revert r. induction n as [|n IH]; intros r; simpl; [reflexivity|].
  specialize (IH (Tape.Make (Tape.draws r) (S (Tape.pos r)))).
  destruct (Tape.read n _) as [xs s2]. simpl in *. now rewrite IH.
Qed.

Lemma Tape_read_bytes n (r : Tape.t) :
  Forall (fun b => 0 <= b < 256) (fst (Tape.read n r)).
Proof.
  revert r. induction n as [|n IH]; intros r; simpl; [constructor|].
  specialize (IH (Tape.Make (Tape.draws r) (S (Tape.pos r)))).
  destruct (Tape.read n _) as [xs s2]. simpl in *.
  constructor; [apply Z.mod_pos_bound; lia | exact IH].
Qed.

#[export] Instance TapeSource : RandSource Tape.t := {|
  NewSource := Tape.seeded;
  Intn := Tape.intn;
  Read := Tape.read;
  Intn_range := Tape_intn_range;
  Read_length := Tape_read_length;
  Read_bytes := Tape_read_bytes;
|}.

(** * Properties *)

(** ** Validators *)

Definition crash_verdict (v : FuzzResult.t) : Prop :=
  FuzzResult.Crashed v = true /\ FuzzResult.Failed v = true.

(** The verdict has [Failed] set and exactly one of the three flags. *)
Definition one_flag (v : FuzzResult.t) : Prop :=
  FuzzResult.Failed v = true /\
  ((FuzzResult.StateInconsistency v = true /\ FuzzResult.ConsensusFailure v = false
    /\ FuzzResult.Crashed v = false)
   \/ (FuzzResult.StateInconsistency v = false /\ FuzzResult.ConsensusFailure v = true
       /\ FuzzResult.Crashed v = false)
   \/ (FuzzResult.StateInconsistency v = false /\ FuzzResult.ConsensusFailure v = false
       /\ FuzzResult.Crashed v = true)).

Lemma unexpected_true (e : string) :
  e <> "invalid arguments" -> e <> "permission denied" -> unexpected (Some e) = true.
Proof.
  intros H1 H2. unfold unexpected.
  apply String.eqb_neq in H1, H2. now rewrite H1, H2.
Qed.

Lemma unexpected_input_too_short : unexpected (Some "input too short") = true.
Proof. reflexivity. Qed.

Ltac run_st := cbv [bind ret sprintf_id UnixNano fst snd].

Ltac validator_cases output :=
  destruct (nonempty output) as [?o|]; [| run_st];
  [ destruct (bytes_eq_string _ "state_inconsistent");
    [ run_st | destruct (bytes_eq_string _ "consensus_failure"); run_st ] | ].

Section Validators.
Context {R : Type} `{RandSource R}.

Lemma RandomTx_unexpected m output err c :
  unexpected err = true ->
  exists v, fst (RandomTxMutator.ValidateOutput m output err c) = Some v
            /\ crash_verdict v /\ one_flag v.
Proof.
  intros Hu. unfold RandomTxMutator.ValidateOutput. rewrite Hu. run_st.
  eexists; split; [reflexivity|]. unfold crash_verdict, one_flag; simpl. tauto.
Qed.

Lemma BoundaryValue_unexpected m output err c :
  unexpected err = true ->
  exists v, fst (BoundaryValueMutator.ValidateOutput m output err c) = Some v
            /\ crash_verdict v /\ one_flag v.
Proof.
  intros Hu. unfold BoundaryValueMutator.ValidateOutput. rewrite Hu. run_st.
  eexists; split; [reflexivity|]. unfold crash_verdict, one_flag; simpl. tauto.
Qed.

Lemma SpecialCases_unexpected m output err c :
  unexpected err = true ->
  exists v, fst (SpecialCasesMutator.ValidateOutput m output err c) = Some v
            /\ crash_verdict v /\ one_flag v.
Proof.
  intros Hu. unfold SpecialCasesMutator.ValidateOutput. rewrite Hu. run_st.
  eexists; split; [reflexivity|]. unfold crash_verdict, one_flag; simpl. tauto.
Qed.

(** The stateful validator looks at the output first. *)
Lemma Stateful_unexpected m output err c :
  unexpected err = true ->
  exists v, fst (StatefulMutator.ValidateOutput m output err c) = Some v
    /\ FuzzResult.Failed v = true
    /\ FuzzResult.Input v = StatefulMutator.currentState m
    /\ match nonempty output with
       | Some o =>
           if bytes_eq_string o "state_inconsistent" then
             FuzzResult.StateInconsistency v = true /\ FuzzResult.Crashed v = false
           else if bytes_eq_string o "consensus_failure" then
             FuzzResult.ConsensusFailure v = true /\ FuzzResult.Crashed v = false
           else FuzzResult.Crashed v = true
       | None => FuzzResult.Crashed v = true
       end.
Proof.
  intros Hu. unfold StatefulMutator.ValidateOutput. rewrite Hu.
  validator_cases output; eexists; (split; [reflexivity|]); simpl; tauto.
Qed.

Lemma RandomTx_one_flag m output err c v :
  fst (RandomTxMutator.ValidateOutput m output err c) = Some v -> one_flag v.
Proof.
  unfold RandomTxMutator.ValidateOutput.
  destruct (unexpected err); [run_st|validator_cases output];
    intros [= <-] || discriminate; unfold one_flag; simpl; tauto.
Qed.

Lemma BoundaryValue_one_flag m output err c v :
  fst (BoundaryValueMutator.ValidateOutput m output err c) = Some v -> one_flag v.
Proof.
  unfold BoundaryValueMutator.ValidateOutput.
  destruct (unexpected err); [run_st|validator_cases output];
    intros [= <-] || discriminate; unfold one_flag; simpl; tauto.
Qed.

Lemma Stateful_one_flag m output err c v :
  fst (StatefulMutator.ValidateOutput m output err c) = Some v -> one_flag v.
Proof.
  unfold StatefulMutator.ValidateOutput.
  validator_cases output; try (destruct (unexpected err); run_st);
    intros [= <-] || discriminate; unfold one_flag; simpl; tauto.
Qed.

Lemma SpecialCases_one_flag m output err c v :
  fst (SpecialCasesMutator.ValidateOutput m output err c) = Some v -> one_flag v.
Proof.
  unfold SpecialCasesMutator.ValidateOutput.
  destruct (unexpected err); [run_st|validator_cases output];
    intros [= <-] || discriminate; unfold one_flag; simpl; tauto.
Qed.

End Validators.

(** ** C1: an unexpected error and the output *)

Definition a_clock : Clock := MkClock (fun i => 1700000000000000000 + Z.of_nat i) 0.

(** C1, as stated, fails for the stateful mutator: with the output
    [state_inconsistent] and the unexpected error [boom] its validator
    reports a state inconsistency and leaves [Crashed] unset. *)
Lemma Stateful_error_does_not_take_precedence :
  ~ (forall (m : StatefulMutator.t) (output : option (list byte)) (e : string)
            (c : Clock),
        e <> "invalid arguments" -> e <> "permission denied" ->
        exists v, fst (StatefulMutator.ValidateOutput m output (Some e) c) = Some v
                  /\ crash_verdict v).
Proof.
  intros H.
  destruct (H StatefulMutator.New (Some (bytes_of_string "state_inconsistent"))
              "boom" a_clock) as (v & Hv & Hc & _); [discriminate | discriminate |].
  vm_compute in Hv. injection Hv as <-. discriminate Hc.
Qed.

(** C1 (amended): for RandomTx, BoundaryValue and SpecialCases an error
    whose message is neither [invalid arguments] nor [permission denied]
    yields a verdict with [Crashed] and [Failed] set whatever the output is.
    For Stateful the verdict has [Failed] set; it has [Crashed] set unless
    the output is [state_inconsistent] or [consensus_failure], in which case
    the verdict carries that flag and [Crashed] is unset. *)
Theorem unexpected_error_verdict
    (output : option (list byte)) (e : string) (c : Clock) :
  e <> "invalid arguments" -> e <> "permission denied" ->
  (forall m, exists v,
      fst (RandomTxMutator.ValidateOutput m output (Some e) c) = Some v
      /\ crash_verdict v)
  /\ (forall m, exists v,
      fst (BoundaryValueMutator.ValidateOutput m output (Some e) c) = Some v
      /\ crash_verdict v)
  /\ (forall m, exists v,
      fst (SpecialCasesMutator.ValidateOutput m output (Some e) c) = Some v
      /\ crash_verdict v)
  /\ (forall m, exists v,
      fst (StatefulMutator.ValidateOutput m output (Some e) c) = Some v
      /\ FuzzResult.Failed v = true
      /\ match nonempty output with
         | Some o =>
             if bytes_eq_string o "state_inconsistent" then
               FuzzResult.StateInconsistency v = true /\ FuzzResult.Crashed v = false
             else if bytes_eq_string o "consensus_failure" then
               FuzzResult.ConsensusFailure v = true /\ FuzzResult.Crashed v = false
             else FuzzResult.Crashed v = true
         | None => FuzzResult.Crashed v = true
         end).
Proof.
  intros H1 H2. pose proof (unexpected_true e H1 H2) as Hu.
  repeat split; intros m.
  - destruct (RandomTx_unexpected m output _ c Hu) as (v & ? & ? & _); eauto.
  - destruct (BoundaryValue_unexpected m output _ c Hu) as (v & ? & ? & _); eauto.
  - destruct (SpecialCases_unexpected m output _ c Hu) as (v & ? & ? & _); eauto.
  - destruct (Stateful_unexpected m output _ c Hu) as (v & ? & ? & _ & ?); eauto.
Qed.

Lemma unexpected_error_verdict_witness :
  "boom" <> "invalid arguments" /\ "boom" <> "permission denied"
  /\ (exists v,
      fst (RandomTxMutator.ValidateOutput RandomTxMutator.New
             (Some (bytes_of_string "state_inconsistent")) (Some "boom") a_clock)
      = Some v /\ crash_verdict v).
Proof.
  assert (H1 : "boom" <> "invalid arguments") by discriminate.
  assert (H2 : "boom" <> "permission denied") by discriminate.
  split; [exact H1|]. split; [exact H2|].
  exact (proj1 (unexpected_error_verdict
                  (Some (bytes_of_string "state_inconsistent")) "boom" a_clock H1 H2)
           RandomTxMutator.New).
Defined.

(** ** C10: inputs of fewer than four bytes *)

(** C10: on an input of fewer than 4 bytes [ExecuteFuzz] returns a nil
    output and the error [input too short]; each of the four validators
    turns that answer into a verdict with [Crashed] set; and when
    BoundaryValue draws case 0 (empty input) or case 1 (a single byte), its
    validator reports a crash for the adapter's answer to that input. *)
Theorem short_input_crashes {R : Type} `{RandSource R}
    (t : CosmosModule.t) (c : Clock) :
  (forall input, len input < 4 ->
     CosmosModule.ExecuteFuzz t input = (None, Some "input too short"))
  /\ (forall m, exists v,
        fst (RandomTxMutator.ValidateOutput m None (Some "input too short") c) = Some v
        /\ crash_verdict v)
  /\ (forall m, exists v,
        fst (BoundaryValueMutator.ValidateOutput m None (Some "input too short") c) = Some v
        /\ crash_verdict v)
  /\ (forall m, exists v,
        fst (StatefulMutator.ValidateOutput m None (Some "input too short") c) = Some v
        /\ crash_verdict v)
  /\ (forall m, exists v,
        fst (SpecialCasesMutator.ValidateOutput m None (Some "input too short") c) = Some v
        /\ crash_verdict v)
  /\ (forall (m : BoundaryValueMutator.t) (r : R),
        fst (Intn 6 r) = 0 \/ fst (Intn 6 r) = 1 ->
        let input := fst (BoundaryValueMutator.GenerateFuzzInput m r) in
        let '(output, err) := CosmosModule.ExecuteFuzz t input in
        len input < 4 /\
        exists v, fst (BoundaryValueMutator.ValidateOutput m output err c) = Some v
                  /\ crash_verdict v).
Proof.
  assert (Hshort : forall input, len input < 4 ->
            CosmosModule.ExecuteFuzz t input = (None, Some "input too short")).
  { intros input Hl. unfold CosmosModule.ExecuteFuzz.
    destruct (Z.ltb_spec (len input) 4); [reflexivity | lia]. }
  pose proof unexpected_input_too_short as Hu.
  split; [exact Hshort|].
  repeat split.
  - intros m. destruct (RandomTx_unexpected m None _ c Hu) as (v & ? & ? & _); eauto.
  - intros m. destruct (BoundaryValue_unexpected m None _ c Hu) as (v & ? & ? & _); eauto.
  - intros m. destruct (Stateful_unexpected m None _ c Hu) as (v & ? & Hf & _ & Hc).
    exists v. simpl in Hc. unfold crash_verdict. auto.
  - intros m. destruct (SpecialCases_unexpected m None _ c Hu) as (v & ? & ? & _); eauto.
  - intros m r Hcase input.
    assert (Hl : len input < 4).
    { subst input. unfold BoundaryValueMutator.GenerateFuzzInput, bind.
      destruct (Intn 6 r) as [tc r1]; simpl in Hcase.
      destruct Hcase as [-> | ->]; [reflexivity|].
      destruct (Intn 256 r1); reflexivity. }
    rewrite (Hshort input Hl). split; [exact Hl|].
    destruct (BoundaryValue_unexpected m None _ c Hu) as (v & ? & ? & _); eauto.
Qed.

Lemma short_input_crashes_witness :
  len [7; 1; 2] < 4 /\
  CosmosModule.ExecuteFuzz
    (CosmosModule.Make "x/bank" "bank" ["MsgSend"; "MsgMultiSend"] ["Balance"])
    [7; 1; 2]
  = (None, Some "input too short").
Proof.
  assert (Hl : len [7; 1; 2] < 4) by reflexivity.
  split; [exact Hl|].
  exact (proj1 (short_input_crashes (R := Tape.t)
                  (CosmosModule.Make "x/bank" "bank" ["MsgSend"; "MsgMultiSend"]
                     ["Balance"]) a_clock) [7; 1; 2] Hl).
Defined.

(** ** C5: the length drawn by RandomTxMutator *)

Lemma len_nonneg {A} (l : list A) : 0 <= len l.
Proof. unfold len. lia. Qed.

Lemma len_app {A} (l1 l2 : list A) : len (l1 ++ l2) = len l1 + len l2.
Proof. unfold len. rewrite length_app. lia. Qed.

Lemma len_Read {R : Type} `{RandSource R} (n : Z) (r : R) :
  0 <= n -> len (fst (Read (Z.to_nat n) r)) = n.
Proof. intros Hn. unfold len. rewrite Read_length. lia. Qed.

Lemma RandomTx_length {R : Type} `{RandSource R} (m : RandomTxMutator.t) (r : R) :
  len (fst (RandomTxMutator.GenerateFuzzInput m r)) = 16 + fst (Intn 4080 r).
Proof.
  unfold RandomTxMutator.GenerateFuzzInput, bind, ret.
  pose proof (Intn_range 4080 r ltac:(lia)) as Hn.
  destruct (Intn 4080 r) as [n r1]; simpl in *.
  pose proof (len_Read (16 + n) r1 ltac:(lia)) as Hl.
  destruct (Read (Z.to_nat (16 + n)) r1) as [input r2]; simpl in *. exact Hl.
Qed.

(** C5 (the code against the claim): whatever the state of the generator,
    the input of RandomTxMutator has between 16 and 4095 bytes: the length
    4096, which the claim and the comment in the source include, is never
    produced. *)
Theorem RandomTx_length_never_4096 {R : Type} `{RandSource R}
    (m : RandomTxMutator.t) (r : R) :
  16 <= len (fst (RandomTxMutator.GenerateFuzzInput m r)) <= 4095
  /\ len (fst (RandomTxMutator.GenerateFuzzInput m r)) <> 4096.
Proof.
  rewrite RandomTx_length.
  pose proof (Intn_range 4080 r ltac:(lia)). lia.
Qed.

(** Every length from 16 to 4095 is produced by some state of the
    generator. *)
Lemma RandomTx_length_attained (m : RandomTxMutator.t) (l : Z) :
  16 <= l <= 4095 ->
  len (fst (RandomTxMutator.GenerateFuzzInput m (Tape.of_list [l - 16]))) = l.
Proof.
  intros Hl. rewrite RandomTx_length. simpl. rewrite Z.mod_small; lia.
Qed.

(** ** C6: the shapes of BoundaryValueMutator *)

Definition MiB : Z := 1024 * 1024.

Definition shape_empty (i : list byte) : Prop := i = [].
Definition shape_single (i : list byte) : Prop := len i = 1.
Definition shape_max_uint64 (i : list byte) : Prop :=
  i = le_bytes 0xFFFFFFFFFFFFFFFF ++ le_bytes 0xFFFFFFFFFFFFFFFF.
Definition shape_zeros (i : list byte) : Prop :=
  16 <= len i <= 115 /\ Forall (fun b => b = 0) i.
Definition shape_min_int64 (i : list byte) : Prop :=
  i = le_bytes 0x8000000000000000 ++ repeat 0 8.
Definition shape_large (i : list byte) : Prop :=
  1 * MiB <= len i <= 5 * MiB.

Definition boundary_shapes : list (list byte -> Prop) :=
  [shape_empty; shape_single; shape_max_uint64; shape_zeros; shape_min_int64;
   shape_large].

Fixpoint exactly_one (ps : list Prop) : Prop :=
  match ps with
  | [] => False
  | p :: ps => (p /\ Forall (fun q => ~ q) ps) \/ (~ p /\ exactly_one ps)
  end.

Lemma le_bytes_max : le_bytes 0xFFFFFFFFFFFFFFFF = repeat 255 8.
Proof. reflexivity. Qed.

Lemma le_bytes_min : le_bytes 0x8000000000000000 = [0; 0; 0; 0; 0; 0; 0; 128].
Proof. reflexivity. Qed.

Lemma len_repeat {A} (x : A) (n : nat) : len (repeat x n) = Z.of_nat n.
Proof. unfold len. now rewrite repeat_length. Qed.

Lemma Forall_zero_nth (i : list byte) (k : nat) :
  Forall (fun b => b = 0) i -> nth k i 0 = 0.
Proof.
  intros Hz. destruct (Nat.lt_ge_cases k (length i)) as [Hk | Hk].
  - rewrite List.Forall_forall in Hz. apply Hz, nth_In, Hk.
  - now apply nth_overflow.
Qed.

(** What each case of the switch returns. *)
Lemma BoundaryValue_cases {R : Type} `{RandSource R}
    (m : BoundaryValueMutator.t) (r : R) :
  let i := fst (BoundaryValueMutator.GenerateFuzzInput m r) in
  let tc := fst (Intn 6 r) in
  (tc = 0 /\ i = [])
  \/ (tc = 1 /\ exists b, 0 <= b < 256 /\ i = [b])
  \/ (tc = 2 /\ i = repeat 255 16)
  \/ (tc = 3 /\ exists n, 0 <= n < 100 /\ i = repeat 0 (Z.to_nat (16 + n)))
  \/ (tc = 4 /\ i = [0; 0; 0; 0; 0; 0; 0; 128] ++ repeat 0 8)
  \/ (tc = 5 /\ exists k, 0 <= k < 5 /\ len i = MiB * (1 + k)).
Proof.
  intros i tc. subst i tc.
  unfold BoundaryValueMutator.GenerateFuzzInput, bind, ret.
  pose proof (Intn_range 6 r ltac:(lia)) as Htc.
  destruct (Intn 6 r) as [tc r1]; simpl fst in *.
  assert (Hc : tc = 0 \/ tc = 1 \/ tc = 2 \/ tc = 3 \/ tc = 4 \/ tc = 5) by lia.
  destruct Hc as [-> | [-> | [-> | [-> | [-> | ->]]]]].
  - left. auto.
  - right; left. split; [reflexivity|].
    pose proof (Intn_range 256 r1 ltac:(lia)) as Hb.
    destruct (Intn 256 r1) as [b r2]; simpl in *.
    exists (byte_of_int b). split; [apply Z.mod_pos_bound; lia | reflexivity].
  - right; right; left. split; reflexivity.
  - right; right; right; left. split; [reflexivity|].
    pose proof (Intn_range 100 r1 ltac:(lia)) as Hn.
    destruct (Intn 100 r1) as [n r2]; simpl fst in *.
    exists n. split; [exact Hn | reflexivity].
  - right; right; right; right; left. split; reflexivity.
  - right; right; right; right; right. split; [reflexivity|].
    pose proof (Intn_range 5 r1 ltac:(lia)) as Hk.
    destruct (Intn 5 r1) as [k r2]; simpl fst in *.
    exists k. split; [exact Hk|].
    change (1024 * 1024 * (1 + k)) with (MiB * (1 + k)).
    pose proof (len_Read (MiB * (1 + k)) r2 ltac:(unfold MiB; lia)) as Hl.
    destruct (Read (Z.to_nat (MiB * (1 + k))) r2) as [input r3]. exact Hl.
Qed.

(** The length and the eighth byte tell the shapes apart. *)
Lemma shape_empty_len i : shape_empty i -> len i = 0.
Proof. now intros ->. Qed.

Lemma shape_max_uint64_byte i : shape_max_uint64 i -> len i = 16 /\ nth 7 i 0 = 255.
Proof. now intros ->. Qed.

Lemma shape_zeros_byte i : shape_zeros i -> 16 <= len i <= 115 /\ nth 7 i 0 = 0.
Proof. intros [Hl Hz]. split; [exact Hl | now apply Forall_zero_nth]. Qed.

Lemma shape_min_int64_byte i : shape_min_int64 i -> len i = 16 /\ nth 7 i 0 = 128.
Proof. now intros ->. Qed.

Ltac refute_shape :=
  let Hs := fresh "Hs" in
  intros Hs;
  first [ apply shape_empty_len in Hs
        | apply shape_max_uint64_byte in Hs; destruct Hs
        | apply shape_zeros_byte in Hs; destruct Hs
        | apply shape_min_int64_byte in Hs; destruct Hs
        | unfold shape_single, shape_large, MiB in Hs ];
  unfold MiB in *; first [ lia | congruence ].

Ltac skip_shape := right; split; [refute_shape|].
Ltac pick_shape := left; split; [| repeat constructor; refute_shape].

(** C6: every input of BoundaryValueMutator has exactly one of the six
    shapes: empty; one byte; sixteen bytes that encode the 64-bit word of
    all ones twice, least significant byte first; 16 to 115 zero bytes;
    sixteen bytes that encode 0x8000000000000000, least significant byte
    first, followed by eight zero bytes; 1 to 5 MiB of bytes. *)
Theorem BoundaryValue_exactly_one_shape {R : Type} `{RandSource R}
    (m : BoundaryValueMutator.t) (r : R) :
  exactly_one
    (map (fun shape => shape (fst (BoundaryValueMutator.GenerateFuzzInput m r)))
       boundary_shapes).
Proof.
  pose proof (BoundaryValue_cases m r) as Hc. simpl in Hc.
  set (i := fst (BoundaryValueMutator.GenerateFuzzInput m r)) in *.
  cbn [map boundary_shapes exactly_one].
  destruct Hc as [[_ Hi] | [[_ (b & Hb & Hi)] | [[_ Hi] | [[_ (n & Hn & Hi)]
                 | [[_ Hi] | [_ (k & Hk & Hl)]]]]]].
  - assert (len i = 0) by now rewrite Hi.
    pick_shape. exact Hi.
  - assert (len i = 1) by now rewrite Hi.
    skip_shape. pick_shape. assumption.
  - assert (len i = 16 /\ nth 7 i 0 = 255) as [? ?] by now rewrite Hi.
    do 2 skip_shape. pick_shape. exact Hi.
  - assert (len i = 16 + n) by (rewrite Hi, len_repeat; lia).
    assert (Hz : Forall (fun b => b = 0) i).
    { rewrite Hi. apply List.Forall_forall. intros x Hx.
      now apply repeat_spec in Hx. }
    pose proof (Forall_zero_nth i 7 Hz).
    do 3 skip_shape. pick_shape. split; [lia | exact Hz].
  - assert (len i = 16 /\ nth 7 i 0 = 128) as [? ?] by now rewrite Hi.
    do 4 skip_shape. left. split; [exact Hi | constructor; [refute_shape | constructor]].
  - do 5 skip_shape. left. split; [unfold shape_large, MiB in *; lia | constructor].
Qed.

(** ** C2: the history of StatefulMutator *)

(** The receiver after successive calls of [GenerateFuzzInput], the k-th
    call made in the generator state [rs !! k] (the generator is shared:
    other mutators draw from it between two calls). *)
Definition Stateful_calls {R : Type} `{RandSource R} (rs : list R)
    (m : StatefulMutator.t) : StatefulMutator.t :=
  fold_left (fun m r => snd (fst (StatefulMutator.GenerateFuzzInput m r))) rs m.

(** One call: the input is not empty, and the history becomes the last 64
    bytes of the old history followed by the first byte of the input. *)
Lemma Stateful_step {R : Type} `{RandSource R} (m : StatefulMutator.t) (r : R) :
  let '(input, m') := fst (StatefulMutator.GenerateFuzzInput m r) in
  exists b rest,
    input = b :: rest
    /\ b = byte_of_int (fst (Intn 4 r))
    /\ StatefulMutator.base m' = StatefulMutator.base m
    /\ StatefulMutator.currentState m'
       = let cs := StatefulMutator.currentState m ++ [b] in
         drop (length cs - 64) cs.
Proof.
  unfold StatefulMutator.GenerateFuzzInput, bind, ret.
  destruct (Intn 4 r) as [op r1]. destruct (Read 4 r1) as [header r2].
  destruct (Intn 92 r2) as [e r3].
  destruct (Read (Z.to_nat (8 + e)) r3) as [extra r4]. cbn [fst snd].
  set (cs := StatefulMutator.currentState m).
  set (input := (if 0 <? len cs then _ else _) ++ extra).
  assert (Hin : exists rest, input = byte_of_int op :: rest).
  { subst input. destruct (0 <? len cs); simpl; eauto. }
  destruct Hin as (rest & Hin). exists (byte_of_int op), rest.
  rewrite Hin. cbn [nth StatefulMutator.base StatefulMutator.currentState].
  repeat split.
  destruct (Z.ltb_spec 64 (len (cs ++ [byte_of_int op]))) as [Hlt | Hge].
  - f_equal. unfold len. lia.
  - replace (length (cs ++ [byte_of_int op]) - 64)%nat with 0%nat
      by (unfold len in Hge; lia).
    reflexivity.
Qed.

Lemma Stateful_step_length {R : Type} `{RandSource R} (m : StatefulMutator.t) (r : R) :
  len (StatefulMutator.currentState
         (snd (fst (StatefulMutator.GenerateFuzzInput m r))))
  = Z.min (len (StatefulMutator.currentState m) + 1) 64.
Proof.
  pose proof (Stateful_step m r) as Hs.
  destruct (fst (StatefulMutator.GenerateFuzzInput m r)) as [input m'].
  destruct Hs as (b & rest & _ & _ & _ & Hcs). cbn [snd]. rewrite Hcs.
  unfold len. rewrite length_drop, length_app. simpl. lia.
Qed.

Lemma Stateful_calls_length {R : Type} `{RandSource R} (rs : list R)
    (m : StatefulMutator.t) :
  len (StatefulMutator.currentState m) <= 64 ->
  len (StatefulMutator.currentState (Stateful_calls rs m))
  = Z.min (len (StatefulMutator.currentState m) + len rs) 64.
Proof.
  revert m. induction rs as [|r rs IH]; intros m Hm.
  - simpl. unfold len in *. simpl. lia.
  - cbn [Stateful_calls fold_left].
    change (fold_left _ rs ?x) with (Stateful_calls rs x).
    pose proof (Stateful_step_length m r) as Hl.
    rewrite IH by lia. rewrite Hl.
    unfold len in *. simpl length. lia.
Qed.

(** C2: the history is empty at construction; a call of
    [GenerateFuzzInput] appends one byte, the first of the input it
    returns, and keeps the last 64 bytes; after [n] calls the history has
    [min n 64] bytes. *)
Theorem Stateful_history_length {R : Type} `{RandSource R} :
  StatefulMutator.currentState StatefulMutator.New = []
  /\ (forall (m : StatefulMutator.t) (r : R),
        let '(input, m') := fst (StatefulMutator.GenerateFuzzInput m r) in
        exists b rest,
          input = b :: rest
          /\ StatefulMutator.currentState m'
             = let cs := StatefulMutator.currentState m ++ [b] in
               drop (length cs - 64) cs)
  /\ (forall rs : list R,
        len (StatefulMutator.currentState (Stateful_calls rs StatefulMutator.New))
        = Z.min (len rs) 64).
Proof.
  split; [reflexivity|]. split.
  - intros m r. pose proof (Stateful_step m r) as Hs.
    destruct (fst (StatefulMutator.GenerateFuzzInput m r)) as [input m'].
    destruct Hs as (b & rest & ? & _ & _ & ?). eauto.
  - intros rs. rewrite Stateful_calls_length by (simpl; unfold len; simpl; lia).
    reflexivity.
Qed.

(** ** C4: what SpecialCasesMutator puts before the padding *)

(** Point mutations [(pos, b)], applied in order. *)
Definition point_mutations (ms : list (nat * byte)) (l : list byte) : list byte :=
  fold_left (fun l '(pos, b) => <[pos := b]> l) ms l.

(** What C4 says of the bytes before the padding: a corpus entry, or a copy
    of one corpus entry with 1 to 5 point mutations at offsets within it. *)
Definition corpus_derived (base : list byte) : Prop :=
  In base specialCases
  \/ exists e ms,
       In e specialCases
       /\ (1 <= length ms <= 5)%nat
       /\ Forall (fun '(pos, _) => (pos < length e)%nat) ms
       /\ base = point_mutations ms e.

(** The number of positions at which two lists differ. *)
Fixpoint hamming (l1 l2 : list byte) : nat :=
  match l1, l2 with
  | x :: l1, y :: l2 => ((if Z.eqb x y then 0 else 1) + hamming l1 l2)%nat
  | _, _ => 0%nat
  end.

Lemma hamming_insert (l l' : list byte) (pos : nat) (b : byte) :
  (hamming l (<[pos := b]> l') <= S (hamming l l'))%nat.
Proof.
  revert l' pos. induction l as [|x l IH]; intros [|y l'] pos; simpl; try lia.
  destruct pos as [|pos]; simpl.
  - destruct (x =? b), (x =? y); lia.
  - specialize (IH l' pos). lia.
Qed.

Lemma hamming_refl (l : list byte) : hamming l l = 0%nat.
Proof. induction l as [|x l IH]; simpl; [reflexivity|]. now rewrite Z.eqb_refl. Qed.

Lemma point_mutations_length ms l : length (point_mutations ms l) = length l.
Proof.
  revert l. induction ms as [|[pos b] ms IH]; intros l; [reflexivity|].
  change (point_mutations ((pos, b) :: ms) l)
    with (point_mutations ms (<[pos := b]> l)).
  now rewrite IH, length_insert.
Qed.

Lemma hamming_point_mutations e ms l :
  (hamming e (point_mutations ms l) <= hamming e l + length ms)%nat.
Proof.
  revert l. induction ms as [|[pos b] ms IH]; intros l; [simpl; lia|].
  change (point_mutations ((pos, b) :: ms) l)
    with (point_mutations ms (<[pos := b]> l)).
  specialize (IH (<[pos := b]> l)).
  pose proof (hamming_insert e l pos b). simpl length. lia.
Qed.

(** A corpus-derived list is as long as a corpus entry that it differs from
    in at most five positions. *)
Lemma corpus_derived_near base :
  corpus_derived base ->
  exists e, In e specialCases /\ length base = length e
            /\ (hamming e base <= 5)%nat.
Proof.
  intros [Hin | (e & ms & Hin & Hn & _ & ->)].
  - exists base. rewrite hamming_refl. repeat split; [exact Hin | lia].
  - exists e. rewrite point_mutations_length.
    pose proof (hamming_point_mutations e ms e) as Hh.
    rewrite hamming_refl in Hh. repeat split; [exact Hin | lia].
Qed.

(** The draws of the failing run: 75 (mutate), entry 0 for the length,
    entry 3 for the content, one mutation, at offset 5, of value 7, no
    padding. *)
Definition mixed_draws : Tape.t := Tape.of_list [75; 0; 3; 0; 5; 7; 0].

(** C4 (the code against the claim): in the mutating branch the length of
    the copy and its content come from two independent draws.  With the
    draws [mixed_draws] the result is entry 3 cut to the 8 bytes of entry 0,
    with one mutation and no padding; no prefix of it is a corpus entry or a
    copy of one corpus entry with 1 to 5 point mutations. *)
Theorem SpecialCases_mixes_two_entries :
  let out := fst (SpecialCasesMutator.GenerateFuzzInput SpecialCasesMutator.New
                    mixed_draws) in
  out = [0x4; 0xF0; 0xF0; 0xF0; 0xF0; 0x7; 0x0; 0x0]
  /\ forall base padding, out = base ++ padding -> ~ corpus_derived base.
Proof.
  intros out.
  assert (Hout : out = [0x4; 0xF0; 0xF0; 0xF0; 0xF0; 0x7; 0x0; 0x0])
    by (vm_compute; reflexivity).
  split; [exact Hout|].
  intros base padding Hsplit Hd. rewrite Hout in Hsplit.
  destruct (corpus_derived_near base Hd) as (e & Hin & Hlen & Hham).
  assert (Hl : (length base + length padding = 8)%nat).
  { rewrite <- length_app, <- Hsplit. reflexivity. }
  assert (Hb : (length base = 8)%nat).
  { simpl in Hin.
    destruct Hin as [<- | [<- | [<- | [<- | [<- | [<- | [<- | []]]]]]]];
      simpl in Hlen; lia. }
  assert (Hp : padding = []) by (destruct padding; [reflexivity | simpl in Hl; lia]).
  subst padding. rewrite app_nil_r in Hsplit. subst base.
  simpl in Hin.
  destruct Hin as [<- | [<- | [<- | [<- | [<- | [<- | [<- | []]]]]]]];
    vm_compute in Hham, Hlen; lia.
Qed.

(** ** The fuzzing loop *)

(** What one round does to the summary: [trackResult] on a verdict, then
    [TotalTests++]. *)
Definition count_verdict (s : FuzzSummary.t) (v : option FuzzResult.t)
    : FuzzSummary.t :=
  let bump (b : bool) (x : Z) := if b then int_incr x else x in
  match v with
  | Some v =>
      if FuzzResult.Failed v then
        FuzzSummary.Make (int_incr (FuzzSummary.TotalTests s))
          (int_incr (FuzzSummary.Failed s))
          (bump (FuzzResult.StateInconsistency v) (FuzzSummary.StateInconsistencies s))
          (bump (FuzzResult.ConsensusFailure v) (FuzzSummary.ConsensusFailures s))
          (bump (FuzzResult.Crashed v) (FuzzSummary.Crashes s))
      else
        FuzzSummary.Make (int_incr (FuzzSummary.TotalTests s)) (FuzzSummary.Failed s)
          (FuzzSummary.StateInconsistencies s) (FuzzSummary.ConsensusFailures s)
          (FuzzSummary.Crashes s)
  | None =>
      FuzzSummary.Make (int_incr (FuzzSummary.TotalTests s)) (FuzzSummary.Failed s)
        (FuzzSummary.StateInconsistencies s) (FuzzSummary.ConsensusFailures s)
        (FuzzSummary.Crashes s)
  end.

(** The adapter answered [success] with a nil error. *)
Definition succeeded (r : Round) : Prop :=
  output r = Some (bytes_of_string "success") /\ err r = None.

Definition flags (v : FuzzResult.t) : bool * bool * bool * bool :=
  (FuzzResult.Failed v, FuzzResult.StateInconsistency v,
   FuzzResult.ConsensusFailure v, FuzzResult.Crashed v).

Section Loop.
Context {R : Type} `{RandSource R}.

Lemma Mutator_one_flag (m : Mutator) output err c v :
  fst (ValidateOutput (R := R) m output err c) = Some v -> one_flag v.
Proof.
  destruct m as [m | m | m | m]; cbn [ValidateOutput Mutator_StateMutator
    RandomTx_StateMutator BoundaryValue_StateMutator Stateful_StateMutator
    SpecialCases_StateMutator].
  - apply RandomTx_one_flag.
  - apply BoundaryValue_one_flag.
  - apply Stateful_one_flag.
  - apply SpecialCases_one_flag.
Qed.

Lemma Mutator_success (m : Mutator) c :
  fst (ValidateOutput (R := R) m (Some (bytes_of_string "success")) None c) = None.
Proof. destruct m; reflexivity. Qed.

(** The flags of a verdict do not depend on the clock (its [ID] does). *)
Lemma Mutator_flags_clock (m : Mutator) output err c1 c2 :
  option_map flags (fst (ValidateOutput (R := R) m output err c1))
  = option_map flags (fst (ValidateOutput (R := R) m output err c2)).
Proof.
  destruct m as [m | m | m | m]; cbn [ValidateOutput Mutator_StateMutator
    RandomTx_StateMutator BoundaryValue_StateMutator Stateful_StateMutator
    SpecialCases_StateMutator];
    [ unfold RandomTxMutator.ValidateOutput
    | unfold BoundaryValueMutator.ValidateOutput
    | unfold StatefulMutator.ValidateOutput
    | unfold SpecialCasesMutator.ValidateOutput ];
    destruct (unexpected err); run_st; try reflexivity;
    validator_cases output; reflexivity.
Qed.

Lemma trackResult_summary (f : FuzzEngine R) v e :
  let f' := fst (trackResult f v e) in
  config f' = config f /\ rand f' = rand f /\ mutators f' = mutators f
  /\ results f' = results f
  /\ count_verdict (summary f) (Some v)
     = count_verdict (summary f') None.
Proof.
  unfold trackResult, count_verdict.
  destruct (FuzzResult.Failed v); run_st.
  - unfold recordFailure. destruct (creatable e _); cbn; auto.
  - cbn. auto.
Qed.

Lemma trackResult_clock (f : FuzzEngine R) v e :
  clock (snd (trackResult f v e)) = clock e.
Proof.
  unfold trackResult. destruct (FuzzResult.Failed v); run_st; [|reflexivity].
  unfold recordFailure. destruct (creatable e _); reflexivity.
Qed.

End Loop.

Section Rounds.
Context {R : Type} `{RandSource R}.

(** One round, when the engine has a mutator to pick: it does not panic,
    keeps the configuration and the number of mutators, and counts its
    verdict. *)
Lemma round_spec (t : CosmosModule.t) (f : FuzzEngine R) (e : Env) :
  0 < len (mutators f) ->
  exists r f' e',
    round t f e = Some (r, f', e')
    /\ config f' = config f
    /\ len (mutators f') = len (mutators f)
    /\ summary f' = count_verdict (summary f) (verdict r)
    /\ (forall v, verdict r = Some v -> one_flag v)
    /\ (succeeded r -> verdict r = None)
    /\ (output r, err r) = CosmosModule.ExecuteFuzz t (input r).
Proof.
  intros Hpos. unfold round.
  pose proof (Intn_range (len (mutators f)) (rand f) Hpos) as Hk.
  destruct (Intn (len (mutators f)) (rand f)) as [k r1]; cbn [fst] in Hk.
  destruct (lookup_lt_is_Some_2 (mutators f) (Z.to_nat k)) as [mu Hmu];
    [unfold len in Hk; lia|].
  rewrite Hmu.
  destruct (GenerateFuzzInput mu r1) as [[inp mu'] r2].
  destruct (CosmosModule.ExecuteFuzz t inp) as [out er] eqn:Hex.
  unfold with_clock.
  destruct (ValidateOutput mu' out er (clock e)) as [result c'] eqn:Hv.
  assert (Hflag : forall v, result = Some v -> one_flag v).
  { intros v ->. apply (Mutator_one_flag mu' out er (clock e)). now rewrite Hv. }
  assert (Hsucc : out = Some (bytes_of_string "success") -> er = None ->
                  result = None).
  { intros -> ->. pose proof (Mutator_success mu' (clock e)) as Hs.
    now rewrite Hv in Hs. }
  destruct result as [v|].
  - match goal with |- context [trackResult ?f0 v ?e0] =>
      pose proof (trackResult_summary f0 v e0) as Ht;
      destruct (trackResult f0 v e0) as [f1 e1]
    end.
    cbn [fst config rand mutators results summary] in Ht.
    destruct Ht as (Hc & _ & Hm & _ & Hs).
    do 3 eexists. split; [reflexivity|].
    cbn [config mutators summary verdict output err input].
    rewrite Hc, Hm, Hs. unfold len. rewrite length_insert.
    split_and!; auto; intros [? ?]; auto.
  - do 3 eexists. split; [reflexivity|].
    cbn [config mutators summary verdict output err input].
    unfold len. rewrite length_insert.
    split_and!; auto; intros [? ?]; auto.
Qed.

Lemma rounds_spec (n : nat) (t : CosmosModule.t) (f : FuzzEngine R) (e : Env) :
  0 < len (mutators f) ->
  exists rs f' e',
    rounds n t f e = Some (rs, f', e')
    /\ length rs = n
    /\ config f' = config f
    /\ summary f' = fold_left count_verdict (map verdict rs) (summary f)
    /\ Forall (fun r => (forall v, verdict r = Some v -> one_flag v)
                        /\ (succeeded r -> verdict r = None)) rs.
Proof.
  revert f e. induction n as [|n IH]; intros f e Hpos.
  - exists [], f, e. repeat split. constructor.
  - destruct (round_spec t f e Hpos)
      as (r & f1 & e1 & Hr & Hc & Hm & Hs & Hf & Hsu & _).
    destruct (IH f1 e1 ltac:(lia))
      as (rs & f2 & e2 & Hrs & Hl & Hc2 & Hs2 & Hall).
    exists (r :: rs), f2, e2. cbn [rounds]. rewrite Hr, Hrs.
    repeat split.
    + simpl. now rewrite Hl.
    + congruence.
    + cbn [map fold_left]. now rewrite <- Hs.
    + constructor; auto.
Qed.

End Rounds.

(** ** The summary *)

Definition summary_inv (s : FuzzSummary.t) : Prop :=
  0 <= FuzzSummary.StateInconsistencies s
  /\ 0 <= FuzzSummary.ConsensusFailures s
  /\ 0 <= FuzzSummary.Crashes s
  /\ FuzzSummary.Failed s
     = FuzzSummary.StateInconsistencies s + FuzzSummary.ConsensusFailures s
       + FuzzSummary.Crashes s
  /\ FuzzSummary.Failed s <= FuzzSummary.TotalTests s.

Lemma int_incr_small (x : Z) : 0 <= x < 2 ^ 63 - 1 -> int_incr x = x + 1.
Proof.
  intros Hx. unfold int_incr, int_wrap.
  rewrite Z.mod_small; lia.
Qed.

Lemma count_verdict_inv (s : FuzzSummary.t) (v : option FuzzResult.t) :
  summary_inv s ->
  FuzzSummary.TotalTests s < 2 ^ 63 - 1 ->
  (forall x, v = Some x -> one_flag x) ->
  summary_inv (count_verdict s v)
  /\ FuzzSummary.TotalTests (count_verdict s v) = FuzzSummary.TotalTests s + 1
  /\ (v = None -> FuzzSummary.Failed (count_verdict s v) = FuzzSummary.Failed s).
Proof.
  intros (Hsi & Hcf & Hcr & Hsum & Hle) Hlt Hflag.
  assert (Ht : int_incr (FuzzSummary.TotalTests s) = FuzzSummary.TotalTests s + 1)
    by (apply int_incr_small; lia).
  unfold summary_inv, count_verdict.
  destruct v as [x|]; [|cbn; rewrite Ht; split_and!; auto; lia].
  destruct (Hflag x eq_refl) as [Hf Hone]. rewrite Hf.
  assert (Hi : forall y, 0 <= y <= FuzzSummary.Failed s -> int_incr y = y + 1)
    by (intros y Hy; apply int_incr_small; lia).
  destruct Hone as [(-> & -> & ->) | [(-> & -> & ->) | (-> & -> & ->)]];
    cbn; rewrite Ht, !Hi by lia; split_and!; try lia; discriminate.
Qed.

Lemma fold_count_verdict (vs : list (option FuzzResult.t)) (s : FuzzSummary.t) :
  summary_inv s ->
  0 <= FuzzSummary.TotalTests s ->
  FuzzSummary.TotalTests s + len vs < 2 ^ 63 ->
  Forall (fun v => forall x, v = Some x -> one_flag x) vs ->
  let s' := fold_left count_verdict vs s in
  summary_inv s'
  /\ FuzzSummary.TotalTests s' = FuzzSummary.TotalTests s + len vs
  /\ (Forall (fun v => v = None) vs -> FuzzSummary.Failed s' = FuzzSummary.Failed s).
Proof.
  revert s. induction vs as [|v vs IH]; intros s Hinv H0 Hlt Hall.
  - cbn. unfold len; simpl. split_and!; auto. lia.
  - apply Forall_cons in Hall as [Hv Hall].
    unfold len in Hlt; simpl length in Hlt.
    destruct (count_verdict_inv s v Hinv ltac:(lia) Hv) as (Hinv1 & Ht1 & Hf1).
    cbn [fold_left].
    destruct (IH (count_verdict s v) Hinv1 ltac:(lia)
                ltac:(unfold len; lia) Hall) as (Hinv2 & Ht2 & Hf2).
    split_and!; auto.
    + rewrite Ht2, Ht1. unfold len; simpl length. lia.
    + intros Hnone. apply Forall_cons in Hnone as [Hn Hnone].
      rewrite Hf2, Hf1; auto.
Qed.

Section RunFacts.
Context {R : Type} `{RandSource R}.

Lemma NewFuzzerEngine_spec (cfg : Config.t) (c : Clock) :
  let f := fst (NewFuzzerEngine (R := R) cfg c) in
  config f = cfg
  /\ 0 < len (mutators f)
  /\ summary f = FuzzSummary.Make 0 0 0 0 0
  /\ (Config.Seed cfg <> 0 -> f = fst (NewFuzzerEngine (R := R) cfg a_clock)).
Proof.
  unfold NewFuzzerEngine, bind, ret, registerDefaultMutators.
  destruct (Z.eqb_spec (Config.Seed cfg) 0) as [Hz | Hnz].
  - cbn. split_and!; auto; [|tauto]. destruct (Config.SpecialCases cfg); reflexivity.
  - cbn. split_and!; auto. destruct (Config.SpecialCases cfg); reflexivity.
Qed.

(** A run of a fresh engine whose target loads returns, after
    [max 0 FuzzCount] rounds. *)
Lemma Run_returns (cfg : Config.t) (c : Clock) (e : Env) (t : CosmosModule.t) :
  LoadCosmosModule e (Config.TargetPath cfg) (Config.ModuleName cfg) = inl t ->
  exists s rs f' e',
    Run (fst (NewFuzzerEngine (R := R) cfg c)) e = Returned s rs f' e'
    /\ len rs = Z.max 0 (Config.FuzzCount cfg)
    /\ s = fold_left count_verdict (map verdict rs) (FuzzSummary.Make 0 0 0 0 0)
    /\ Forall (fun r => (forall v, verdict r = Some v -> one_flag v)
                        /\ (succeeded r -> verdict r = None)) rs.
Proof.
  intros Hload.
  destruct (NewFuzzerEngine_spec cfg c) as (Hc & Hpos & Hs & _).
  set (f := fst (NewFuzzerEngine cfg c)) in *.
  unfold Run. rewrite Hc, Hload.
  destruct (rounds_spec (Z.to_nat (Config.FuzzCount cfg)) t f e Hpos)
    as (rs & f' & e' & Hrs & Hl & _ & Hsum & Hall).
  rewrite Hrs. exists (summary f'), rs, f', e'.
  split_and!; auto.
  - unfold len. rewrite Hl. lia.
  - now rewrite Hsum, Hs.
Qed.

End RunFacts.

(** ** C7 and C9: the summary of a run *)

Definition a_config (count : Z) : Config.t :=
  Config.Make "x/bank" "bank" count 42 "./fuzz_results" false [] true.

Definition a_module : CosmosModule.t :=
  CosmosModule.Make "x/bank" "bank" ["MsgSend"; "MsgMultiSend"; "MsgBurn"]
    ["Balance"].

Definition an_env : Env :=
  MkEnv a_clock ∅ (fun _ => true) (fun _ _ => inl a_module).

(** The summary that a run returns, if it returns. *)
Definition returned_summary {E : Type} (r : RunResult E) : option FuzzSummary.t :=
  match r with
  | Returned s _ _ _ => Some s
  | _ => None
  end.

(** C7, as stated, fails for a negative [FuzzCount] (the flag [-count]
    accepts one): the loop body never runs and [TotalTests] is 0. *)
Lemma Run_negative_count :
  exists s,
    returned_summary
      (Run (fst (NewFuzzerEngine (R := Tape.t) (a_config (-1)) a_clock)) an_env)
    = Some s
    /\ FuzzSummary.TotalTests s <> Config.FuzzCount (a_config (-1)).
Proof.
  exists (FuzzSummary.Make 0 0 0 0 0). split; [vm_compute; reflexivity | discriminate].
Qed.

(** C7 (amended): when the target loads, [Run] on a fresh engine performs
    [max 0 FuzzCount] rounds, that is [FuzzCount] rounds when it is not
    negative and none otherwise, and returns a summary whose [TotalTests]
    is that number whatever the rounds' outcomes; if the adapter answered
    [success] with a nil error in every round, [Failed] is 0. *)
Theorem Run_total_tests {R : Type} `{RandSource R}
    (cfg : Config.t) (c : Clock) (e : Env) (t : CosmosModule.t) :
  is_int (Config.FuzzCount cfg) ->
  LoadCosmosModule e (Config.TargetPath cfg) (Config.ModuleName cfg) = inl t ->
  exists s rs f' e',
    Run (fst (NewFuzzerEngine (R := R) cfg c)) e = Returned s rs f' e'
    /\ len rs = Z.max 0 (Config.FuzzCount cfg)
    /\ FuzzSummary.TotalTests s = Z.max 0 (Config.FuzzCount cfg)
    /\ (Forall succeeded rs -> FuzzSummary.Failed s = 0).
Proof.
  intros Hint Hload.
  destruct (Run_returns cfg c e t Hload) as (s & rs & f' & e' & Hrun & Hl & Hs & Hall).
  exists s, rs, f', e'. split; [exact Hrun|]. split; [exact Hl|].
  assert (Hinv0 : summary_inv (FuzzSummary.Make 0 0 0 0 0))
    by (unfold summary_inv; cbn; lia).
  assert (Hlen : len (map verdict rs) = len rs) by (unfold len; now rewrite length_map).
  destruct (fold_count_verdict (map verdict rs) (FuzzSummary.Make 0 0 0 0 0) Hinv0)
    as (_ & Ht & Hf).
  - cbn; lia.
  - cbn. rewrite Hlen, Hl. unfold is_int in Hint. lia.
  - apply Forall_map. eapply Forall_impl; [exact Hall|]. intros r [Hr _]. exact Hr.
  - rewrite <- Hs in Ht, Hf. cbn in Ht, Hf. split; [lia|].
    intros Hsucc. apply Hf, Forall_map.
    apply Forall_forall. intros r Hr. simpl.
    rewrite Forall_forall in Hall, Hsucc. apply (Hall r Hr), Hsucc, Hr.
Qed.

Lemma Run_total_tests_witness :
  is_int 12 /\
  exists s rs f' e',
    Run (fst (NewFuzzerEngine (R := Tape.t) (a_config 12) a_clock)) an_env
    = Returned s rs f' e'
    /\ len rs = Z.max 0 12
    /\ FuzzSummary.TotalTests s = Z.max 0 12
    /\ (Forall succeeded rs -> FuzzSummary.Failed s = 0).
Proof.
  assert (Hint : is_int 12) by (unfold is_int; lia).
  split; [exact Hint|].
  exact (Run_total_tests (R := Tape.t) (a_config 12) a_clock an_env a_module
           Hint eq_refl).
Defined.

(** C9: a verdict returned by any of the four validators has [Failed] set
    and exactly one of [StateInconsistency], [ConsensusFailure] and
    [Crashed]; hence the summary that [Run] returns on a fresh engine
    satisfies Failed = StateInconsistencies + ConsensusFailures + Crashes. *)
Theorem Failed_is_sum_of_flags {R : Type} `{RandSource R} :
  (forall output err c v,
     (forall m, fst (RandomTxMutator.ValidateOutput m output err c) = Some v ->
                one_flag v)
     /\ (forall m, fst (BoundaryValueMutator.ValidateOutput m output err c) = Some v ->
                   one_flag v)
     /\ (forall m, fst (StatefulMutator.ValidateOutput m output err c) = Some v ->
                   one_flag v)
     /\ (forall m, fst (SpecialCasesMutator.ValidateOutput m output err c) = Some v ->
                   one_flag v))
  /\ (forall (cfg : Config.t) (c : Clock) (e : Env) s rs f' e',
        is_int (Config.FuzzCount cfg) ->
        Run (fst (NewFuzzerEngine (R := R) cfg c)) e = Returned s rs f' e' ->
        FuzzSummary.Failed s
        = FuzzSummary.StateInconsistencies s + FuzzSummary.ConsensusFailures s
          + FuzzSummary.Crashes s).
Proof.
  split.
  - intros output err c v. split_and!; intros m.
    + apply RandomTx_one_flag.
    + apply BoundaryValue_one_flag.
    + apply Stateful_one_flag.
    + apply SpecialCases_one_flag.
  - intros cfg c e s rs f' e' Hint Hrun.
    destruct (LoadCosmosModule e (Config.TargetPath cfg) (Config.ModuleName cfg))
      as [t | msg] eqn:Hload.
    2:{ unfold Run in Hrun.
        rewrite (proj1 (NewFuzzerEngine_spec cfg c)), Hload in Hrun. discriminate. }
    destruct (Run_returns cfg c e t Hload)
      as (s1 & rs1 & f1 & e1 & Hrun1 & Hl & Hs & Hall).
    rewrite Hrun in Hrun1. injection Hrun1 as <- <- <- <-.
    assert (Hinv0 : summary_inv (FuzzSummary.Make 0 0 0 0 0))
      by (unfold summary_inv; cbn; lia).
    destruct (fold_count_verdict (map verdict rs) (FuzzSummary.Make 0 0 0 0 0) Hinv0)
      as (Hinv & _ & _).
    + cbn; lia.
    + cbn. unfold len in *. rewrite length_map, Hl. unfold is_int in Hint. lia.
    + apply Forall_map. eapply Forall_impl; [exact Hall|]. intros r [Hr _]. exact Hr.
    + rewrite <- Hs in Hinv. now destruct Hinv as (_ & _ & _ & Hsum & _).
Qed.

Lemma Failed_is_sum_of_flags_witness :
  is_int 12 /\
  exists s rs f' e',
    Run (fst (NewFuzzerEngine (R := Tape.t) (a_config 12) a_clock)) an_env
    = Returned s rs f' e'
    /\ FuzzSummary.Failed s
       = FuzzSummary.StateInconsistencies s + FuzzSummary.ConsensusFailures s
         + FuzzSummary.Crashes s.
Proof.
  assert (Hint : is_int 12) by (unfold is_int; lia).
  split; [exact Hint|].
  destruct (Run_returns (R := Tape.t) (a_config 12) a_clock an_env a_module eq_refl)
    as (s & rs & f' & e' & Hrun & _).
  exists s, rs, f', e'. split; [exact Hrun|].
  exact (proj2 (Failed_is_sum_of_flags (R := Tape.t)) (a_config 12) a_clock an_env
           s rs f' e' Hint Hrun).
Defined.

(** That run: twelve rounds, six crash verdicts. *)
Example a_run_summary :
  returned_summary
    (Run (fst (NewFuzzerEngine (R := Tape.t) (a_config 12) a_clock)) an_env)
  = Some (FuzzSummary.Make 12 6 0 0 6).
Proof. vm_compute. reflexivity. Qed.

(** ** C3: runs with the same seed *)

(** The sequence of (strategy choice, generated input) pairs of a run. *)
Definition observed {E : Type} (r : RunResult E) : option (list (Z * list byte)) :=
  match r with
  | Returned _ rs _ _ => Some (map (fun r => (choice r, input r)) rs)
  | _ => None
  end.

Section Determinism.
Context {R : Type} `{RandSource R}.

Lemma trackResult_flags (f : FuzzEngine R) v1 v2 e1 e2 :
  flags v1 = flags v2 -> fst (trackResult f v1 e1) = fst (trackResult f v2 e2).
Proof.
  unfold flags, trackResult. intros [= -> -> -> ->].
  destruct (FuzzResult.Failed v2); run_st; [|reflexivity].
  unfold recordFailure. destruct (creatable e1 _), (creatable e2 _); reflexivity.
Qed.

(** A round draws, generates and counts the same way in any environment:
    the clock only enters the [ID] of the verdict, the file system only
    receives the report. *)
Lemma round_env (t : CosmosModule.t) (f : FuzzEngine R) (e1 e2 : Env) :
  match round t f e1, round t f e2 with
  | Some (r1, f1, _), Some (r2, f2, _) =>
      choice r1 = choice r2 /\ input r1 = input r2 /\ f1 = f2
  | None, None => True
  | _, _ => False
  end.
Proof.
  unfold round.
  destruct (Intn (len (mutators f)) (rand f)) as [k r1].
  destruct (mutators f !! Z.to_nat k) as [mu|]; [|exact I].
  destruct (GenerateFuzzInput mu r1) as [[inp mu'] r2].
  destruct (CosmosModule.ExecuteFuzz t inp) as [out er].
  unfold with_clock.
  pose proof (Mutator_flags_clock mu' out er (clock e1) (clock e2)) as Hfl.
  destruct (ValidateOutput mu' out er (clock e1)) as [res1 c1'].
  destruct (ValidateOutput mu' out er (clock e2)) as [res2 c2'].
  cbn [fst] in Hfl.
  destruct res1 as [v1|], res2 as [v2|]; try discriminate Hfl.
  - cbn [option_map] in Hfl.
    assert (Hf : flags v1 = flags v2) by congruence.
    match goal with |- context [trackResult ?f0 v1 ?ea] =>
      match goal with |- context [trackResult f0 v2 ?eb] =>
        pose proof (trackResult_flags f0 v1 v2 ea eb Hf) as Ht;
        destruct (trackResult f0 v1 ea) as [fa ea'];
        destruct (trackResult f0 v2 eb) as [fb eb']
      end
    end.
    cbn [fst] in Ht. subst fb. cbn [choice input]. auto.
  - cbn [choice input]. auto.
Qed.

Lemma rounds_env (n : nat) (t : CosmosModule.t) (f : FuzzEngine R) (e1 e2 : Env) :
  match rounds n t f e1, rounds n t f e2 with
  | Some (rs1, f1, _), Some (rs2, f2, _) =>
      map (fun r => (choice r, input r)) rs1 = map (fun r => (choice r, input r)) rs2
      /\ f1 = f2
  | None, None => True
  | _, _ => False
  end.
Proof.
  revert f e1 e2. induction n as [|n IH]; intros f e1 e2; cbn [rounds].
  - auto.
  - pose proof (round_env t f e1 e2) as Hr.
    destruct (round t f e1) as [[[r1 f1] e1']|], (round t f e2) as [[[r2 f2] e2']|];
      try contradiction; [|exact I].
    destruct Hr as (Hc & Hi & <-).
    specialize (IH f1 e1' e2').
    destruct (rounds n t f1 e1') as [[[rs1 g1] d1]|],
             (rounds n t f1 e2') as [[[rs2 g2] d2]|]; try contradiction; [|exact I].
    destruct IH as (Hm & <-). cbn [map]. rewrite Hc, Hi, Hm. auto.
Qed.

Lemma Run_env (f : FuzzEngine R) (e1 e2 : Env) :
  LoadCosmosModule e1 (Config.TargetPath (config f)) (Config.ModuleName (config f))
  = LoadCosmosModule e2 (Config.TargetPath (config f)) (Config.ModuleName (config f)) ->
  observed (Run f e1) = observed (Run f e2).
Proof.
  intros Hload. unfold Run. rewrite Hload.
  destruct (LoadCosmosModule e2 _ _) as [t | msg]; [|reflexivity].
  pose proof (rounds_env (Z.to_nat (Config.FuzzCount (config f))) t f e1 e2) as Hr.
  destruct (rounds _ t f e1) as [[[rs1 g1] d1]|],
           (rounds _ t f e2) as [[[rs2 g2] d2]|]; try contradiction; [|reflexivity].
  destruct Hr as (Hm & _). cbn [observed]. now rewrite Hm.
Qed.

End Determinism.

Definition another_clock : Clock := MkClock (fun i => 7 * Z.of_nat i + 3) 5.

(** An environment that differs from [an_env] in its clock and in that no
    report can be written; the target is the same. *)
Definition another_env : Env :=
  MkEnv another_clock ∅ (fun _ => false) (fun _ _ => inl a_module).

(** C3: with a non-zero seed in the configuration, two constructions of
    the engine and their runs, with the same configuration and the same
    target, produce the same sequence of (strategy choice, generated input)
    pairs, whatever the clocks and the report directories are; when the
    target loads the sequence has [max 0 FuzzCount] pairs. *)
Theorem same_seed_same_rounds {R : Type} `{RandSource R}
    (cfg : Config.t) (c1 c2 : Clock) (e1 e2 : Env) :
  Config.Seed cfg <> 0 ->
  LoadCosmosModule e1 (Config.TargetPath cfg) (Config.ModuleName cfg)
  = LoadCosmosModule e2 (Config.TargetPath cfg) (Config.ModuleName cfg) ->
  observed (Run (fst (NewFuzzerEngine (R := R) cfg c1)) e1)
  = observed (Run (fst (NewFuzzerEngine (R := R) cfg c2)) e2)
  /\ (forall t,
        LoadCosmosModule e1 (Config.TargetPath cfg) (Config.ModuleName cfg) = inl t ->
        exists pairs,
          observed (Run (fst (NewFuzzerEngine (R := R) cfg c1)) e1) = Some pairs
          /\ len pairs = Z.max 0 (Config.FuzzCount cfg)).
Proof.
  intros Hseed Hload. split.
  - destruct (NewFuzzerEngine_spec cfg c1) as (Hc1 & _ & _ & Hf1).
    destruct (NewFuzzerEngine_spec cfg c2) as (_ & _ & _ & Hf2).
    rewrite (Hf1 Hseed), (Hf2 Hseed). apply Run_env.
    rewrite <- (Hf1 Hseed), Hc1. exact Hload.
  - intros t Ht.
    destruct (Run_returns cfg c1 e1 t Ht) as (s & rs & f' & e' & Hrun & Hl & _).
    rewrite Hrun. eexists. split; [reflexivity|].
    unfold len in *. now rewrite length_map.
Qed.

Lemma same_seed_same_rounds_witness :
  Config.Seed (a_config 12) <> 0
  /\ observed (Run (fst (NewFuzzerEngine (R := Tape.t) (a_config 12) a_clock)) an_env)
     = observed (Run (fst (NewFuzzerEngine (R := Tape.t) (a_config 12) another_clock))
                   another_env).
Proof.
  assert (Hseed : Config.Seed (a_config 12) <> 0) by discriminate.
  split; [exact Hseed|].
  exact (proj1 (same_seed_same_rounds (R := Tape.t) (a_config 12) a_clock
                  another_clock an_env another_env Hseed eq_refl)).
Defined.

(** With the seed 0 the generator is seeded from the clock: the choices of
    two runs started at different times differ. *)
Example zero_seed_follows_the_clock :
  let cfg := Config.Make "x/bank" "bank" 3 0 "./fuzz_results" false [] true in
  option_map (map fst)
    (observed (Run (fst (NewFuzzerEngine (R := Tape.t) cfg a_clock)) an_env))
  <> option_map (map fst)
       (observed (Run (fst (NewFuzzerEngine (R := Tape.t) cfg another_clock)) an_env)).
Proof. vm_compute. discriminate. Qed.

(** ** C8: the verdict of the stateful mutator and its history slice *)

#[export] Instance Doubling : GrowSlice := {|
  growcap := doubling_growcap;
  growcap_fits := fun oldcap needed => Nat.le_max_l needed (2 * oldcap);
|}.

Section MemFacts.
Local Open Scope nat_scope.
Import Mem.

(** The slice has no array (as the nil slice), or lies within its array. *)
Definition in_bounds (v : Slice) (h : Heap) : Prop :=
  (scap v = 0 /\ slen v = 0)
  \/ (arr v < length h /\ off v + slen v <= length (nth (arr v) h [])).

Lemma load_empty v h : slen v = 0 -> load v h = [].
Proof. intros Hs. unfold load. now rewrite Hs. Qed.

Lemma load_length v h : in_bounds v h -> length (load v h) = slen v.
Proof.
  intros [[_ Hs] | [_ Hb]].
  - now rewrite load_empty, Hs.
  - unfold load. rewrite length_take, length_drop. lia.
Qed.

(** Appending to [s] in place does not reach the elements of [v]. *)
Definition beyond (v s : Slice) : Prop :=
  slen v = 0 \/ arr s <> arr v \/ off v + slen v <= off s + slen s.

Lemma patch_length o bs block :
  length block <= length (patch o bs block)
  /\ (o <= length block -> o + length bs <= length (patch o bs block)).
Proof.
  unfold patch. rewrite !length_app, length_take, length_drop. lia.
Qed.

Lemma patch_keeps o bs block o' l :
  o' + l <= o -> o' + l <= length block ->
  take l (drop o' (patch o bs block)) = take l (drop o' block).
Proof.
  intros Ho Hl. apply list_eq. intros i.
  destruct (Nat.lt_ge_cases i l) as [Hi | Hi].
  - rewrite !lookup_take_lt, !lookup_drop by exact Hi.
    unfold patch. rewrite lookup_app_l by (rewrite length_take; lia).
    apply lookup_take_lt. lia.
  - now rewrite !lookup_take_ge by exact Hi.
Qed.

Lemma patch_stored o bs block o' :
  o' <= o -> o <= length block ->
  take (o - o' + length bs) (drop o' (patch o bs block))
  = take (o - o') (drop o' block) ++ bs.
Proof.
  intros Ho Hl. unfold patch.
  rewrite <- (take_drop o' (take o block)) at 1.
  rewrite <- app_assoc, drop_app_length'
    by (rewrite length_take, length_take; lia).
  rewrite app_assoc, take_app_length'
    by (rewrite length_app, length_drop, length_take; lia).
  f_equal. rewrite take_drop_commute. f_equal. f_equal. lia.
Qed.

Lemma write_length a o bs h : length (snd (write a o bs h)) = length h.
Proof.
  unfold write. destruct (h !! a); cbn [snd]; [apply length_insert | reflexivity].
Qed.

Lemma write_other a o bs h a' :
  a' <> a -> nth a' (snd (write a o bs h)) [] = nth a' h [].
Proof.
  intros Hne. unfold write. destruct (h !! a); cbn [snd]; [|reflexivity].
  now rewrite !nth_lookup, list_lookup_insert_ne by auto.
Qed.

Lemma write_same a o bs h :
  a < length h ->
  nth a (snd (write a o bs h)) [] = patch o bs (nth a h []).
Proof.
  intros Ha. unfold write.
  destruct (lookup_lt_is_Some_2 h a Ha) as [block Hb]. rewrite Hb. cbn [snd].
  rewrite !nth_lookup, list_lookup_insert_eq, Hb by exact Ha. reflexivity.
Qed.

(** A write into another array, or past the end of [v], keeps [v]. *)
Lemma write_keeps v a o bs h :
  in_bounds v h -> slen v = 0 \/ arr v <> a \/ off v + slen v <= o ->
  in_bounds v (snd (write a o bs h))
  /\ load v (snd (write a o bs h)) = load v h.
Proof.
  intros [[Hc Hs] | [Hv Hb]] Hfar.
  { split; [left; auto | now rewrite !load_empty]. }
  unfold in_bounds. rewrite write_length.
  destruct (Nat.eq_dec (arr v) a) as [<- | Hne].
  - rewrite write_same by exact Hv.
    pose proof (patch_length o bs (nth (arr v) h [])) as [Hl _].
    split; [right; lia|].
    destruct Hfar as [Hs | [? | Hfar]]; [now rewrite !load_empty | congruence |].
    unfold load. rewrite write_same by exact Hv. apply patch_keeps; lia.
  - unfold load. rewrite write_other by exact Hne. auto.
Qed.

Lemma alloc_keeps v block h :
  in_bounds v h ->
  in_bounds v (h ++ [block]) /\ load v (h ++ [block]) = load v h.
Proof.
  intros [[Hc Hs] | [Hv Hb]].
  { split; [left; auto | now rewrite !load_empty]. }
  unfold in_bounds, load.
  rewrite length_app, app_nth1 by exact Hv. split; [right; lia | reflexivity].
Qed.

(** The arrays of [h0] are arrays of [h], unchanged. *)
Definition extends (h0 h : Heap) : Prop :=
  length h0 <= length h /\ forall a, a < length h0 -> nth a h [] = nth a h0 [].

Lemma extends_refl h : extends h h.
Proof. split; auto. Qed.

Lemma extends_trans h0 h1 h2 : extends h0 h1 -> extends h1 h2 -> extends h0 h2.
Proof.
  intros [Hl1 H1] [Hl2 H2]. split; [lia|].
  intros a Ha. rewrite H2, H1 by lia. reflexivity.
Qed.

Lemma extends_alloc h0 h block : extends h0 h -> extends h0 (h ++ [block]).
Proof.
  intros [Hl Hn]. split; [rewrite length_app; lia|].
  intros a Ha. rewrite app_nth1 by lia. auto.
Qed.

Lemma extends_write h0 h a o bs :
  length h0 <= a -> extends h0 h -> extends h0 (snd (write a o bs h)).
Proof.
  intros Ha [Hl Hn]. split; [rewrite write_length; lia|].
  intros a' Ha'. rewrite write_other by lia. auto.
Qed.

Lemma extends_keeps h0 h v :
  extends h0 h -> in_bounds v h0 ->
  in_bounds v h /\ load v h = load v h0.
Proof.
  intros [Hl Hn] [[Hc Hs] | [Hv Hb]].
  { split; [left; auto | now rewrite !load_empty]. }
  unfold in_bounds, load. rewrite Hn by exact Hv.
  split; [right; lia | reflexivity].
Qed.

Lemma write_eta a o bs h : write a o bs h = (tt, snd (write a o bs h)).
Proof. unfold write. destruct (h !! a); reflexivity. Qed.

Section Append.
Context `{GrowSlice}.

(** The two branches of [append]. *)
Lemma append_cases s bs h :
  (slen s + length bs <= scap s
   /\ append s bs h
      = (MkSlice (arr s) (off s) (slen s + length bs) (scap s),
         snd (write (arr s) (off s + slen s) bs h)))
  \/ (scap s < slen s + length bs
      /\ append s bs h
         = (MkSlice (length h) 0 (slen s + length bs)
              (growcap (scap s) (slen s + length bs)),
            snd (write (length h) 0 (load s h ++ bs)
                   (h ++ [repeat 0%Z (growcap (scap s) (slen s + length bs))])))).
Proof.
  unfold append.
  destruct (Nat.leb_spec (slen s + length bs) (scap s)) as [Hle | Hgt].
  - left. split; [exact Hle|]. unfold bind, ret.
    now rewrite (write_eta (arr s) (off s + slen s) bs h).
  - right. split; [exact Hgt|]. unfold alloc.
    now rewrite (write_eta (length h) 0 (load s h ++ bs) _).
Qed.

Lemma append_slen s bs h : slen (fst (append s bs h)) = slen s + length bs.
Proof. destruct (append_cases s bs h) as [[_ ->] | [_ ->]]; reflexivity. Qed.

(** Appending to a slice of an array outside [h0], or to a full slice,
    leaves the arrays of [h0] alone and returns a slice outside [h0]. *)
Lemma append_extends h0 s bs h :
  extends h0 h ->
  length h0 <= arr s \/ scap s < slen s + length bs ->
  extends h0 (snd (append s bs h)) /\ length h0 <= arr (fst (append s bs h)).
Proof.
  intros Hext Hs. pose proof Hext as [Hl _].
  destruct (append_cases s bs h) as [[Hle ->] | [Hgt ->]]; cbn [fst snd arr].
  - destruct Hs as [Hs | Hs]; [|lia]. split; [|exact Hs].
    now apply extends_write.
  - split; [|exact Hl]. apply extends_write; [lia|]. now apply extends_alloc.
Qed.

(** Appending to a slice that is beyond [v], or that is full, keeps [v]. *)
Lemma append_keeps v s bs h :
  in_bounds v h -> beyond v s \/ scap s < slen s + length bs ->
  in_bounds v (snd (append s bs h))
  /\ load v (snd (append s bs h)) = load v h
  /\ beyond v (fst (append s bs h)).
Proof.
  intros Hv Hfar.
  destruct (append_cases s bs h) as [[Hle ->] | [Hgt ->]]; cbn [fst snd].
  - destruct Hfar as [Hfar | Hfull]; [|lia].
    destruct (write_keeps v (arr s) (off s + slen s) bs h Hv) as [Hb Hload].
    { destruct Hfar as [Hz | [Hne | Hfar]]; auto. }
    split_and!; auto.
    destruct Hfar as [Hz | [Hne | Hfar]];
      [left; exact Hz | right; left; exact Hne | right; right; cbn; lia].
  - destruct (alloc_keeps v (repeat 0%Z (growcap (scap s) (slen s + length bs))) h Hv)
      as [Hv1 Hl1].
    destruct Hv as [[Hc Hs] | [Hv _]].
    { split_and!; [left; auto | now rewrite !load_empty | left; exact Hs]. }
    destruct (write_keeps v (length h) 0 (load s h ++ bs) _ Hv1) as [Hb Hload];
      [right; left; lia|].
    split_and!; auto; [congruence | right; left; cbn; lia].
Qed.

Lemma append_in_bounds s bs h :
  in_bounds s h -> in_bounds (fst (append s bs h)) (snd (append s bs h)).
Proof.
  intros Hin. unfold in_bounds.
  destruct (append_cases s bs h) as [[Hle ->] | [Hgt ->]];
    cbn [fst snd arr off slen scap]; rewrite write_length.
  - destruct Hin as [[Hc Hs] | [Hs Hb]]; [left; lia|]. right.
    split; [exact Hs|]. rewrite write_same by exact Hs.
    pose proof (patch_length (off s + slen s) bs (nth (arr s) h [])) as [_ Hp].
    specialize (Hp Hb). lia.
  - right. rewrite length_app. cbn [length]. split; [lia|].
    rewrite write_same by (rewrite length_app; cbn; lia).
    rewrite app_nth2, Nat.sub_diag by lia. cbn [nth].
    pose proof (patch_length 0 (load s h ++ bs)
                  (repeat 0%Z (growcap (scap s) (slen s + length bs)))) as [Hp _].
    rewrite repeat_length in Hp.
    pose proof (growcap_fits (scap s) (slen s + length bs)). lia.
Qed.

(** The elements after an [append] are the old ones followed by the new. *)
Lemma append_load s bs h :
  in_bounds s h ->
  load (fst (append s bs h)) (snd (append s bs h)) = load s h ++ bs.
Proof.
  intros Hin. pose proof (load_length s h Hin) as Hold.
  destruct (append_cases s bs h) as [[Hle ->] | [Hgt ->]]; cbn [fst snd].
  - destruct Hin as [[Hc Hs] | [Hs Hb]].
    { assert (Hbs : bs = []) by (destruct bs; [reflexivity | cbn in Hle; lia]).
      subst bs. rewrite (load_empty s h Hs). apply load_empty. cbn. lia. }
    unfold load at 1. cbn [arr off slen]. rewrite write_same by exact Hs.
    replace (slen s + length bs) with (off s + slen s - off s + length bs) by lia.
    rewrite patch_stored by lia. unfold load. do 2 f_equal. lia.
  - unfold load at 1. cbn [arr off slen].
    rewrite write_same by (rewrite length_app; cbn; lia).
    rewrite app_nth2, Nat.sub_diag by lia. cbn [nth].
    replace (slen s + length bs) with (0 - 0 + length (load s h ++ bs))
      by (rewrite length_app; lia).
    rewrite patch_stored by lia. reflexivity.
Qed.

End Append.

(** [make] followed by a [Read] that fills the new slice. *)
Lemma fill_fresh (h : Heap) (n : nat) (bs : list byte) :
  length bs = n ->
  let s := MkSlice (length h) 0 n n in
  let h' := snd (write (length h) 0 bs (h ++ [repeat 0%Z n])) in
  extends h h' /\ in_bounds s h' /\ load s h' = bs.
Proof.
  intros Hn s h'. subst s h'.
  assert (Hnth : nth (length h)
                   (snd (write (length h) 0 bs (h ++ [repeat 0%Z n]))) []
                 = patch 0 bs (repeat 0%Z n)).
  { rewrite write_same by (rewrite length_app; cbn; lia).
    now rewrite app_nth2, Nat.sub_diag by lia. }
  split_and!.
  - apply extends_write; [lia|]. apply extends_alloc, extends_refl.
  - right. cbn [arr off slen]. rewrite write_length, length_app, Hnth. cbn [length].
    pose proof (patch_length 0 bs (repeat 0%Z n)) as [Hp _].
    rewrite repeat_length in Hp. lia.
  - unfold load. cbn [arr off slen]. rewrite Hnth.
    replace n with (0 - 0 + length bs) at 1 by lia.
    rewrite patch_stored by lia. reflexivity.
Qed.

Section AppendLocal.
Context `{GrowSlice}.

(** An [append] to a slice that lives outside [h0]. *)
Lemma append_local (h0 h : Heap) (s : Slice) (bs : list byte) :
  extends h0 h -> in_bounds s h ->
  length h0 <= arr s \/ scap s < slen s + length bs ->
  extends h0 (snd (append s bs h))
  /\ length h0 <= arr (fst (append s bs h))
  /\ in_bounds (fst (append s bs h)) (snd (append s bs h))
  /\ load (fst (append s bs h)) (snd (append s bs h)) = load s h ++ bs.
Proof.
  intros Hext Hin Hfresh.
  destruct (append_extends h0 s bs h Hext Hfresh) as [He Hf].
  split_and!; auto using append_in_bounds, append_load.
Qed.

End AppendLocal.

End MemFacts.

(** The contents-level mutator that a mutator in memory stands for. *)
Definition pure_of (h : Mem.Heap) (m : Mem.StatefulMutator.t) : StatefulMutator.t :=
  StatefulMutator.Make (Mem.StatefulMutator.base m)
    (Mem.load (Mem.StatefulMutator.currentState m) h).

(** Successive calls of [GenerateFuzzInput] in memory.  Before each call the
    rest of the program allocates arrays of its own ([fst step]) and draws
    from the generator, which the call finds in the state [snd step]. *)
Definition Mem_calls {R : Type} `{RandSource R} `{GrowSlice}
    (steps : list (list (list byte) * R))
    (st : Mem.StatefulMutator.t * Mem.Heap) : Mem.StatefulMutator.t * Mem.Heap :=
  fold_left
    (fun '(m, h) '(foreign, r) =>
       let '((_, m'), (h', _)) :=
         Mem.StatefulMutator.GenerateFuzzInput m (h ++ foreign, r) in
       (m', h'))
    steps st.

(** No array is freed. *)
Definition extends_len (h h' : Mem.Heap) : Prop := (length h <= length h')%nat.

Section StatefulMem.
Local Open Scope nat_scope.
Context {R : Type} `{RandSource R} `{GrowSlice}.

Lemma GenerateFuzzInput_locals (m : Mem.StatefulMutator.t) (h : Mem.Heap) (r : R) :
  in_bounds (Mem.StatefulMutator.currentState m) h ->
  let '((pinput, pm'), r') := StatefulMutator.GenerateFuzzInput (pure_of h m) r in
  exists h1 input,
    extends h h1 /\ length h <= Mem.arr input /\ in_bounds input h1
    /\ Mem.load input h1 = pinput
    /\ Mem.StatefulMutator.GenerateFuzzInput m (h, r)
       = (let cs := fst (Mem.append (Mem.StatefulMutator.currentState m)
                           [nth 0 pinput 0%Z] h1) in
          (input,
           Mem.StatefulMutator.Make (Mem.StatefulMutator.base m)
             (if 64 <? Mem.slen cs
              then Mem.reslice_from cs (Mem.slen cs - 64) else cs)),
          (snd (Mem.append (Mem.StatefulMutator.currentState m)
                  [nth 0 pinput 0%Z] h1),
           r')).
Proof.
  intros Hcs. set (cs := Mem.StatefulMutator.currentState m) in *.
  pose proof (load_length cs h Hcs) as Hlen.
  unfold Mem.StatefulMutator.GenerateFuzzInput, StatefulMutator.GenerateFuzzInput.
  cbv beta iota delta [St bind ret Mem.liftR Mem.liftH Mem.rand_Read Mem.make
                         Mem.alloc Mem.append_slice Mem.index].
  cbn [pure_of StatefulMutator.currentState StatefulMutator.base].
  fold cs.
  destruct (Intn 4 r) as [op r1].
  (* input = append(input, opType) *)
  destruct (append_local h h Mem.nil_slice [byte_of_int op] (extends_refl h))
    as (E1 & F1 & B1 & L1); [left; auto | right; cbn; lia |].
  destruct (Mem.append Mem.nil_slice [byte_of_int op] h) as [in1 h1].
  cbn [fst snd] in E1, F1, B1, L1. cbn [Mem.slen Mem.arr Mem.off].
  (* header *)
  pose proof (Read_length 4 r1) as Hhb.
  destruct (Read 4 r1) as [hb r2]. cbn [fst] in Hhb.
  destruct (fill_fresh h1 4 hb Hhb) as (E2 & B2 & L2).
  rewrite (write_eta (length h1) 0 hb).
  set (header := Mem.MkSlice (length h1) 0 4 4) in *.
  set (h3 := snd (Mem.write (length h1) 0 hb (h1 ++ [repeat 0%Z 4]))) in *.
  rewrite L2.
  destruct (extends_keeps h1 h3 in1 E2 B1) as [B1' L1'].
  destruct (append_local h h3 in1 hb (extends_trans _ _ _ E1 E2) B1')
    as (E3 & F3 & B3 & L3); [left; exact F1|].
  destruct (Mem.append in1 hb h3) as [in2 h4]. cbn [fst snd] in E3, F3, B3, L3.
  rewrite L1', L1 in L3. cbn [Mem.load Mem.nil_slice Mem.slen take] in L3.
  (* the history, when there is one *)
  match goal with
  | |- context [(if 0 <? Mem.slen cs then ?f else ?g) (h4, r2)] =>
      assert (Hmid : exists in3 h5,
        (if 0 <? Mem.slen cs then f else g) (h4, r2) = (in3, (h5, r2))
        /\ extends h h5 /\ length h <= Mem.arr in3 /\ in_bounds in3 h5
        /\ Mem.load in3 h5
           = (if (0 <? len (Mem.load cs h))%Z
              then (([] ++ [byte_of_int op]) ++ hb) ++ Mem.load cs h
              else ([] ++ [byte_of_int op]) ++ hb))
  end.
  { destruct (Nat.ltb_spec 0 (Mem.slen cs)) as [Hpos | Hzero];
      destruct (Z.ltb_spec 0 (len (Mem.load cs h))) as [Hpos' | Hzero'];
      unfold len in *; try lia.
    - destruct (extends_keeps h h4 cs E3 Hcs) as [_ Lcs]. rewrite Lcs.
      destruct (append_local h h4 in2 (Mem.load cs h) E3 B3)
        as (E4 & F4 & B4 & L4); [left; exact F3|].
      destruct (Mem.append in2 (Mem.load cs h) h4) as [in3 h5].
      cbn [fst snd] in *. exists in3, h5. rewrite L4, L3. auto.
    - exists in2, h4. rewrite L3. auto. }
  destruct Hmid as (in3 & h5 & Hmid & E4 & F4 & B4 & L4).
  (* the random tail *)
  destruct (Intn 92 r2) as [e r3] eqn:HI.
  pose proof (Read_length (Z.to_nat (8 + e)) r3) as Heb.
  destruct (Read (Z.to_nat (8 + e)) r3) as [eb r4] eqn:HR. cbn [fst] in Heb.
  cbv iota beta. rewrite Hmid, HI. cbn [Mem.slen Mem.arr Mem.off]. rewrite HR.
  destruct (fill_fresh h5 (Z.to_nat (8 + e)) eb Heb) as (E5 & B5 & L5).
  rewrite (write_eta (length h5) 0 eb).
  set (extra := Mem.MkSlice (length h5) 0 (Z.to_nat (8 + e)) (Z.to_nat (8 + e))) in *.
  set (h7 := snd (Mem.write (length h5) 0 eb _)) in *.
  rewrite L5.
  destruct (extends_keeps h5 h7 in3 E5 B4) as [B4' L4'].
  destruct (append_local h h7 in3 eb (extends_trans _ _ _ E4 E5) B4')
    as (E6 & F6 & B6 & L6); [left; exact F4|].
  destruct (Mem.append in3 eb h7) as [in4 h8]. cbn [fst snd] in E6, F6, B6, L6.
  rewrite L4', L4 in L6.
  exists h8, in4. rewrite L6.
  split_and!; auto.
  destruct (Mem.append cs _ h8) as [cs' h9]. reflexivity.
Qed.

(** Re-slicing from [k] on. *)
Lemma reslice_in_bounds s k h :
  in_bounds s h -> k <= Mem.slen s -> in_bounds (Mem.reslice_from s k) h.
Proof.
  intros [[Hc Hs] | [Ha Hb]] Hk; [left | right]; cbn; lia.
Qed.

Lemma reslice_beyond v s k :
  beyond v s -> k <= Mem.slen s -> beyond v (Mem.reslice_from s k).
Proof.
  intros [Hz | [Hne | Hfar]] Hk;
    [left; exact Hz | right; left; exact Hne | right; right; cbn; lia].
Qed.

Lemma reslice_load s k h :
  k <= Mem.slen s -> Mem.load (Mem.reslice_from s k) h = drop k (Mem.load s h).
Proof.
  intros Hk. unfold Mem.load. cbn [Mem.arr Mem.off Mem.slen Mem.reslice_from].
  rewrite <- drop_drop, take_drop_commute.
  replace (k + (Mem.slen s - k)) with (Mem.slen s) by lia. reflexivity.
Qed.

(** A slice within [h] is beyond the reach of an [append] to a slice of an
    array outside [h]. *)
Lemma in_bounds_beyond v s h :
  in_bounds v h -> length h <= Mem.arr s -> beyond v s.
Proof.
  intros [[_ Hs] | [Ha _]] Hf; [left; exact Hs | right; left; lia].
Qed.

(** The history slice after a call. *)
Definition next_history (cs : Mem.Slice) : Mem.Slice :=
  if 64 <? Mem.slen cs then Mem.reslice_from cs (Mem.slen cs - 64) else cs.

Lemma next_history_in_bounds cs h : in_bounds cs h -> in_bounds (next_history cs) h.
Proof.
  intros Hin. unfold next_history. destruct (64 <? Mem.slen cs); [|exact Hin].
  apply reslice_in_bounds; [exact Hin | lia].
Qed.

Lemma next_history_beyond v cs : beyond v cs -> beyond v (next_history cs).
Proof.
  intros Hb. unfold next_history. destruct (64 <? Mem.slen cs); [|exact Hb].
  apply reslice_beyond; [exact Hb | lia].
Qed.

(** A call keeps every slice that the history slice is beyond: the call
    writes to arrays it allocates and, if the capacity allows, just past
    the end of the history. *)
Lemma GenerateFuzzInput_keeps (v : Mem.Slice) (m : Mem.StatefulMutator.t)
    (h : Mem.Heap) (r : R) :
  in_bounds v h -> beyond v (Mem.StatefulMutator.currentState m) ->
  in_bounds (Mem.StatefulMutator.currentState m) h ->
  let '((_, m'), (h', _)) := Mem.StatefulMutator.GenerateFuzzInput m (h, r) in
  in_bounds v h' /\ Mem.load v h' = Mem.load v h
  /\ beyond v (Mem.StatefulMutator.currentState m')
  /\ in_bounds (Mem.StatefulMutator.currentState m') h'
  /\ extends_len h h'.
Proof.
  intros Hv Hfar Hcs.
  pose proof (GenerateFuzzInput_locals m h r Hcs) as Hloc.
  destruct (StatefulMutator.GenerateFuzzInput (pure_of h m) r) as [[pinput pm'] pr'].
  destruct Hloc as (h1 & input & E1 & _ & _ & _ & ->). cbn zeta.
  destruct (extends_keeps h h1 v E1 Hv) as [Hv1 Lv1].
  destruct (extends_keeps h h1 _ E1 Hcs) as [Hcs1 _].
  destruct (append_keeps v (Mem.StatefulMutator.currentState m)
              [nth 0 pinput 0%Z] h1 Hv1 (or_introl Hfar)) as (Hv2 & Lv2 & Hfar2).
  pose proof (append_in_bounds (Mem.StatefulMutator.currentState m)
                [nth 0 pinput 0%Z] h1 Hcs1) as Hcs2.
  cbn [Mem.StatefulMutator.currentState].
  fold (next_history (Mem.append (Mem.StatefulMutator.currentState m)
                        [nth 0 pinput 0%Z] h1).1).
  split_and!.
  - exact Hv2.
  - congruence.
  - now apply next_history_beyond.
  - now apply next_history_in_bounds.
  - unfold extends_len. destruct E1 as [Hl _].
    destruct (append_cases (Mem.StatefulMutator.currentState m)
                [nth 0 pinput 0%Z] h1) as [[_ ->] | [_ ->]];
      cbn [snd]; rewrite write_length; [|rewrite length_app]; lia.
Qed.

(** A call in memory computes what the call on contents computes: the same
    input, the same history, the same draws. *)
Lemma GenerateFuzzInput_refines (m : Mem.StatefulMutator.t) (h : Mem.Heap) (r : R) :
  in_bounds (Mem.StatefulMutator.currentState m) h ->
  let '((input, m'), (h', r')) := Mem.StatefulMutator.GenerateFuzzInput m (h, r) in
  let '((pinput, pm'), pr') := StatefulMutator.GenerateFuzzInput (pure_of h m) r in
  Mem.load input h' = pinput /\ pure_of h' m' = pm' /\ r' = pr'.
Proof.
  intros Hcs.
  pose proof (GenerateFuzzInput_locals m h r Hcs) as Hloc.
  pose proof (Stateful_step (pure_of h m) r) as Hstep.
  destruct (StatefulMutator.GenerateFuzzInput (pure_of h m) r) as [[pinput pm'] pr'].
  destruct Hloc as (h1 & input & E1 & F1 & B1 & L1 & ->). cbn zeta.
  cbn [fst] in Hstep. destruct Hstep as (b & rest & Hin & _ & Hbase & Hnew).
  set (cs := Mem.StatefulMutator.currentState m) in *.
  assert (Hb : nth 0 pinput 0%Z = b) by now rewrite Hin.
  rewrite Hb.
  destruct (extends_keeps h h1 cs E1 Hcs) as [Hcs1 Lcs1].
  pose proof (load_length cs h Hcs) as Hlen.
  split_and!; [| |reflexivity].
  - destruct (append_keeps input cs [b] h1 B1) as (_ & Lin & _); [|congruence].
    destruct Hcs as [[Hc Hs] | [Ha _]];
      [right; cbn; lia | left; right; left; lia].
  - destruct pm' as [pbase pcs]. cbn in Hbase, Hnew. subst pbase pcs.
    unfold pure_of.
    cbn [Mem.StatefulMutator.base Mem.StatefulMutator.currentState
         StatefulMutator.base StatefulMutator.currentState].
    cbv zeta. fold cs. f_equal.
    pose proof (append_load cs [b] h1 Hcs1) as Lapp.
    pose proof (append_slen cs [b] h1) as Sapp. cbn [length] in Sapp.
    rewrite Lcs1 in Lapp.
    destruct (Mem.append cs [b] h1) as [cs' h2]. cbn [fst snd] in *.
    rewrite length_app, Hlen. cbn [length].
    destruct (Nat.ltb_spec 64 (Mem.slen cs')) as [Hlt | Hge].
    + rewrite reslice_load by lia. rewrite Lapp. f_equal. lia.
    + rewrite Lapp. replace (Mem.slen cs + 1 - 64) with 0 by lia. reflexivity.
Qed.

Lemma extends_app (h foreign : Mem.Heap) : extends h (h ++ foreign).
Proof.
  split; [rewrite length_app; lia|]. intros a Ha. now rewrite app_nth1.
Qed.

Lemma Mem_calls_keeps (v : Mem.Slice) (steps : list (list (list byte) * R))
    (m : Mem.StatefulMutator.t) (h : Mem.Heap) :
  in_bounds v h -> beyond v (Mem.StatefulMutator.currentState m) ->
  in_bounds (Mem.StatefulMutator.currentState m) h ->
  let '(m', h') := Mem_calls steps (m, h) in
  in_bounds v h' /\ Mem.load v h' = Mem.load v h
  /\ in_bounds (Mem.StatefulMutator.currentState m') h'.
Proof.
  revert m h. induction steps as [|[foreign r] steps IH]; intros m h Hv Hfar Hcs.
  - cbn. auto.
  - cbn [Mem_calls fold_left].
    destruct (extends_keeps h (h ++ foreign) v (extends_app h foreign) Hv)
      as [Hv1 Lv1].
    destruct (extends_keeps h (h ++ foreign) _ (extends_app h foreign) Hcs)
      as [Hcs1 _].
    pose proof (GenerateFuzzInput_keeps v m (h ++ foreign) r Hv1 Hfar Hcs1) as Hk.
    destruct (Mem.StatefulMutator.GenerateFuzzInput m (h ++ foreign, r))
      as [[input m1] [h1 r1]].
    destruct Hk as (Hv2 & Lv2 & Hfar2 & Hcs2 & _).
    specialize (IH m1 h1 Hv2 Hfar2 Hcs2).
    change (fold_left _ steps (m1, h1)) with (Mem_calls steps (m1, h1)).
    destruct (Mem_calls steps (m1, h1)) as [m' h'].
    destruct IH as (Hv3 & Lv3 & Hcs3). split_and!; auto. congruence.
Qed.

Lemma New_in_bounds (h0 : Mem.Heap) :
  let '(m, h) := Mem.StatefulMutator.New h0 in
  in_bounds (Mem.StatefulMutator.currentState m) h.
Proof. cbn. left. auto. Qed.

Lemma ValidateOutput_Input (m : Mem.StatefulMutator.t) output err c v :
  fst (Mem.StatefulMutator.ValidateOutput m output err c) = Some v ->
  Mem.Input v = Mem.StatefulMutator.currentState m.
Proof.
  unfold Mem.StatefulMutator.ValidateOutput.
  validator_cases output; try (destruct (unexpected err); run_st);
    intros [= <-] || discriminate; reflexivity.
Qed.

(** The validator in memory reports what the validator on contents
    reports, with the bytes that its [Input] shows. *)
Lemma ValidateOutput_snapshot (m : Mem.StatefulMutator.t) (h : Mem.Heap)
    output err c :
  fst (StatefulMutator.ValidateOutput (pure_of h m) output err c)
  = option_map (Mem.snapshot h)
      (fst (Mem.StatefulMutator.ValidateOutput m output err c)).
Proof.
  unfold Mem.StatefulMutator.ValidateOutput, StatefulMutator.ValidateOutput.
  validator_cases output; try (destruct (unexpected err); run_st); reflexivity.
Qed.

Lemma beyond_self (s : Mem.Slice) : beyond s s.
Proof. right; right. lia. Qed.

Lemma pure_of_extends (h h1 : Mem.Heap) (m : Mem.StatefulMutator.t) :
  extends h h1 -> in_bounds (Mem.StatefulMutator.currentState m) h ->
  pure_of h1 m = pure_of h m.
Proof.
  intros He Hin. unfold pure_of.
  now destruct (extends_keeps h h1 _ He Hin) as [_ ->].
Qed.

(** The calls in memory follow the calls on contents. *)
Lemma Mem_calls_refines (steps : list (list (list byte) * R))
    (m : Mem.StatefulMutator.t) (h : Mem.Heap) :
  in_bounds (Mem.StatefulMutator.currentState m) h ->
  let '(m', h') := Mem_calls steps (m, h) in
  pure_of h' m' = Stateful_calls (map snd steps) (pure_of h m).
Proof.
  revert m h. induction steps as [|[foreign r] steps IH]; intros m h Hcs.
  - reflexivity.
  - cbn [Mem_calls fold_left map snd Stateful_calls].
    pose proof (extends_app h foreign) as He.
    destruct (extends_keeps h (h ++ foreign) _ He Hcs) as [Hcs1 _].
    rewrite <- (pure_of_extends h (h ++ foreign) m He Hcs).
    pose proof (GenerateFuzzInput_keeps _ m (h ++ foreign) r Hcs1
                  (beyond_self _) Hcs1) as Hk.
    pose proof (GenerateFuzzInput_refines m (h ++ foreign) r Hcs1) as Hr.
    destruct (Mem.StatefulMutator.GenerateFuzzInput m (h ++ foreign, r))
      as [[input m1] [h1 r1]].
    destruct (StatefulMutator.GenerateFuzzInput (pure_of (h ++ foreign) m) r)
      as [[pinput pm1] pr1].
    destruct Hk as (_ & _ & _ & Hcs2 & _). destruct Hr as (_ & <- & _).
    cbn [fst snd]. apply (IH m1 h1 Hcs2).
Qed.

End StatefulMem.

(** Three calls, a report, and a fourth call that appends in place under
    the doubling policy. *)
Definition history_draws1 : Tape.t :=
  Tape.of_list [3; 1; 2; 3; 4; 0; 9; 9; 9; 9; 9; 9; 9; 9].
Definition history_draws2 : Tape.t :=
  Tape.of_list [2; 5; 6; 7; 8; 1; 1; 1; 1; 1; 1; 1; 1; 1; 1].
Definition calls_before : list (list (list byte) * Tape.t) :=
  [([], history_draws1); ([[1; 2]], history_draws2); ([], history_draws1)].
Definition calls_after : list (list (list byte) * Tape.t) :=
  [([[7]], history_draws2)].
Definition reported_state : Mem.StatefulMutator.t * Mem.Heap :=
  Mem_calls calls_before (Mem.StatefulMutator.New []).

(** C8, as stated, fails: the verdict's [Input] is the history slice
    itself, not a copy.  After three calls the report's [Input] is the
    slice of array 21 that the mutator holds, and the fourth call stores its
    byte in that same array. *)
Lemma Stateful_verdict_Input_is_the_live_slice :
  let '(m, h) := reported_state in
  let '(m', h') := Mem_calls calls_after (m, h) in
  exists v,
    fst (Mem.StatefulMutator.ValidateOutput m
           (Some (bytes_of_string "state_inconsistent")) None a_clock) = Some v
    /\ Mem.Input v = Mem.StatefulMutator.currentState m
    /\ Mem.arr (Mem.StatefulMutator.currentState m') = Mem.arr (Mem.Input v)
    /\ nth (Mem.arr (Mem.Input v)) h [] = [3; 2; 3; 0]
    /\ nth (Mem.arr (Mem.Input v)) h' [] = [3; 2; 3; 2].
Proof. vm_compute. eexists. repeat split. Qed.

(** C8 (amended): when the stateful validator emits a verdict, the
    verdict's [Input] is the mutator's history slice itself at the moment
    of reporting (the same array, offset and length: an alias, not a copy),
    and it shows the history instead of the generated bytes.  Later calls
    of [GenerateFuzzInput] store bytes past the end of that slice or in
    arrays they allocate, and re-slice: the bytes that the reported
    verdict's [Input] shows stay the history as it was when reported. *)
Theorem Stateful_verdict_keeps_its_bytes {R : Type} `{RandSource R} `{GrowSlice}
    (h0 : Mem.Heap) (before after : list (list (list byte) * R))
    (m m' : Mem.StatefulMutator.t) (h h' : Mem.Heap)
    (output : option (list byte)) (err : option string) (c : Clock)
    (v : Mem.FuzzResult) :
  Mem_calls before (Mem.StatefulMutator.New h0) = (m, h) ->
  fst (Mem.StatefulMutator.ValidateOutput m output err c) = Some v ->
  Mem_calls after (m, h) = (m', h') ->
  Mem.Input v = Mem.StatefulMutator.currentState m
  /\ Mem.load (Mem.Input v) h
     = StatefulMutator.currentState
         (Stateful_calls (map snd before) StatefulMutator.New)
  /\ Mem.snapshot h' v = Mem.snapshot h v.
Proof.
  intros Hbefore Hv Hafter.
  pose proof (ValidateOutput_Input m output err c v Hv) as Hin.
  pose proof (New_in_bounds h0) as Hnew.
  pose proof (Mem_calls_refines before (fst (Mem.StatefulMutator.New h0))
                (snd (Mem.StatefulMutator.New h0))) as Href.
  pose proof (Mem_calls_keeps
                (Mem.StatefulMutator.currentState (fst (Mem.StatefulMutator.New h0)))
                before (fst (Mem.StatefulMutator.New h0))
                (snd (Mem.StatefulMutator.New h0))) as Hk0.
  destruct (Mem.StatefulMutator.New h0) as [m0 h1] eqn:HN. cbn [fst snd] in *.
  specialize (Href Hnew). specialize (Hk0 Hnew (beyond_self _) Hnew).
  rewrite Hbefore in Href, Hk0. destruct Hk0 as (_ & _ & Hcs).
  pose proof (Mem_calls_keeps (Mem.StatefulMutator.currentState m) after m h
                Hcs (beyond_self _) Hcs) as Hk.
  rewrite Hafter in Hk. destruct Hk as (_ & Hload & _).
  split_and!.
  - exact Hin.
  - rewrite Hin. change (Mem.load (Mem.StatefulMutator.currentState m) h)
      with (StatefulMutator.currentState (pure_of h m)).
    rewrite Href. f_equal. f_equal.
    unfold Mem.StatefulMutator.New in HN. cbn in HN. injection HN as <- <-.
    reflexivity.
  - unfold Mem.snapshot. now rewrite Hin, Hload.
Qed.

Definition reported_verdict : Mem.FuzzResult :=
  Mem.MkResult "stateful_1700000000000000000" (Mem.MkSlice 21 0 3 4)
    "State transition inconsistency detected" true true false false.

Lemma Stateful_verdict_keeps_its_bytes_witness :
  fst (Mem.StatefulMutator.ValidateOutput (fst reported_state)
         (Some (bytes_of_string "state_inconsistent")) None a_clock)
  = Some reported_verdict
  /\ Mem.snapshot (snd (Mem_calls calls_after reported_state)) reported_verdict
     = Mem.snapshot (snd reported_state) reported_verdict.
Proof.
  assert (H1 : Mem_calls calls_before (Mem.StatefulMutator.New [])
               = (fst reported_state, snd reported_state))
    by (vm_compute; reflexivity).
  assert (H2 : fst (Mem.StatefulMutator.ValidateOutput (fst reported_state)
                      (Some (bytes_of_string "state_inconsistent")) None a_clock)
               = Some reported_verdict)
    by (vm_compute; reflexivity).
  assert (H3 : Mem_calls calls_after (fst reported_state, snd reported_state)
               = (fst (Mem_calls calls_after reported_state),
                  snd (Mem_calls calls_after reported_state)))
    by (vm_compute; reflexivity).
  split; [exact H2|].
  exact (proj2 (proj2 (Stateful_verdict_keeps_its_bytes (R := Tape.t) []
           calls_before calls_after (fst reported_state)
           (fst (Mem_calls calls_after reported_state)) (snd reported_state)
           (snd (Mem_calls calls_after reported_state))
           (Some (bytes_of_string "state_inconsistent")) None a_clock
           reported_verdict H1 H2 H3))).
Defined.

(** * Further properties of the mutators, the target and the engine *)

(** ** Validators *)

(** The output is one of the two indicator strings. *)
Definition is_indicator (output : option (list byte)) : bool :=
  match nonempty output with
  | Some o => bytes_eq_string o "state_inconsistent"
              || bytes_eq_string o "consensus_failure"
  | None => false
  end.

(** The prefix of the [ID]s of a mutator's verdicts. *)
Definition id_prefix (m : Mutator) : string :=
  match m with
  | OfRandomTx _ => "random_tx_"
  | OfBoundaryValue _ => "boundary_"
  | OfStateful _ => "stateful_"
  | OfSpecialCases _ => "special_"
  end.

(** What a crash verdict puts before the error's message. *)
Definition crash_prefix (m : Mutator) : string :=
  match m with
  | OfRandomTx _ | OfBoundaryValue _ => ""
  | OfStateful _ => "Unexpected error in state sequence: "
  | OfSpecialCases _ => "Special case triggered error: "
  end.

(** The bytes a mutator attaches to its verdicts. *)
Definition evidence (m : Mutator) : list byte :=
  match m with
  | OfStateful s => StatefulMutator.currentState s
  | _ => []
  end.

Ltac unfold_validator m :=
  destruct m as [m | m | m | m];
  cbn [ValidateOutput Mutator_StateMutator RandomTx_StateMutator
       BoundaryValue_StateMutator Stateful_StateMutator SpecialCases_StateMutator];
  [ unfold RandomTxMutator.ValidateOutput
  | unfold BoundaryValueMutator.ValidateOutput
  | unfold StatefulMutator.ValidateOutput
  | unfold SpecialCasesMutator.ValidateOutput ].

Section MoreValidators.
Context {R : Type} `{RandSource R}.

Lemma Mutator_silent (m : Mutator) (output : option (list byte))
    (err : option string) (c : Clock) :
  unexpected err = false -> is_indicator output = false ->
  ValidateOutput (R := R) m output err c = (None, c).
Proof.
  intros Hu Hi. unfold is_indicator in Hi.
  unfold_validator m; rewrite Hu; destruct (nonempty output) as [o|];
    try reflexivity; apply orb_false_iff in Hi as [-> ->]; reflexivity.
Qed.

(** X1: whichever the mutator, an answer with no unexpected error (nil, or
    one of the two benign messages) and an output that is not an indicator
    string (nil, empty, [success], anything else) gives no verdict, and the
    clock is not read. *)
Theorem no_verdict_without_signal (m : Mutator) (output : option (list byte))
    (err : option string) (c : Clock) :
  unexpected err = false -> is_indicator output = false ->
  ValidateOutput (R := R) m output err c = (None, c).
Proof. exact (Mutator_silent m output err c). Qed.

(** X2: with no unexpected error (a benign error does not hide the
    output), the output [state_inconsistent] gives a verdict whose only
    flag besides [Failed] is [StateInconsistency], and the output
    [consensus_failure] one whose only flag is [ConsensusFailure]. *)
Theorem indicator_verdict (m : Mutator) (err : option string) (c : Clock) :
  unexpected err = false ->
  (exists v,
     fst (ValidateOutput (R := R) m (Some (bytes_of_string "state_inconsistent"))
            err c) = Some v
     /\ flags v = (true, true, false, false))
  /\ (exists v,
        fst (ValidateOutput (R := R) m (Some (bytes_of_string "consensus_failure"))
               err c) = Some v
        /\ flags v = (true, false, true, false)).
Proof.
  intros Hu.
  split; unfold_validator m; rewrite ?Hu; eexists; split; reflexivity.
Qed.

Lemma Mutator_evidence (m : Mutator) (output : option (list byte))
    (err : option string) (c : Clock) (v : FuzzResult.t) :
  fst (ValidateOutput (R := R) m output err c) = Some v ->
  FuzzResult.Input v = evidence m
  /\ (FuzzResult.Crashed v = true ->
      exists e, err = Some e /\ unexpected err = true
                /\ FuzzResult.ErrorMessage v = crash_prefix m +:+ e).
Proof.
  unfold_validator m.
  all: destruct err as [e|]; cbn [unexpected default];
    [destruct (negb (String.eqb e "invalid arguments")
               && negb (String.eqb e "permission denied")) eqn:Hu|];
    try validator_cases output; run_st;
    intros [= <-] || discriminate; cbn;
    (split; [reflexivity|]); intros Hc; try discriminate Hc; eauto.
Qed.

(** X3: a verdict of RandomTx, BoundaryValue or SpecialCases has a nil
    [Input]: the generated bytes are not part of the report.  A verdict of
    Stateful carries the history.  A crash verdict's message is the error's
    message, after the mutator's own prefix. *)
Theorem verdict_evidence (m : Mutator) (output : option (list byte))
    (err : option string) (c : Clock) (v : FuzzResult.t) :
  fst (ValidateOutput (R := R) m output err c) = Some v ->
  FuzzResult.Input v = evidence m
  /\ (FuzzResult.Crashed v = true ->
      exists e, err = Some e /\ unexpected err = true
                /\ FuzzResult.ErrorMessage v = crash_prefix m +:+ e).
Proof. exact (Mutator_evidence m output err c v). Qed.

Lemma Mutator_ID (m : Mutator) (output : option (list byte))
    (err : option string) (c : Clock) :
  match ValidateOutput (R := R) m output err c with
  | (Some v, c') =>
      FuzzResult.ID v = id_prefix m +:+ pretty (readings c (ticks c))
      /\ c' = MkClock (readings c) (S (ticks c))
  | (None, c') => c' = c
  end.
Proof.
  unfold_validator m.
  all: destruct (unexpected err); try validator_cases output; run_st; auto.
Qed.

(** X4: a validator reads the clock once when it returns a verdict, whose
    [ID] is the mutator's prefix followed by the reading in decimal, and
    not at all when it returns none. *)
Theorem verdict_ID (m : Mutator) (output : option (list byte))
    (err : option string) (c : Clock) :
  match ValidateOutput (R := R) m output err c with
  | (Some v, c') =>
      FuzzResult.ID v = id_prefix m +:+ pretty (readings c (ticks c))
      /\ c' = MkClock (readings c) (S (ticks c))
  | (None, c') => c' = c
  end.
Proof. exact (Mutator_ID m output err c). Qed.

End MoreValidators.

Lemma no_verdict_without_signal_witness :
  ValidateOutput (R := Tape.t) (OfStateful StatefulMutator.New)
    (Some (bytes_of_string "success")) (Some "permission denied") a_clock
  = (None, a_clock).
Proof.
  exact (no_verdict_without_signal (R := Tape.t) (OfStateful StatefulMutator.New)
           (Some (bytes_of_string "success")) (Some "permission denied") a_clock
           eq_refl eq_refl).
Defined.

Lemma indicator_verdict_witness :
  exists v,
    fst (ValidateOutput (R := Tape.t) (OfBoundaryValue BoundaryValueMutator.New)
           (Some (bytes_of_string "state_inconsistent")) (Some "invalid arguments")
           a_clock) = Some v
    /\ flags v = (true, true, false, false).
Proof.
  exact (proj1 (indicator_verdict (R := Tape.t)
                  (OfBoundaryValue BoundaryValueMutator.New)
                  (Some "invalid arguments") a_clock eq_refl)).
Defined.

Lemma verdict_evidence_witness :
  FuzzResult.Input
    (FuzzResult.Make "special_7" [] "Special case triggered error: boom"
       true false false true)
  = evidence (OfSpecialCases SpecialCasesMutator.New).
Proof.
  exact (proj1 (verdict_evidence (R := Tape.t)
                  (OfSpecialCases SpecialCasesMutator.New)
                  None (Some "boom") (MkClock (fun _ => 7) 0) _ eq_refl)).
Defined.

(** ** Generators *)

(** The inputs that successive calls return, with the receiver they leave
    (the k-th call made in the generator state [rs !! k]). *)
Fixpoint Stateful_trace {R : Type} `{RandSource R} (rs : list R)
    (m : StatefulMutator.t) : list (list byte) * StatefulMutator.t :=
  match rs with
  | [] => ([], m)
  | r :: rs =>
      let '(input, m') := fst (StatefulMutator.GenerateFuzzInput m r) in
      let '(inputs, m'') := Stateful_trace rs m' in
      (input :: inputs, m'')
  end.

(** The last [n] elements. *)
Definition last_n {A : Type} (n : nat) (l : list A) : list A :=
  drop (length l - n) l.

Section MoreGenerators.
Context {R : Type} `{RandSource R}.

Lemma Stateful_input_parts (m : StatefulMutator.t) (r : R) :
  exists op header tail,
    fst (fst (StatefulMutator.GenerateFuzzInput m r))
    = [op] ++ header ++ StatefulMutator.currentState m ++ tail
    /\ 0 <= op < 4 /\ len header = 4 /\ 8 <= len tail <= 99.
Proof.
  unfold StatefulMutator.GenerateFuzzInput, bind, ret.
  pose proof (Intn_range 4 r ltac:(lia)) as Hop.
  destruct (Intn 4 r) as [op r1]; cbn [fst] in Hop.
  pose proof (Read_length 4%nat r1) as Hh.
  destruct (Read 4 r1) as [header r2]; cbn [fst] in Hh.
  pose proof (Intn_range 92 r2 ltac:(lia)) as He.
  destruct (Intn 92 r2) as [e r3]; cbn [fst] in He.
  pose proof (len_Read (8 + e) r3 ltac:(lia)) as Ht.
  destruct (Read (Z.to_nat (8 + e)) r3) as [tail r4]; cbn [fst] in *.
  exists (byte_of_int op), header, tail.
  assert (Hb : byte_of_int op = op) by (unfold byte_of_int; rewrite Z.mod_small; lia).
  split; [|rewrite Hb; unfold len in *; lia].
  destruct (Z.ltb_spec 0 (len (StatefulMutator.currentState m))) as [Hpos | Hz].
  - cbn. now rewrite <- !app_assoc.
  - assert (Hnil : StatefulMutator.currentState m = []).
    { destruct (StatefulMutator.currentState m); [reflexivity|].
      unfold len in Hz. cbn in Hz. lia. }
    rewrite Hnil. cbn. reflexivity.
Qed.

(** X5: an input of the stateful mutator is an opcode in 0..3, four header
    bytes, the history as it was before the call, and 8 to 99 more bytes. *)
Theorem Stateful_layout (m : StatefulMutator.t) (r : R) :
  exists op header tail,
    fst (fst (StatefulMutator.GenerateFuzzInput m r))
    = [op] ++ header ++ StatefulMutator.currentState m ++ tail
    /\ 0 <= op < 4 /\ len header = 4 /\ 8 <= len tail <= 99.
Proof. exact (Stateful_input_parts m r). Qed.

Lemma Stateful_trace_state (rs : list R) (m : StatefulMutator.t) :
  snd (Stateful_trace rs m) = Stateful_calls rs m.
Proof.
  revert m. induction rs as [|r rs IH]; intros m; [reflexivity|].
  cbn [Stateful_trace Stateful_calls fold_left].
  destruct (fst (StatefulMutator.GenerateFuzzInput m r)) as [input m'] eqn:Hg.
  specialize (IH m'). destruct (Stateful_trace rs m') as [inputs m''].
  cbn [snd] in *. exact IH.
Qed.

Lemma last_n_app_last_n {A : Type} (n : nat) (l k : list A) :
  last_n n (last_n n l ++ k) = last_n n (l ++ k).
Proof.
  unfold last_n.
  destruct (Nat.le_gt_cases (length l) n) as [Hle | Hgt].
  - replace (length l - n)%nat with 0%nat by lia. reflexivity.
  - set (d := (length l - n)%nat).
    rewrite !length_app, length_drop.
    replace (length l - d + length k - n)%nat with (length k) by lia.
    replace (length l + length k - n)%nat with (d + length k)%nat by lia.
    rewrite <- (take_drop d l) at 2.
    rewrite <- drop_drop, <- app_assoc.
    rewrite (drop_app_length' (take d l)) by (rewrite length_take; lia).
    reflexivity.
Qed.

Lemma Stateful_trace_history (rs : list R) (m : StatefulMutator.t) :
  let '(inputs, m') := Stateful_trace rs m in
  last_n 64 (StatefulMutator.currentState m')
  = last_n 64 (StatefulMutator.currentState m
               ++ map (fun i => nth 0 i 0) inputs)
  /\ (len (StatefulMutator.currentState m) <= 64 ->
      len (StatefulMutator.currentState m') <= 64).
Proof.
  revert m. induction rs as [|r rs IH]; intros m.
  - cbn. rewrite app_nil_r. auto.
  - cbn [Stateful_trace].
    pose proof (Stateful_step m r) as Hs.
    pose proof (Stateful_step_length m r) as Hl.
    destruct (fst (StatefulMutator.GenerateFuzzInput m r)) as [input m1].
    destruct Hs as (b & rest & -> & _ & _ & Hcs). cbn [snd] in Hl.
    specialize (IH m1). destruct (Stateful_trace rs m1) as [inputs m'].
    destruct IH as [IH1 IH2]. cbn [map nth]. split.
    + rewrite IH1, Hcs. cbv zeta.
      change (drop (length (?l ++ [b]) - 64) (?l ++ [b])) with (last_n 64 (l ++ [b])).
      rewrite last_n_app_last_n, <- app_assoc. reflexivity.
    + intros Hm. apply IH2. rewrite Hl. lia.
Qed.

(** X6: after any number of calls on a new stateful mutator the history is
    the first bytes of the inputs returned by the last 64 calls (all calls,
    when fewer), in order, and each of them is an opcode in 0..3. *)
Theorem Stateful_history_content (rs : list R) :
  let '(inputs, m) := Stateful_trace rs StatefulMutator.New in
  StatefulMutator.currentState m = last_n 64 (map (fun i => nth 0 i 0) inputs)
  /\ Forall (fun b => 0 <= b < 4) (StatefulMutator.currentState m).
Proof.
  pose proof (Stateful_trace_history rs StatefulMutator.New) as Hh.
  assert (Hops : Forall (fun b => 0 <= b < 4)
                   (map (fun i => nth 0 i 0)
                      (fst (Stateful_trace rs StatefulMutator.New)))).
  { clear Hh. generalize StatefulMutator.New as m.
    induction rs as [|r rs IH]; intros m; [constructor|].
    cbn [Stateful_trace].
    pose proof (Stateful_step m r) as Hs.
    destruct (fst (StatefulMutator.GenerateFuzzInput m r)) as [input m1].
    destruct Hs as (b & rest & -> & -> & _).
    specialize (IH m1). destruct (Stateful_trace rs m1) as [inputs m'].
    cbn [fst map nth] in *. constructor; [|exact IH].
    pose proof (Intn_range 4 r ltac:(lia)) as Hop.
    unfold byte_of_int. rewrite (Z.mod_small (fst (Intn 4 r)) 256); lia. }
  destruct (Stateful_trace rs StatefulMutator.New) as [inputs m].
  cbn [fst snd] in *. destruct Hh as [Hh Hle].
  specialize (Hle ltac:(vm_compute; discriminate)).
  assert (Hcs : StatefulMutator.currentState m
                = last_n 64 (map (fun i => nth 0 i 0) inputs)).
  { change (StatefulMutator.currentState StatefulMutator.New) with (@nil byte) in Hh.
    cbn [app] in Hh. rewrite <- Hh. unfold last_n.
    replace (length (StatefulMutator.currentState m) - 64)%nat with 0%nat
      by (unfold len in Hle; lia).
    reflexivity. }
  split; [exact Hcs|]. rewrite Hcs. unfold last_n.
  apply Forall_drop, Hops.
Qed.

End MoreGenerators.

Section MoreGenerators2.
Context {R : Type} `{RandSource R}.

Lemma Stateful_trace_lengths (rs : list R) (m : StatefulMutator.t) :
  len (StatefulMutator.currentState m) <= 64 ->
  Forall (fun i => 13 <= len i <= 168) (fst (Stateful_trace rs m)).
Proof.
  revert m. induction rs as [|r rs IH]; intros m Hm; [constructor|].
  cbn [Stateful_trace].
  destruct (Stateful_input_parts m r) as (op & header & tail & Hin & _ & Hh & Ht).
  pose proof (Stateful_step_length m r) as Hl.
  destruct (fst (StatefulMutator.GenerateFuzzInput m r)) as [input m1].
  cbn [fst snd] in *.
  specialize (IH m1 ltac:(lia)). destruct (Stateful_trace rs m1) as [inputs m'].
  cbn [fst] in *. constructor; [|exact IH].
  rewrite Hin, !len_app. pose proof (len_nonneg (StatefulMutator.currentState m)).
  change (len [op]) with 1. lia.
Qed.

(** X7: every input that a stateful mutator returns, from its construction
    on, has between 13 and 168 bytes. *)
Theorem Stateful_input_length (rs : list R) :
  Forall (fun i => 13 <= len i <= 168)
    (fst (Stateful_trace rs StatefulMutator.New)).
Proof. apply Stateful_trace_lengths. vm_compute. discriminate. Qed.

(** The loop of point mutations performs [n] of them, at offsets within
    the slice. *)
Lemma mutate_point_mutations (n : nat) (base : list byte) (r : R) :
  0 < len base ->
  exists ms,
    fst (SpecialCasesMutator.mutate n base r) = point_mutations ms base
    /\ length ms = n
    /\ Forall (fun '(pos, b) => (pos < length base)%nat /\ 0 <= b < 256) ms.
Proof.
  revert base r. induction n as [|n IH]; intros base r Hpos.
  - exists []. cbn. auto.
  - cbn [SpecialCasesMutator.mutate]. unfold bind.
    pose proof (Intn_range (len base) r Hpos) as Hp.
    destruct (Intn (len base) r) as [pos r1]; cbn [fst] in Hp.
    pose proof (Intn_range 256 r1 ltac:(lia)) as Hb.
    destruct (Intn 256 r1) as [b r2]; cbn [fst] in Hb.
    destruct (IH (<[Z.to_nat pos := byte_of_int b]> base) r2) as (ms & Hms & Hl & Hall).
    { unfold len in *. now rewrite length_insert. }
    exists ((Z.to_nat pos, byte_of_int b) :: ms). rewrite Hms.
    split; [reflexivity|]. split; [cbn; lia|].
    constructor.
    + split; [unfold len in Hp; lia | apply Z.mod_pos_bound; lia].
    + rewrite length_insert in Hall. exact Hall.
Qed.

Lemma SpecialCases_input_parts (r : R) :
  let m := SpecialCasesMutator.New in
  let '(p, r1) := Intn 100 r in
  let '(i, r2) := Intn 7 r1 in
  let '(j, _) := Intn 7 r2 in
  exists base padding,
    fst (SpecialCasesMutator.GenerateFuzzInput m r) = base ++ padding
    /\ 0 <= len padding <= 99
    /\ 8 <= len base <= 9
    /\ (if p <? 75 then base = SpecialCasesMutator.case_at m i
        else exists ms,
            base = point_mutations ms
                     (copy (make (len (SpecialCasesMutator.case_at m i)))
                        (SpecialCasesMutator.case_at m j))
            /\ (1 <= length ms <= 5)%nat
            /\ Forall (fun '(pos, b) => (pos < length base)%nat /\ 0 <= b < 256) ms).
Proof.
  cbv zeta. unfold SpecialCasesMutator.GenerateFuzzInput, bind, ret.
  change (len (SpecialCasesMutator.cases SpecialCasesMutator.New)) with 7.
  destruct (Intn 100 r) as [p r1]. cbv beta iota.
  assert (Hcase : forall k, 0 <= k < 7 ->
            8 <= len (SpecialCasesMutator.case_at SpecialCasesMutator.New k) <= 9).
  { intros k Hk.
    assert (Hc : k = 0 \/ k = 1 \/ k = 2 \/ k = 3 \/ k = 4 \/ k = 5 \/ k = 6) by lia.
    destruct Hc as [-> | [-> | [-> | [-> | [-> | [-> | ->]]]]]];
      vm_compute; split; discriminate. }
  pose proof (Intn_range 7 r1 ltac:(lia)) as Hi.
  destruct (p <? 75); cbv beta iota.
  - destruct (Intn 7 r1) as [i r2]; cbn [fst] in Hi. cbv beta iota.
    destruct (Intn 7 r2) as [j r3] eqn:Hj3.
    pose proof (Intn_range 100 r2 ltac:(lia)) as Hpad.
    destruct (Intn 100 r2) as [paddingLen r4]; cbn [fst] in Hpad.
    pose proof (len_Read paddingLen r4 ltac:(lia)) as Hl.
    destruct (Read (Z.to_nat paddingLen) r4) as [padding r5]; cbn [fst] in *.
    exists (SpecialCasesMutator.case_at SpecialCasesMutator.New i), padding.
    split_and!; auto; try lia; apply Hcase, Hi.
  - destruct (Intn 7 r1) as [i r2]; cbn [fst] in Hi. cbv beta iota.
    pose proof (Intn_range 7 r2 ltac:(lia)) as Hj.
    destruct (Intn 7 r2) as [j r3]; cbn [fst] in Hj. cbv beta iota.
    pose proof (Intn_range 5 r3 ltac:(lia)) as Hk.
    destruct (Intn 5 r3) as [k r4]; cbn [fst] in Hk. cbv beta iota.
    set (base0 := copy (make (len (SpecialCasesMutator.case_at
                                     SpecialCasesMutator.New i)))
                    (SpecialCasesMutator.case_at SpecialCasesMutator.New j)).
    assert (Hb0 : len base0 = len (SpecialCasesMutator.case_at
                                     SpecialCasesMutator.New i)).
    { subst base0. unfold copy, make, len.
      rewrite length_app, length_take, length_drop, !repeat_length. lia. }
    pose proof (Hcase i Hi) as Hci.
    destruct (mutate_point_mutations (Z.to_nat (1 + k)) base0 r4 ltac:(lia))
      as (ms & Hms & Hlen & Hall).
    destruct (SpecialCasesMutator.mutate (Z.to_nat (1 + k)) base0 r4)
      as [base r5]; cbn [fst] in Hms.
    pose proof (Intn_range 100 r5 ltac:(lia)) as Hpad.
    destruct (Intn 100 r5) as [paddingLen r6]; cbn [fst] in Hpad.
    pose proof (len_Read paddingLen r6 ltac:(lia)) as Hl.
    destruct (Read (Z.to_nat paddingLen) r6) as [padding r7]; cbn [fst] in *.
    assert (Hlb : length base = length base0)
      by (rewrite Hms; apply point_mutations_length).
    exists base, padding.
    split_and!; auto; try (unfold len in *; lia).
    exists ms. split_and!; auto; try lia. now rewrite Hlb.
Qed.

(** X8: an input of the special-cases mutator is a base followed by 0 to 99
    bytes of padding.  When the first draw is below 75 the base is the
    corpus entry that the next draw selects.  Otherwise it is what [copy]
    leaves in a zeroed slice as long as the entry of one draw when it is
    given the entry of the next draw, with 1 to 5 point mutations at
    offsets within it.  Either way the base has 8 or 9 bytes. *)
Theorem SpecialCases_shape (r : R) :
  let m := SpecialCasesMutator.New in
  let '(p, r1) := Intn 100 r in
  let '(i, r2) := Intn 7 r1 in
  let '(j, _) := Intn 7 r2 in
  exists base padding,
    fst (SpecialCasesMutator.GenerateFuzzInput m r) = base ++ padding
    /\ 0 <= len padding <= 99
    /\ 8 <= len base <= 9
    /\ (if p <? 75 then base = SpecialCasesMutator.case_at m i
        else exists ms,
            base = point_mutations ms
                     (copy (make (len (SpecialCasesMutator.case_at m i)))
                        (SpecialCasesMutator.case_at m j))
            /\ (1 <= length ms <= 5)%nat
            /\ Forall (fun '(pos, b) => (pos < length base)%nat /\ 0 <= b < 256) ms).
Proof. exact (SpecialCases_input_parts r). Qed.

(** X9: when the mutating branch draws, for the length and for the content,
    entries of the same length (in particular the same entry), the base is
    a copy of the content entry with 1 to 5 point mutations: it has the
    form that the comment in the source announces. *)
Theorem SpecialCases_same_length_draws (r : R) :
  let m := SpecialCasesMutator.New in
  let '(p, r1) := Intn 100 r in
  let '(i, r2) := Intn 7 r1 in
  let '(j, _) := Intn 7 r2 in
  75 <= p ->
  len (SpecialCasesMutator.case_at m i) = len (SpecialCasesMutator.case_at m j) ->
  exists base padding,
    fst (SpecialCasesMutator.GenerateFuzzInput m r) = base ++ padding
    /\ 0 <= len padding <= 99 /\ corpus_derived base.
Proof.
  pose proof (SpecialCases_input_parts r) as Hs. cbv zeta in *.
  destruct (Intn 100 r) as [p r1].
  pose proof (Intn_range 7 r1 ltac:(lia)) as Hi.
  destruct (Intn 7 r1) as [i r2]; cbn [fst] in Hi.
  pose proof (Intn_range 7 r2 ltac:(lia)) as Hj.
  destruct (Intn 7 r2) as [j r3]; cbn [fst] in Hj.
  intros Hp Hlen.
  destruct Hs as (base & padding & Hout & Hpad & Hb & Hbase).
  destruct (Z.ltb_spec p 75) as [? | _]; [lia|].
  destruct Hbase as (ms & Hms & Hn & Hall).
  exists base, padding. split; [exact Hout|]. split; [exact Hpad|].
  right. exists (SpecialCasesMutator.case_at SpecialCasesMutator.New j), ms.
  assert (Hcopy : copy (make (len (SpecialCasesMutator.case_at
                                     SpecialCasesMutator.New i)))
                    (SpecialCasesMutator.case_at SpecialCasesMutator.New j)
                  = SpecialCasesMutator.case_at SpecialCasesMutator.New j).
  { rewrite Hlen. unfold copy, make, len.
    rewrite repeat_length, Nat2Z.id, Nat.min_id, firstn_all.
    rewrite drop_ge by (rewrite repeat_length; lia). apply app_nil_r. }
  rewrite Hcopy in Hms.
  split; [|split; [exact Hn | split; [|exact Hms]]].
  - unfold SpecialCasesMutator.case_at. apply nth_In.
    change (length specialCases) with 7%nat. lia.
  - rewrite Hms, point_mutations_length in Hall.
    eapply Forall_impl; [exact Hall|]. intros [pos b] [Hpos _]. exact Hpos.
Qed.

End MoreGenerators2.

Definition same_length_draws : Tape.t := Tape.of_list [80; 2; 4; 1; 3; 200; 0].

Lemma SpecialCases_same_length_draws_witness :
  exists base padding,
    fst (SpecialCasesMutator.GenerateFuzzInput SpecialCasesMutator.New
           same_length_draws) = base ++ padding
    /\ 0 <= len padding <= 99 /\ corpus_derived base.
Proof.
  assert (Hp : 75 <= 80) by lia.
  exact (SpecialCases_same_length_draws (R := Tape.t) same_length_draws Hp eq_refl).
Defined.

(** ** The target *)

(** The error messages and the outputs of [ExecuteFuzz]. *)
Definition adapter_errors : list string :=
  ["input too short"; "simulated error: invalid handler"; "invalid arguments";
   "permission denied"].

Definition adapter_outputs : list (list byte) :=
  [bytes_of_string "success"; bytes_of_string "state_inconsistent";
   bytes_of_string "consensus_failure"].

(** X10: [ExecuteFuzz] returns either a nil output with one of its four
    errors, or a nil error with one of the outputs [success],
    [state_inconsistent] and [consensus_failure]: never both, never
    neither, and never the output [unknown] of its last line. *)
Theorem ExecuteFuzz_answers (t : CosmosModule.t) (input : list byte) :
  let '(output, err) := CosmosModule.ExecuteFuzz t input in
  (output = None /\ exists e, err = Some e /\ In e adapter_errors)
  \/ (err = None /\ exists o, output = Some o /\ In o adapter_outputs).
Proof.
  unfold CosmosModule.ExecuteFuzz.
  destruct (len input <? 4); [left; split; [reflexivity|]; eexists; split;
                               [reflexivity | cbn; auto]|].
  destruct (_ =? len (CosmosModule.Handlers t));
    [left; split; [reflexivity|]; eexists; split; [reflexivity | cbn; auto]|].
  pose proof (Z.mod_pos_bound (nth 1 input 0) 5 ltac:(lia)) as Hm.
  assert (Hc : nth 1 input 0 mod 5 = 0 \/ nth 1 input 0 mod 5 = 1
               \/ nth 1 input 0 mod 5 = 2 \/ nth 1 input 0 mod 5 = 3
               \/ nth 1 input 0 mod 5 = 4) by lia.
  destruct Hc as [-> | [-> | [-> | [-> | ->]]]].
  - right. split; [reflexivity|]. eexists. split; [reflexivity | cbn; auto].
  - left. split; [reflexivity|]. eexists. split; [reflexivity | cbn; auto].
  - left. split; [reflexivity|]. eexists. split; [reflexivity | cbn; auto].
  - right. split; [reflexivity|]. eexists. split; [reflexivity | cbn; auto].
  - right. split; [reflexivity|]. eexists. split; [reflexivity | cbn; auto 6].
Qed.

Lemma ExecuteFuzz_too_short (t : CosmosModule.t) (input : list byte) :
  snd (CosmosModule.ExecuteFuzz t input) = Some "input too short"
  <-> len input < 4.
Proof.
  unfold CosmosModule.ExecuteFuzz.
  destruct (Z.ltb_spec (len input) 4) as [Hlt | Hge]; [tauto|].
  split; [|lia].
  destruct (_ =? len (CosmosModule.Handlers t)); [discriminate|].
  pose proof (Z.mod_pos_bound (nth 1 input 0) 5 ltac:(lia)) as Hm.
  assert (Hc : nth 1 input 0 mod 5 = 0 \/ nth 1 input 0 mod 5 = 1
               \/ nth 1 input 0 mod 5 = 2 \/ nth 1 input 0 mod 5 = 3
               \/ nth 1 input 0 mod 5 = 4) by lia.
  destruct Hc as [-> | [-> | [-> | [-> | ->]]]]; discriminate.
Qed.

(** X11: the answer [input too short] is given to the inputs of fewer than
    4 bytes and to no other. *)
Theorem input_too_short_iff (t : CosmosModule.t) (input : list byte) :
  snd (CosmosModule.ExecuteFuzz t input) = Some "input too short"
  <-> len input < 4.
Proof. exact (ExecuteFuzz_too_short t input). Qed.

Lemma ExecuteFuzz_bare (t : CosmosModule.t) (input : list byte) :
  CosmosModule.Handlers t = [] ->
  exists e,
    CosmosModule.ExecuteFuzz t input = (None, Some e)
    /\ unexpected (Some e) = true.
Proof.
  intros Hh. unfold CosmosModule.ExecuteFuzz. rewrite Hh.
  destruct (len input <? 4); [eexists; split; reflexivity|].
  change (len [] + 1) with 1. rewrite Z.rem_1_r.
  eexists; split; reflexivity.
Qed.

(** X12: a module in which no handler was discovered rejects every input:
    the answer is an error that no validator takes for benign. *)
Theorem ExecuteFuzz_no_handlers (t : CosmosModule.t) (input : list byte) :
  CosmosModule.Handlers t = [] ->
  exists e,
    CosmosModule.ExecuteFuzz t input = (None, Some e)
    /\ unexpected (Some e) = true.
Proof. exact (ExecuteFuzz_bare t input). Qed.

Lemma ExecuteFuzz_no_handlers_witness :
  exists e,
    CosmosModule.ExecuteFuzz (CosmosModule.Make "x/none" "none" [] [])
      [1; 0; 0; 0; 0] = (None, Some e)
    /\ unexpected (Some e) = true.
Proof.
  exact (ExecuteFuzz_no_handlers (CosmosModule.Make "x/none" "none" [] [])
           [1; 0; 0; 0; 0] eq_refl).
Defined.

Section TooShort.
Context {R : Type} `{RandSource R}.

(** X13: among the inputs that the four mutators generate, only the empty
    and the one-byte input of BoundaryValue (cases 0 and 1 of its switch)
    are answered [input too short]. *)
Theorem too_short_only_from_boundary (t : CosmosModule.t) (r : R) :
  (forall m, snd (CosmosModule.ExecuteFuzz t
                    (fst (RandomTxMutator.GenerateFuzzInput m r)))
             <> Some "input too short")
  /\ (forall m, snd (CosmosModule.ExecuteFuzz t
                       (fst (fst (StatefulMutator.GenerateFuzzInput m r))))
                <> Some "input too short")
  /\ snd (CosmosModule.ExecuteFuzz t
            (fst (SpecialCasesMutator.GenerateFuzzInput SpecialCasesMutator.New r)))
     <> Some "input too short"
  /\ (forall m, snd (CosmosModule.ExecuteFuzz t
                       (fst (BoundaryValueMutator.GenerateFuzzInput m r)))
                = Some "input too short"
                <-> fst (Intn 6 r) = 0 \/ fst (Intn 6 r) = 1).
Proof.
  split_and!.
  - intros m. rewrite ExecuteFuzz_too_short.
    rewrite RandomTx_length. pose proof (Intn_range 4080 r ltac:(lia)). lia.
  - intros m. rewrite ExecuteFuzz_too_short.
    destruct (Stateful_input_parts m r) as (op & header & tail & -> & _ & Hh & Ht).
    rewrite !len_app. change (len [op]) with 1.
    pose proof (len_nonneg (StatefulMutator.currentState m)). lia.
  - rewrite ExecuteFuzz_too_short.
    pose proof (SpecialCases_input_parts r) as Hs. cbv zeta in Hs.
    destruct (Intn 100 r) as [p r1]. destruct (Intn 7 r1) as [i r2].
    destruct (Intn 7 r2) as [j r3].
    destruct Hs as (base & padding & -> & Hp & Hb & _).
    rewrite len_app. lia.
  - intros m. rewrite ExecuteFuzz_too_short.
    pose proof (BoundaryValue_cases m r) as Hc. cbv zeta in Hc.
    set (i := fst (BoundaryValueMutator.GenerateFuzzInput m r)) in *.
    destruct Hc as [[Ht Hi] | [[Ht (b & Hb & Hi)] | [[Ht Hi] | [[Ht (n & Hn & Hi)]
                   | [[Ht Hi] | [Ht (k & Hk & Hl)]]]]]].
    + rewrite Hi, Ht. unfold len; simpl length. split; [auto | lia].
    + rewrite Hi, Ht. unfold len; simpl length. split; [auto | lia].
    + rewrite Hi, Ht. unfold len; simpl length. split; [lia | intros [? | ?]; lia].
    + rewrite Hi, Ht, len_repeat. split; [lia | intros [? | ?]; lia].
    + rewrite Hi, Ht. unfold len; simpl length. split; [lia | intros [? | ?]; lia].
    + rewrite Hl, Ht. unfold MiB. split; [lia | intros [? | ?]; lia].
Qed.

End TooShort.

(** ** The engine *)

(** The registry of [registerDefaultMutators], with the stateful mutator
    in the state [s]. *)
Definition registry (special : bool) (s : StatefulMutator.t) : list Mutator :=
  OfRandomTx RandomTxMutator.New
  :: OfBoundaryValue BoundaryValueMutator.New
  :: OfStateful s
  :: (if special then [OfSpecialCases SpecialCasesMutator.New] else []).

(** The [ID] prefix of the mutator registered at an index. *)
Definition prefix_of_choice (k : Z) : string :=
  match k with
  | 0 => "random_tx_"
  | 1 => "boundary_"
  | 2 => "stateful_"
  | _ => "special_"
  end.

(** What a round leaves in the report directory. *)
Definition files_after (dir : string) (e : Env) (v : option FuzzResult.t)
    : gmap string FuzzResult.t :=
  match v with
  | Some v =>
      if FuzzResult.Failed v && creatable e (failure_path dir (FuzzResult.ID v))
      then <[failure_path dir (FuzzResult.ID v) := v]> (files e)
      else files e
  | None => files e
  end.

Section RoundDetail.
Context {R : Type} `{RandSource R}.

Lemma registry_lookup (special : bool) (s : StatefulMutator.t) (k : Z) (mu : Mutator) :
  registry special s !! Z.to_nat k = Some mu -> 0 <= k ->
  id_prefix mu = prefix_of_choice k
  /\ 0 <= k < 3 + (if special then 1 else 0)
  /\ (k = 2 <-> mu = OfStateful s)
  /\ (k <> 2 -> forall s', registry special s' !! Z.to_nat k = Some mu).
Proof.
  intros Hl Hk. pose proof (lookup_lt_Some _ _ _ Hl) as Hlt.
  assert (Hr : 0 <= k < 3 + (if special then 1 else 0))
    by (destruct special; cbn in Hlt; lia).
  refine (conj _ (conj Hr (conj _ _))).
  all: assert (Hc : k = 0 \/ k = 1 \/ k = 2 \/ (k = 3 /\ special = true))
         by (destruct special; lia).
  all: destruct Hc as [-> | [-> | [-> | [-> ->]]]]; cbn in Hl; injection Hl as <-.
  all: try reflexivity.
  all: try (split; [lia | discriminate]).
  all: try tauto.
  all: try (intros _ s'; reflexivity).
  all: try (intros Hne; lia).
Qed.

(** One round of a run whose registry is the default one. *)
Lemma round_detail (t : CosmosModule.t) (f : FuzzEngine R) (e : Env)
    (special : bool) (s : StatefulMutator.t) :
  mutators f = registry special s ->
  exists r f' e' mu s',
    round t f e = Some (r, f', e')
    /\ 0 <= choice r < 3 + (if special then 1 else 0)
    /\ id_prefix mu = prefix_of_choice (choice r)
    /\ (output r, err r) = CosmosModule.ExecuteFuzz t (input r)
    /\ ValidateOutput (R := R) mu (output r) (err r) (clock e)
       = (verdict r, clock e')
    /\ mutators f' = registry special s'
    /\ (if choice r =? 2
        then mu = OfStateful s'
             /\ exists r1, fst (StatefulMutator.GenerateFuzzInput s r1) = (input r, s')
        else s' = s)
    /\ config f' = config f
    /\ summary f' = count_verdict (summary f) (verdict r)
    /\ files e' = files_after (Config.OutputDir (config f)) e (verdict r)
    /\ creatable e' = creatable e
    /\ LoadCosmosModule e' = LoadCosmosModule e.
Proof.
  intros Hreg. unfold round. rewrite Hreg.
  assert (Hpos : 0 < len (registry special s))
    by (unfold registry, len; destruct special; cbn; lia).
  pose proof (Intn_range (len (registry special s)) (rand f) Hpos) as Hk.
  destruct (Intn (len (registry special s)) (rand f)) as [k r1]; cbn [fst] in Hk.
  destruct (lookup_lt_is_Some_2 (registry special s) (Z.to_nat k)) as [mu Hmu];
    [unfold len in Hk; lia|].
  rewrite Hmu.
  destruct (registry_lookup special s k mu Hmu ltac:(lia)) as (Hpre & Hrange & H2 & Hother).
  (* the generation and the registry *)
  assert (Hgen : exists inp mu' s',
            GenerateFuzzInput mu r1 = ((inp, mu'), snd (GenerateFuzzInput mu r1))
            /\ id_prefix mu' = id_prefix mu
            /\ <[Z.to_nat k := mu']> (registry special s) = registry special s'
            /\ (if k =? 2
                then mu' = OfStateful s'
                     /\ fst (StatefulMutator.GenerateFuzzInput s r1) = (inp, s')
                else s' = s)).
  { destruct (Z.eqb_spec k 2) as [-> | Hne].
    - assert (Hs : mu = OfStateful s) by now apply H2. subst mu.
      cbn [GenerateFuzzInput Mutator_StateMutator Stateful_StateMutator].
      unfold bind, ret.
      destruct (StatefulMutator.GenerateFuzzInput s r1) as [[inp s'] r2].
      exists inp, (OfStateful s'), s'. cbn [fst snd]. split_and!; auto.
    - assert (Hm : exists inp, GenerateFuzzInput mu r1
                               = ((inp, mu), snd (GenerateFuzzInput mu r1))).
      { destruct mu as [m | m | m | m];
          cbn [GenerateFuzzInput Mutator_StateMutator RandomTx_StateMutator
               BoundaryValue_StateMutator SpecialCases_StateMutator];
          unfold bind, ret.
        - destruct (RandomTxMutator.GenerateFuzzInput m r1); eauto.
        - destruct (BoundaryValueMutator.GenerateFuzzInput m r1); eauto.
        - exfalso. apply Hne, H2. f_equal.
          unfold registry in Hmu.
          assert (Hc : k = 0 \/ k = 1 \/ k = 2 \/ 3 <= k) by lia.
          destruct Hc as [-> | [-> | [-> | Hge]]]; try discriminate Hmu; [lia|].
          destruct special.
          + assert (Hk3 : k = 3 \/ 4 <= k) by lia.
            destruct Hk3 as [-> | ?]; [discriminate Hmu|].
            apply lookup_lt_Some in Hmu. cbn in Hmu. lia.
          + apply lookup_lt_Some in Hmu. cbn in Hmu. lia.
        - destruct (SpecialCasesMutator.GenerateFuzzInput m r1); eauto. }
      destruct Hm as (inp & Hm). exists inp, mu, s. split_and!; auto.
      apply list_insert_id, Hmu. }
  destruct Hgen as (inp & mu' & s' & Hg & Hpre' & Hins & Hst).
  rewrite Hg. set (r2 := snd (GenerateFuzzInput mu r1)). rewrite Hins.
  destruct (CosmosModule.ExecuteFuzz t inp) as [out er] eqn:Hex.
  unfold with_clock.
  destruct (ValidateOutput mu' out er (clock e)) as [result c'] eqn:Hv.
  assert (Hst' : if k =? 2
                 then mu' = OfStateful s'
                      /\ exists r1, fst (StatefulMutator.GenerateFuzzInput s r1)
                                    = (inp, s')
                 else s' = s)
    by (destruct (k =? 2); [destruct Hst; split; eauto | exact Hst]).
  destruct result as [v|].
  - unfold trackResult.
    destruct (FuzzResult.Failed v) eqn:Hfailed; run_st.
    + unfold recordFailure.
      cbn [config files creatable clock LoadCosmosModule].
      destruct (creatable e _) eqn:Hcr; cbn [fst snd];
        exists (MkRound k inp out er (Some v)); do 2 eexists; exists mu', s';
        (split; [reflexivity|]);
        cbn [choice input output err verdict config mutators summary files
             creatable clock LoadCosmosModule files_after];
        rewrite Hfailed, ?Hcr; cbn [andb];
        split_and!; auto; try lia; try congruence;
        unfold count_verdict; rewrite Hfailed; reflexivity.
    + exists (MkRound k inp out er (Some v)); do 2 eexists; exists mu', s'.
      split; [reflexivity|].
      cbn [choice input output err verdict config mutators summary files
           creatable clock LoadCosmosModule files_after].
      rewrite Hfailed. cbn [andb].
      split_and!; auto; try lia; try congruence.
      unfold count_verdict. rewrite Hfailed. reflexivity.
  - exists (MkRound k inp out er None); do 2 eexists; exists mu', s'.
    split; [reflexivity|].
    cbn [choice input output err verdict config mutators summary files
         creatable clock LoadCosmosModule files_after].
    split_and!; auto; try lia; try congruence.
Qed.

End RoundDetail.

(** The inputs of the rounds that picked the stateful mutator. *)
Definition stateful_inputs (rs : list Round) : list (list byte) :=
  map input (filter (fun r => choice r = 2) rs).

(** The verdicts of a run, in order. *)
Definition verdicts (rs : list Round) : list FuzzResult.t := omap verdict rs.

(** The report directory after [recordFailure] on each verdict in turn. *)
Definition files_fold (dir : string) (creatable : string -> bool)
    (vs : list FuzzResult.t) (fs : gmap string FuzzResult.t)
    : gmap string FuzzResult.t :=
  fold_left
    (fun fs v =>
       if creatable (failure_path dir (FuzzResult.ID v))
       then <[failure_path dir (FuzzResult.ID v) := v]> fs else fs)
    vs fs.

(** What is known of each round of a run. *)
Definition round_ok (t : CosmosModule.t) (special : bool) (r : Round) : Prop :=
  0 <= choice r < 3 + (if special then 1 else 0)
  /\ (output r, err r) = CosmosModule.ExecuteFuzz t (input r)
  /\ (verdict r = None <->
      unexpected (err r) = false /\ is_indicator (output r) = false)
  /\ forall v, verdict r = Some v ->
       one_flag v
       /\ (FuzzResult.Crashed v = true -> unexpected (err r) = true)
       /\ (FuzzResult.StateInconsistency v = true ->
           output r = Some (bytes_of_string "state_inconsistent"))
       /\ (FuzzResult.ConsensusFailure v = true ->
           output r = Some (bytes_of_string "consensus_failure"))
       /\ (choice r <> 2 -> FuzzResult.Input v = [])
       /\ exists tm : Z,
            FuzzResult.ID v = prefix_of_choice (choice r) +:+ pretty tm.

Section RoundsDetail.
Context {R : Type} `{RandSource R}.

Lemma Mutator_verdict_None (mu : Mutator) output err c :
  fst (ValidateOutput (R := R) mu output err c) = None
  <-> unexpected err = false /\ is_indicator output = false.
Proof.
  split.
  - unfold is_indicator. unfold_validator mu.
    all: destruct (unexpected err); try validator_cases output; run_st;
      try discriminate; auto.
  - intros [Hu Hi]. now rewrite Mutator_silent.
Qed.

Lemma Mutator_flag_cause (mu : Mutator) output err c v :
  fst (ValidateOutput (R := R) mu output err c) = Some v ->
  (FuzzResult.StateInconsistency v = true ->
   output = Some (bytes_of_string "state_inconsistent"))
  /\ (FuzzResult.ConsensusFailure v = true ->
      output = Some (bytes_of_string "consensus_failure")).
Proof.
  unfold_validator mu.
  all: destruct (unexpected err); destruct output as [o|]; unfold nonempty;
    try destruct (0 <? len o);
    try (destruct (bytes_eq_string o "state_inconsistent") eqn:Hsi;
         [|destruct (bytes_eq_string o "consensus_failure") eqn:Hcf]);
    run_st; intros [= <-] || discriminate; cbn;
    split; intros Hflag; try discriminate Hflag; f_equal;
    unfold bytes_eq_string in *;
    first [apply bool_decide_eq_true in Hsi; exact Hsi
          |apply bool_decide_eq_true in Hcf; exact Hcf].
Qed.

Lemma round_detail_ok (t : CosmosModule.t) (special : bool) (r : Round)
    (mu : Mutator) (c c' : Clock) :
  0 <= choice r < 3 + (if special then 1 else 0) ->
  id_prefix mu = prefix_of_choice (choice r) ->
  (output r, err r) = CosmosModule.ExecuteFuzz t (input r) ->
  ValidateOutput (R := R) mu (output r) (err r) c = (verdict r, c') ->
  round_ok t special r
  /\ match verdict r with
     | Some v => FuzzResult.ID v
                 = prefix_of_choice (choice r) +:+ pretty (readings c (ticks c))
                 /\ c' = MkClock (readings c) (S (ticks c))
     | None => c' = c
     end.
Proof.
  intros Hrange Hpre Hex Hv.
  pose proof (Mutator_ID mu (output r) (err r) c) as Hid.
  pose proof (Mutator_verdict_None mu (output r) (err r) c) as Hnone.
  rewrite Hv in Hid, Hnone. cbn [fst] in Hnone. split.
  - unfold round_ok. refine (conj Hrange (conj Hex (conj Hnone _))).
    intros v Hvr.
    pose proof (Mutator_one_flag mu (output r) (err r) c v) as Hone.
    pose proof (Mutator_evidence mu (output r) (err r) c v) as Hev.
    rewrite Hv in Hone, Hev. cbn [fst] in *.
    pose proof (Mutator_flag_cause mu (output r) (err r) c v) as Hfc.
    rewrite Hv in Hfc. destruct (Hfc Hvr) as [Hsi Hcf].
    specialize (Hone Hvr). destruct (Hev Hvr) as [Hin Hcr].
    rewrite Hvr, Hpre in Hid.
    split_and!; auto; [| |exists (readings c (ticks c)); apply Hid].
    + intros Hc. destruct (Hcr Hc) as (e0 & _ & Hu & _). exact Hu.
    + intros Hne. rewrite Hin. destruct mu; try reflexivity.
      cbn in Hpre. exfalso. apply Hne.
      destruct (choice r) as [|p|p]; try discriminate Hpre.
      destruct p as [[|[]|]|[|[]|]|]; try discriminate Hpre; reflexivity.
  - destruct (verdict r); [|exact Hid]. now rewrite <- Hpre.
Qed.

Lemma round_history (s s' : StatefulMutator.t) (r1 : R) (inp : list byte) :
  fst (StatefulMutator.GenerateFuzzInput s r1) = (inp, s') ->
  StatefulMutator.currentState s'
  = last_n 64 (StatefulMutator.currentState s ++ [hd 0 inp]).
Proof.
  intros Hg. pose proof (Stateful_step s r1) as Hs. rewrite Hg in Hs.
  destruct Hs as (b & rest & -> & _ & _ & Hcs). exact Hcs.
Qed.

Lemma last_n_length {A : Type} (n : nat) (l : list A) :
  (length (last_n n l) <= n)%nat.
Proof. unfold last_n. rewrite length_drop. lia. Qed.

Lemma last_n_id {A : Type} (n : nat) (l : list A) :
  (length l <= n)%nat -> last_n n l = l.
Proof.
  intros Hl. unfold last_n. now replace (length l - n)%nat with 0%nat by lia.
Qed.

(** The rounds of a run whose registry is the default one. *)
Lemma rounds_detail (n : nat) (t : CosmosModule.t) (f : FuzzEngine R) (e : Env)
    (special : bool) (s : StatefulMutator.t) :
  mutators f = registry special s ->
  exists rs f' e' s',
    rounds n t f e = Some (rs, f', e')
    /\ length rs = n
    /\ mutators f' = registry special s'
    /\ config f' = config f
    /\ summary f' = fold_left count_verdict (map verdict rs) (summary f)
    /\ Forall (round_ok t special) rs
    /\ last_n 64 (StatefulMutator.currentState s')
       = last_n 64 (StatefulMutator.currentState s
                    ++ map (hd 0) (stateful_inputs rs))
    /\ ((length (StatefulMutator.currentState s) <= 64)%nat ->
        (length (StatefulMutator.currentState s') <= 64)%nat)
    /\ files e'
       = files_fold (Config.OutputDir (config f)) (creatable e) (verdicts rs)
           (files e)
    /\ creatable e' = creatable e
    /\ LoadCosmosModule e' = LoadCosmosModule e
    /\ readings (clock e') = readings (clock e)
    /\ ticks (clock e') = (ticks (clock e) + length (verdicts rs))%nat
    /\ (forall i v, verdicts rs !! i = Some v ->
        exists k, 0 <= k < 3 + (if special then 1 else 0)
          /\ FuzzResult.ID v
             = prefix_of_choice k
               +:+ pretty (readings (clock e) (ticks (clock e) + i)%nat))
    /\ (forall i r v, rs !! i = Some r -> choice r = 2 -> verdict r = Some v ->
        FuzzResult.Input v
        = last_n 64 (StatefulMutator.currentState s
                     ++ map (hd 0) (stateful_inputs (take (S i) rs)))).
Proof.
  revert f e s. induction n as [|n IH]; intros f e s Hreg.
  - exists [], f, e, s. cbn. rewrite app_nil_r.
    split_and!; auto.
    + intros i v Hi. rewrite lookup_nil in Hi. discriminate.
    + intros i r v Hi. rewrite lookup_nil in Hi. discriminate.
  - destruct (round_detail t f e special s Hreg)
      as (r & f1 & e1 & mu & s1 & Hr & Hrange & Hpre & Hex & Hv & Hreg1 & Hst
          & Hcfg1 & Hsum1 & Hfiles1 & Hcr1 & Hload1).
    destruct (round_detail_ok t special r mu (clock e) (clock e1)
                Hrange Hpre Hex Hv) as [Hok Hclock].
    destruct (IH f1 e1 s1 Hreg1)
      as (rs & f' & e' & s' & Hrs & Hlen & Hreg' & Hcfg' & Hsum' & Hall & Hhist
          & Hbound & Hfiles' & Hcr' & Hload' & Hread' & Hticks' & Hids & Hrep).
    exists (r :: rs), f', e', s'. cbn [rounds]. rewrite Hr, Hrs.
    assert (Hs1 : StatefulMutator.currentState s1
                  = if choice r =? 2
                    then last_n 64 (StatefulMutator.currentState s ++ [hd 0 (input r)])
                    else StatefulMutator.currentState s).
    { destruct (choice r =? 2); [|now subst s1].
      destruct Hst as (_ & r1 & Hg). eapply round_history, Hg. }
    split_and!; auto.
    + cbn. now rewrite Hlen.
    + congruence.
    + cbn [map fold_left]. now rewrite Hsum', Hsum1.
    + rewrite Hhist, Hs1. unfold stateful_inputs.
      destruct (Z.eqb_spec (choice r) 2) as [H2 | H2].
      * rewrite filter_cons_True by exact H2. cbn [map].
        rewrite last_n_app_last_n, <- app_assoc. reflexivity.
      * rewrite filter_cons_False by exact H2. reflexivity.
    + intros Hle. apply Hbound. rewrite Hs1.
      destruct (choice r =? 2); [apply last_n_length | exact Hle].
    + rewrite Hfiles', Hcr1, Hcfg1, Hfiles1. unfold verdicts, files_after.
      cbn [omap list_omap]. destruct Hok as (_ & _ & _ & Hv1).
      destruct (verdict r) as [v|]; [|reflexivity].
      destruct (Hv1 v eq_refl) as ([Hf _] & _). rewrite Hf. reflexivity.
    + congruence.
    + congruence.
    + rewrite Hread'.
      destruct (verdict r); [destruct Hclock as [_ ->]|rewrite Hclock]; reflexivity.
    + rewrite Hticks'. unfold verdicts. cbn [omap list_omap].
      destruct (verdict r); [destruct Hclock as [_ ->]|rewrite Hclock]; cbn; lia.
    + unfold verdicts. cbn [omap list_omap]. intros i v Hi.
      destruct (verdict r) as [v0|] eqn:Hvr.
      * destruct Hclock as [Hid Hc1].
        destruct i as [|i]; cbn in Hi.
        -- injection Hi as ->. exists (choice r). split; [exact Hrange|].
           rewrite Hid. now rewrite Nat.add_0_r.
        -- destruct (Hids i v Hi) as (k & Hk & Hidk). exists k. split; [exact Hk|].
           rewrite Hidk, Hc1. cbn [readings ticks].
           now replace (S (ticks (clock e)) + i)%nat with (ticks (clock e) + S i)%nat by lia.
      * cbn in Hi. rewrite Hclock in Hids. apply Hids, Hi.
    + intros i r0 v Hi H2 Hvr. destruct i as [|i]; cbn in Hi.
      * injection Hi as <-. unfold stateful_inputs.
        change (take 1 (r :: rs)) with [r].
        rewrite filter_cons_True by exact H2. rewrite filter_nil. cbn [map].
        rewrite <- (Z.eqb_eq (choice r) 2) in H2. rewrite H2 in Hs1, Hst.
        destruct Hst as (-> & _). rewrite <- Hs1.
        pose proof (Mutator_evidence (OfStateful s1) (output r) (err r) (clock e) v)
          as Hev.
        rewrite Hv in Hev. now destruct (Hev Hvr) as [-> _].
      * rewrite (Hrep i r0 v Hi H2 Hvr), Hs1. unfold stateful_inputs.
        change (take (S (S i)) (r :: rs)) with (r :: take (S i) rs). destruct (Z.eqb_spec (choice r) 2) as [Hc | Hc].
        -- rewrite filter_cons_True by exact Hc. cbn [map].
           rewrite last_n_app_last_n, <- app_assoc. reflexivity.
        -- rewrite filter_cons_False by exact Hc. reflexivity.
Qed.

End RoundsDetail.

(** *** Names of reports *)

Lemma string_length_app (a b : string) :
  String.length (a +:+ b) = (String.length a + String.length b)%nat.
Proof. induction a as [|x a IH]; simpl; [reflexivity | now rewrite IH]. Qed.

Lemma string_app_inj_r (a b c : string) : a +:+ c = b +:+ c -> a = b.
Proof.
  revert b. induction a as [|x a IH]; intros [|y b] Heq; simpl in Heq.
  - reflexivity.
  - apply (f_equal String.length) in Heq.
    rewrite ?string_length_app in Heq. simpl in Heq.
    rewrite ?string_length_app in Heq. lia.
  - apply (f_equal String.length) in Heq.
    rewrite ?string_length_app in Heq. simpl in Heq.
    rewrite ?string_length_app in Heq. lia.
  - injection Heq as -> Heq. f_equal. now apply IH.
Qed.

Lemma failure_path_inj (dir id1 id2 : string) :
  failure_path dir id1 = failure_path dir id2 -> id1 = id2.
Proof.
  unfold failure_path. intros Heq.
  apply (inj (String.app dir)) in Heq. cbn in Heq.
  injection Heq as Heq. now apply (string_app_inj_r id1 id2 ".json").
Qed.

Lemma prefix_cases (k : Z) :
  prefix_of_choice k = "random_tx_" \/ prefix_of_choice k = "boundary_"
  \/ prefix_of_choice k = "stateful_" \/ prefix_of_choice k = "special_".
Proof.
  destruct k as [|p|p]; cbn; auto.
  destruct p as [[]|[]|]; cbn; auto.
Qed.

Lemma ID_inj (k1 k2 t1 t2 : Z) :
  prefix_of_choice k1 +:+ pretty t1 = prefix_of_choice k2 +:+ pretty t2 ->
  t1 = t2.
Proof.
  intros Heq.
  destruct (prefix_cases k1) as [H1 | [H1 | [H1 | H1]]];
    destruct (prefix_cases k2) as [H2 | [H2 | [H2 | H2]]];
    rewrite H1, H2 in Heq;
    first [ apply (inj (String.app _)) in Heq; now apply (inj pretty) in Heq
          | exfalso; cbn [String.app String.append] in Heq; discriminate Heq ].
Qed.

(** *** The report directory *)

Lemma files_fold_keeps dir cr vs (fs : gmap string FuzzResult.t) name :
  is_Some (fs !! name) -> is_Some (files_fold dir cr vs fs !! name).
Proof.
  revert fs. induction vs as [|w vs IH]; intros fs Hs; [exact Hs|].
  unfold files_fold. cbn [fold_left]. apply IH.
  destruct (cr _); [|exact Hs].
  apply lookup_insert_is_Some. destruct (decide (failure_path dir (FuzzResult.ID w) = name));
    auto.
Qed.

Lemma files_fold_origin dir cr vs (fs : gmap string FuzzResult.t) name v :
  files_fold dir cr vs fs !! name = Some v ->
  fs !! name = Some v
  \/ (exists i, vs !! i = Some v)
     /\ name = failure_path dir (FuzzResult.ID v) /\ cr name = true.
Proof.
  revert fs. induction vs as [|w vs IH]; intros fs Hl; [left; exact Hl|].
  unfold files_fold in Hl. cbn [fold_left] in Hl. apply IH in Hl.
  destruct Hl as [Hl | ([i Hi] & Hn & Hc)].
  - destruct (cr (failure_path dir (FuzzResult.ID w))) eqn:Hcr; [|left; exact Hl].
    apply lookup_insert_Some in Hl as [[<- <-] | [_ Hl]]; [|left; exact Hl].
    right. split_and!; auto. exists 0%nat. reflexivity.
  - right. split_and!; auto. exists (S i). exact Hi.
Qed.

Lemma files_fold_snoc dir cr vs w (fs : gmap string FuzzResult.t) :
  files_fold dir cr (vs ++ [w]) fs
  = if cr (failure_path dir (FuzzResult.ID w))
    then <[failure_path dir (FuzzResult.ID w) := w]> (files_fold dir cr vs fs)
    else files_fold dir cr vs fs.
Proof. unfold files_fold. now rewrite fold_left_app. Qed.

Lemma files_fold_lookup dir cr vs (fs : gmap string FuzzResult.t) :
  (forall name, cr name = true) ->
  (forall i j v w, vs !! i = Some v -> vs !! j = Some w ->
                   FuzzResult.ID v = FuzzResult.ID w -> i = j) ->
  forall i v, vs !! i = Some v ->
    files_fold dir cr vs fs !! failure_path dir (FuzzResult.ID v) = Some v.
Proof.
  intros Hcr. induction vs as [|w vs IH] using rev_ind; intros Hinj i v Hi.
  - rewrite lookup_nil in Hi. discriminate.
  - rewrite files_fold_snoc, Hcr.
    destruct (decide (i = length vs)) as [-> | Hne].
    + rewrite lookup_app_r, Nat.sub_diag in Hi by lia. injection Hi as ->.
      apply lookup_insert_eq.
    + assert (Hlt : (i < length vs)%nat).
      { apply lookup_lt_Some in Hi. rewrite length_app in Hi. cbn in Hi. lia. }
      rewrite lookup_app_l in Hi by exact Hlt.
      rewrite lookup_insert_ne.
      * apply IH with (i := i); [|exact Hi].
        intros a b x y Ha Hb. apply Hinj; rewrite lookup_app_l; auto;
          eapply lookup_lt_Some; eauto.
      * intros Hp. apply failure_path_inj in Hp. apply Hne.
        apply (Hinj i (length vs) v w); auto.
        -- rewrite lookup_app_l; auto.
        -- rewrite lookup_app_r, Nat.sub_diag by lia. reflexivity.
Qed.

(** *** The counters *)

(** The number of verdicts of a run that have a flag set. *)
Definition count_flag (p : FuzzResult.t -> bool) (rs : list Round) : Z :=
  len (List.filter p (verdicts rs)).

Definition counters_bounded (s : FuzzSummary.t) : Prop :=
  0 <= FuzzSummary.Failed s <= FuzzSummary.TotalTests s
  /\ 0 <= FuzzSummary.StateInconsistencies s <= FuzzSummary.TotalTests s
  /\ 0 <= FuzzSummary.ConsensusFailures s <= FuzzSummary.TotalTests s
  /\ 0 <= FuzzSummary.Crashes s <= FuzzSummary.TotalTests s.

(** What a verdict adds to the counter of a flag. *)
Definition bump_of (p : FuzzResult.t -> bool) (v : option FuzzResult.t) : Z :=
  match v with
  | Some x => if p x then 1 else 0
  | None => 0
  end.

Lemma count_verdict_step (s : FuzzSummary.t) (v : option FuzzResult.t) :
  counters_bounded s ->
  FuzzSummary.TotalTests s < 2 ^ 63 - 1 ->
  (forall x, v = Some x -> FuzzResult.Failed x = true) ->
  let s' := count_verdict s v in
  FuzzSummary.TotalTests s' = FuzzSummary.TotalTests s + 1
  /\ FuzzSummary.Failed s' = FuzzSummary.Failed s + bump_of (fun _ => true) v
  /\ FuzzSummary.StateInconsistencies s'
     = FuzzSummary.StateInconsistencies s + bump_of FuzzResult.StateInconsistency v
  /\ FuzzSummary.ConsensusFailures s'
     = FuzzSummary.ConsensusFailures s + bump_of FuzzResult.ConsensusFailure v
  /\ FuzzSummary.Crashes s' = FuzzSummary.Crashes s + bump_of FuzzResult.Crashed v.
Proof.
  intros (Hf & Hsi & Hcf & Hcr) Hlt Hfailed.
  assert (Hi : forall y, 0 <= y <= FuzzSummary.TotalTests s -> int_incr y = y + 1)
    by (intros y Hy; apply int_incr_small; lia).
  unfold count_verdict, bump_of. destruct v as [x|].
  - rewrite (Hfailed x eq_refl).
    destruct (FuzzResult.StateInconsistency x), (FuzzResult.ConsensusFailure x),
      (FuzzResult.Crashed x); cbn; rewrite ?Hi by lia; lia.
  - cbn. rewrite ?Hi by lia. lia.
Qed.

Lemma bump_of_range (p : FuzzResult.t -> bool) (v : option FuzzResult.t) :
  0 <= bump_of p v <= 1.
Proof. unfold bump_of. destruct v as [x|]; [destruct (p x)|]; lia. Qed.

Lemma count_flag_cons (p : FuzzResult.t -> bool) (r : Round) (rs : list Round) :
  count_flag p (r :: rs) = bump_of p (verdict r) + count_flag p rs.
Proof.
  unfold count_flag, verdicts, bump_of. cbn [omap list_omap].
  destruct (verdict r) as [x|]; [|lia].
  cbn [List.filter]. destruct (p x); unfold len; simpl length; lia.
Qed.

Lemma count_flag_all (rs : list Round) :
  count_flag (fun _ => true) rs = len (verdicts rs).
Proof.
  unfold count_flag. f_equal. induction (verdicts rs) as [|v vs IH]; cbn; congruence.
Qed.

Lemma fold_counts (rs : list Round) (s : FuzzSummary.t) :
  counters_bounded s ->
  FuzzSummary.TotalTests s + len rs < 2 ^ 63 ->
  Forall (fun r => forall v, verdict r = Some v -> FuzzResult.Failed v = true) rs ->
  let s' := fold_left count_verdict (map verdict rs) s in
  FuzzSummary.TotalTests s' = FuzzSummary.TotalTests s + len rs
  /\ FuzzSummary.Failed s' = FuzzSummary.Failed s + len (verdicts rs)
  /\ FuzzSummary.StateInconsistencies s'
     = FuzzSummary.StateInconsistencies s
       + count_flag FuzzResult.StateInconsistency rs
  /\ FuzzSummary.ConsensusFailures s'
     = FuzzSummary.ConsensusFailures s + count_flag FuzzResult.ConsensusFailure rs
  /\ FuzzSummary.Crashes s'
     = FuzzSummary.Crashes s + count_flag FuzzResult.Crashed rs.
Proof.
  rewrite <- count_flag_all.
  revert s. induction rs as [|r rs IH]; intros s Hb Hlt Hall.
  - unfold count_flag, len; cbn. lia.
  - apply Forall_cons in Hall as [Hr Hall].
    unfold len in Hlt; simpl length in Hlt.
    destruct (count_verdict_step s (verdict r) Hb ltac:(lia) Hr)
      as (Ht & Hf & Hsi & Hcf & Hcr).
    pose proof (bump_of_range (fun _ => true) (verdict r)).
    pose proof (bump_of_range FuzzResult.StateInconsistency (verdict r)).
    pose proof (bump_of_range FuzzResult.ConsensusFailure (verdict r)).
    pose proof (bump_of_range FuzzResult.Crashed (verdict r)).
    cbn [map fold_left]. cbv zeta in IH.
    destruct (IH (count_verdict s (verdict r))) as (Ht' & Hf' & Hsi' & Hcf' & Hcr').
    + unfold counters_bounded in *. lia.
    + unfold len. lia.
    + exact Hall.
    + rewrite !count_flag_cons, Ht', Hf', Hsi', Hcf', Hcr', Ht, Hf, Hsi, Hcf, Hcr.
      unfold len; simpl length. lia.
Qed.

Section RunDetail.
Context {R : Type} `{RandSource R}.

Lemma fresh_engine (cfg : Config.t) (c : Clock) :
  let f := fst (NewFuzzerEngine (R := R) cfg c) in
  mutators f = registry (Config.SpecialCases cfg) StatefulMutator.New
  /\ config f = cfg
  /\ summary f = FuzzSummary.Make 0 0 0 0 0.
Proof.
  unfold NewFuzzerEngine, bind, ret, registerDefaultMutators, registry.
  destruct (Config.Seed cfg =? 0); cbn; destruct (Config.SpecialCases cfg); auto.
Qed.

(** A run of a fresh engine whose target loads. *)
Lemma Run_detail (cfg : Config.t) (c : Clock) (e : Env) (t : CosmosModule.t) :
  LoadCosmosModule e (Config.TargetPath cfg) (Config.ModuleName cfg) = inl t ->
  exists s rs f' e' s',
    Run (fst (NewFuzzerEngine (R := R) cfg c)) e = Returned s rs f' e'
    /\ length rs = Z.to_nat (Config.FuzzCount cfg)
    /\ mutators f' = registry (Config.SpecialCases cfg) s'
    /\ s = fold_left count_verdict (map verdict rs) (FuzzSummary.Make 0 0 0 0 0)
    /\ Forall (round_ok t (Config.SpecialCases cfg)) rs
    /\ StatefulMutator.currentState s' = last_n 64 (map (hd 0) (stateful_inputs rs))
    /\ files e'
       = files_fold (Config.OutputDir cfg) (creatable e) (verdicts rs) (files e)
    /\ creatable e' = creatable e
    /\ (forall i v, verdicts rs !! i = Some v ->
        exists k, 0 <= k < 3 + (if Config.SpecialCases cfg then 1 else 0)
          /\ FuzzResult.ID v
             = prefix_of_choice k
               +:+ pretty (readings (clock e) (ticks (clock e) + i)%nat))
    /\ (forall i r v, rs !! i = Some r -> choice r = 2 -> verdict r = Some v ->
        FuzzResult.Input v
        = last_n 64 (map (hd 0) (stateful_inputs (take (S i) rs)))).
Proof.
  intros Hload.
  destruct (fresh_engine cfg c) as (Hreg & Hcfg & Hsum).
  set (f := fst (NewFuzzerEngine cfg c)) in *.
  unfold Run. rewrite Hcfg, Hload.
  destruct (rounds_detail (Z.to_nat (Config.FuzzCount cfg)) t f e _ _ Hreg)
    as (rs & f' & e' & s' & Hrs & Hlen & Hreg' & _ & Hsum' & Hall & Hhist
        & Hbound & Hfiles' & Hcr' & _ & _ & _ & Hids & Hrep).
  rewrite Hrs. exists (summary f'), rs, f', e', s'.
  split_and!; auto.
  - now rewrite Hsum', Hsum.
  - rewrite <- (last_n_id 64 (StatefulMutator.currentState s')), Hhist; [reflexivity|].
    apply Hbound. apply Nat.le_0_l.
  - now rewrite Hfiles', Hcfg.
Qed.

End RunDetail.

(** ** Runs of a fresh engine *)

(** A module tree in which no handler was discovered. *)
Definition a_bare_module : CosmosModule.t :=
  CosmosModule.Make "x/none" "none" [] ["Params"].

Definition a_bare_env : Env :=
  MkEnv a_clock ∅ (fun _ => true) (fun _ _ => inl a_bare_module).

(** The verdict of a crash, and no other flag. *)
Definition crashed (r : Round) : Prop :=
  exists v, verdict r = Some v /\ flags v = (true, false, false, true).

Lemma all_crashed (rs : list Round) :
  Forall crashed rs ->
  len (verdicts rs) = len rs /\ count_flag FuzzResult.Crashed rs = len rs
  /\ count_flag FuzzResult.StateInconsistency rs = 0
  /\ count_flag FuzzResult.ConsensusFailure rs = 0.
Proof.
  rewrite <- count_flag_all.
  induction 1 as [|r rs (v & Hv & Hf) Hall IH].
  - unfold count_flag, len. cbn. lia.
  - rewrite !count_flag_cons, Hv. unfold flags in Hf. injection Hf as _ Hsi Hcf Hcr.
    unfold bump_of. rewrite Hsi, Hcf, Hcr.
    unfold len in *; simpl length. lia.
Qed.

Section RunExtras.
Context {R : Type} `{RandSource R}.

(** X14: in every round of a run of a fresh engine the chosen index is
    that of a registered mutator (0..2, or 0..3 with special cases on), the
    answer is the adapter's answer to the round's input, there is no
    verdict exactly when the error is absent or benign and the output is
    not an indicator, a verdict has exactly one flag, which the answer
    explains, an [ID] that begins with the prefix of the chosen mutator,
    and a nil [Input] unless the stateful mutator was chosen. *)
Theorem Run_rounds (cfg : Config.t) (c : Clock) (e : Env) (t : CosmosModule.t) :
  LoadCosmosModule e (Config.TargetPath cfg) (Config.ModuleName cfg) = inl t ->
  exists s rs f' e',
    Run (fst (NewFuzzerEngine (R := R) cfg c)) e = Returned s rs f' e'
    /\ Forall (round_ok t (Config.SpecialCases cfg)) rs.
Proof.
  intros Hload.
  destruct (Run_detail cfg c e t Hload)
    as (s & rs & f' & e' & s' & Hrun & _ & _ & _ & Hall & _).
  exists s, rs, f', e'. auto.
Qed.

(** X15: the counters of the returned summary count the verdicts of the
    run: [Failed] all of them, and [StateInconsistencies],
    [ConsensusFailures] and [Crashes] those with the flag of that name. *)
Theorem Run_counters (cfg : Config.t) (c : Clock) (e : Env) (t : CosmosModule.t) :
  is_int (Config.FuzzCount cfg) ->
  LoadCosmosModule e (Config.TargetPath cfg) (Config.ModuleName cfg) = inl t ->
  exists s rs f' e',
    Run (fst (NewFuzzerEngine (R := R) cfg c)) e = Returned s rs f' e'
    /\ FuzzSummary.TotalTests s = len rs
    /\ FuzzSummary.Failed s = len (verdicts rs)
    /\ FuzzSummary.StateInconsistencies s
       = count_flag FuzzResult.StateInconsistency rs
    /\ FuzzSummary.ConsensusFailures s = count_flag FuzzResult.ConsensusFailure rs
    /\ FuzzSummary.Crashes s = count_flag FuzzResult.Crashed rs.
Proof.
  intros Hint Hload.
  destruct (Run_detail cfg c e t Hload)
    as (s & rs & f' & e' & s' & Hrun & Hlen & _ & Hs & Hall & _).
  exists s, rs, f', e'. split; [exact Hrun|].
  rewrite Hs.
  apply (fold_counts rs (FuzzSummary.Make 0 0 0 0 0)).
  - unfold counters_bounded. cbn. lia.
  - unfold len, is_int in *. rewrite Hlen. cbn. lia.
  - eapply Forall_impl; [exact Hall|].
    intros r (_ & _ & _ & Hv) v Hvr. now destruct (Hv v Hvr) as ([Hf _] & _).
Qed.

(** X16: the summary that a run returns does not depend on the clock, on
    the content of the report directory or on whether reports can be
    written: an error of [recordFailure] is only logged. *)
Theorem Run_summary_env (f : FuzzEngine R) (e1 e2 : Env) :
  LoadCosmosModule e1 (Config.TargetPath (config f)) (Config.ModuleName (config f))
  = LoadCosmosModule e2 (Config.TargetPath (config f)) (Config.ModuleName (config f)) ->
  returned_summary (Run f e1) = returned_summary (Run f e2).
Proof.
  intros Hload. unfold Run. rewrite Hload.
  destruct (LoadCosmosModule e2 _ _) as [t | msg]; [|reflexivity].
  pose proof (rounds_env (Z.to_nat (Config.FuzzCount (config f))) t f e1 e2) as Hr.
  destruct (rounds _ t f e1) as [[[rs1 g1] d1]|],
           (rounds _ t f e2) as [[[rs2 g2] d2]|]; try contradiction; [|reflexivity].
  destruct Hr as (_ & ->). reflexivity.
Qed.

(** X17: a run deletes no report: a name that was in the directory before
    is there afterwards.  A report found afterwards was there before, or
    is a verdict of the run, stored under [failure_<ID>.json] in the
    output directory, a name that could be created. *)
Theorem Run_reports (cfg : Config.t) (c : Clock) (e : Env) (t : CosmosModule.t) :
  LoadCosmosModule e (Config.TargetPath cfg) (Config.ModuleName cfg) = inl t ->
  exists s rs f' e',
    Run (fst (NewFuzzerEngine (R := R) cfg c)) e = Returned s rs f' e'
    /\ (forall name, is_Some (files e !! name) -> is_Some (files e' !! name))
    /\ (forall name v, files e' !! name = Some v ->
          files e !! name = Some v
          \/ (exists i, verdicts rs !! i = Some v)
             /\ name = failure_path (Config.OutputDir cfg) (FuzzResult.ID v)
             /\ creatable e name = true).
Proof.
  intros Hload.
  destruct (Run_detail cfg c e t Hload)
    as (s & rs & f' & e' & s' & Hrun & _ & _ & _ & _ & _ & Hfiles & _).
  exists s, rs, f', e'. rewrite Hfiles. split_and!; auto.
  - intros name. apply files_fold_keeps.
  - intros name v. apply files_fold_origin.
Qed.

(** X18: when the readings of the clock during the run are pairwise
    distinct and every report can be created, the verdicts of the run have
    pairwise distinct [ID]s and each is found in the directory afterwards
    under its own name: no report overwrites another. *)
Theorem Run_reports_distinct (cfg : Config.t) (c : Clock) (e : Env)
    (t : CosmosModule.t) :
  (forall i j : nat,
     readings (clock e) (ticks (clock e) + i)%nat
     = readings (clock e) (ticks (clock e) + j)%nat -> i = j) ->
  (forall name, creatable e name = true) ->
  LoadCosmosModule e (Config.TargetPath cfg) (Config.ModuleName cfg) = inl t ->
  exists s rs f' e',
    Run (fst (NewFuzzerEngine (R := R) cfg c)) e = Returned s rs f' e'
    /\ (forall i j v w, verdicts rs !! i = Some v -> verdicts rs !! j = Some w ->
          FuzzResult.ID v = FuzzResult.ID w -> i = j)
    /\ (forall i v, verdicts rs !! i = Some v ->
          files e' !! failure_path (Config.OutputDir cfg) (FuzzResult.ID v)
          = Some v).
Proof.
  intros Hinj Hcr Hload.
  destruct (Run_detail cfg c e t Hload)
    as (s & rs & f' & e' & s' & Hrun & _ & _ & _ & _ & _ & Hfiles & _ & Hids & _).
  exists s, rs, f', e'.
  assert (Hdistinct : forall i j v w,
            verdicts rs !! i = Some v -> verdicts rs !! j = Some w ->
            FuzzResult.ID v = FuzzResult.ID w -> i = j).
  { intros i j v w Hi Hj Heq.
    destruct (Hids i v Hi) as (k1 & _ & H1), (Hids j w Hj) as (k2 & _ & H2).
    rewrite H1, H2 in Heq. apply ID_inj in Heq. now apply Hinj. }
  split_and!; auto.
  rewrite Hfiles. now apply files_fold_lookup.
Qed.

(** X19: after a run the registry is the default one, the mutators other
    than the stateful one as they were registered, and the history of the
    stateful mutator is the first bytes of the inputs of the rounds that
    chose it, the last 64 of them when there were more. *)
Theorem Run_history (cfg : Config.t) (c : Clock) (e : Env) (t : CosmosModule.t) :
  LoadCosmosModule e (Config.TargetPath cfg) (Config.ModuleName cfg) = inl t ->
  exists s rs f' e' s',
    Run (fst (NewFuzzerEngine (R := R) cfg c)) e = Returned s rs f' e'
    /\ mutators f' = registry (Config.SpecialCases cfg) s'
    /\ StatefulMutator.currentState s'
       = last_n 64 (map (hd 0) (stateful_inputs rs)).
Proof.
  intros Hload.
  destruct (Run_detail cfg c e t Hload)
    as (s & rs & f' & e' & s' & Hrun & _ & Hreg & _ & _ & Hhist & _).
  exists s, rs, f', e', s'. auto.
Qed.

(** X20: the [Input] of a verdict of the stateful mutator is not the input
    that failed but the history at that point: the first bytes of the
    inputs of the stateful rounds up to and including this one, the last
    64 of them when there were more. *)
Theorem Run_stateful_reports (cfg : Config.t) (c : Clock) (e : Env)
    (t : CosmosModule.t) :
  LoadCosmosModule e (Config.TargetPath cfg) (Config.ModuleName cfg) = inl t ->
  exists s rs f' e',
    Run (fst (NewFuzzerEngine (R := R) cfg c)) e = Returned s rs f' e'
    /\ forall i r v, rs !! i = Some r -> choice r = 2 -> verdict r = Some v ->
         FuzzResult.Input v
         = last_n 64 (map (hd 0) (stateful_inputs (take (S i) rs))).
Proof.
  intros Hload.
  destruct (Run_detail cfg c e t Hload)
    as (s & rs & f' & e' & s' & Hrun & _ & _ & _ & _ & _ & _ & _ & _ & Hrep).
  exists s, rs, f', e'. auto.
Qed.

(** X21: against a module in which no handler was discovered every round
    ends in a crash verdict, whatever the inputs: the summary counts every
    test as failed and as a crash. *)
Theorem Run_no_handlers (cfg : Config.t) (c : Clock) (e : Env)
    (t : CosmosModule.t) :
  CosmosModule.Handlers t = [] ->
  is_int (Config.FuzzCount cfg) ->
  LoadCosmosModule e (Config.TargetPath cfg) (Config.ModuleName cfg) = inl t ->
  exists s rs f' e',
    Run (fst (NewFuzzerEngine (R := R) cfg c)) e = Returned s rs f' e'
    /\ Forall crashed rs
    /\ s = FuzzSummary.Make (Z.max 0 (Config.FuzzCount cfg))
             (Z.max 0 (Config.FuzzCount cfg)) 0 0 (Z.max 0 (Config.FuzzCount cfg)).
Proof.
  intros Hh Hint Hload.
  destruct (Run_detail cfg c e t Hload)
    as (s & rs & f' & e' & s' & Hrun & Hlen & _ & Hs & Hall & _).
  exists s, rs, f', e'. split; [exact Hrun|].
  assert (Hcrashed : Forall crashed rs).
  { eapply Forall_impl; [exact Hall|].
    intros r (_ & Hex & Hnone & Hv).
    destruct (ExecuteFuzz_bare t (input r) Hh) as (msg & Hans & Hu).
    rewrite Hans in Hex. injection Hex as Hout Herr.
    unfold crashed. destruct (verdict r) as [v|].
    - exists v. split; [reflexivity|].
      destruct (Hv v eq_refl) as ([Hf Hone] & _ & Hsi & Hcf & _).
      unfold flags. rewrite Hf.
      destruct Hone as [(Hx & _) | [(_ & Hx & _) | (-> & -> & ->)]];
        [apply Hsi in Hx; congruence | apply Hcf in Hx; congruence | reflexivity].
    - destruct (proj1 Hnone eq_refl) as [Hx _]. congruence. }
  split; [exact Hcrashed|].
  destruct (all_crashed rs Hcrashed) as (Hv & Hcr & Hsi & Hcf).
  destruct (fold_counts rs (FuzzSummary.Make 0 0 0 0 0)) as (Ht & Hf & Hsi' & Hcf' & Hcr').
  - unfold counters_bounded. cbn. lia.
  - unfold len, is_int in *. rewrite Hlen. cbn. lia.
  - eapply Forall_impl; [exact Hall|].
    intros r (_ & _ & _ & Hvv) v Hvr. now destruct (Hvv v Hvr) as ([Hf _] & _).
  - rewrite <- Hs in *. cbn in Ht, Hf, Hsi', Hcf', Hcr'.
    assert (Hl : len rs = Z.max 0 (Config.FuzzCount cfg))
      by (unfold len; rewrite Hlen; lia).
    destruct s as [tt ff si cf cr]. cbn in *. f_equal; lia.
Qed.

End RunExtras.

Lemma Run_rounds_witness :
  exists s rs f' e',
    Run (fst (NewFuzzerEngine (R := Tape.t) (a_config 3) a_clock)) an_env
    = Returned s rs f' e'
    /\ Forall (round_ok a_module (Config.SpecialCases (a_config 3))) rs.
Proof.
  exact (Run_rounds (R := Tape.t) (a_config 3) a_clock an_env a_module eq_refl).
Defined.

Lemma Run_counters_witness :
  exists s rs f' e',
    Run (fst (NewFuzzerEngine (R := Tape.t) (a_config 3) a_clock)) an_env
    = Returned s rs f' e'
    /\ FuzzSummary.TotalTests s = len rs
    /\ FuzzSummary.Failed s = len (verdicts rs)
    /\ FuzzSummary.StateInconsistencies s
       = count_flag FuzzResult.StateInconsistency rs
    /\ FuzzSummary.ConsensusFailures s = count_flag FuzzResult.ConsensusFailure rs
    /\ FuzzSummary.Crashes s = count_flag FuzzResult.Crashed rs.
Proof.
  assert (Hint : is_int 3) by (unfold is_int; lia).
  exact (Run_counters (R := Tape.t) (a_config 3) a_clock an_env a_module
           Hint eq_refl).
Defined.

Lemma Run_summary_env_witness :
  returned_summary
    (Run (fst (NewFuzzerEngine (R := Tape.t) (a_config 3) a_clock)) an_env)
  = returned_summary
      (Run (fst (NewFuzzerEngine (R := Tape.t) (a_config 3) a_clock)) another_env).
Proof.
  exact (Run_summary_env (fst (NewFuzzerEngine (R := Tape.t) (a_config 3) a_clock))
           an_env another_env eq_refl).
Defined.

Lemma Run_reports_witness :
  exists s rs f' e',
    Run (fst (NewFuzzerEngine (R := Tape.t) (a_config 3) a_clock)) an_env
    = Returned s rs f' e'
    /\ (forall name, is_Some (files an_env !! name) -> is_Some (files e' !! name))
    /\ (forall name v, files e' !! name = Some v ->
          files an_env !! name = Some v
          \/ (exists i, verdicts rs !! i = Some v)
             /\ name = failure_path (Config.OutputDir (a_config 3)) (FuzzResult.ID v)
             /\ creatable an_env name = true).
Proof.
  exact (Run_reports (R := Tape.t) (a_config 3) a_clock an_env a_module eq_refl).
Defined.

Lemma Run_reports_distinct_witness :
  exists s rs f' e',
    Run (fst (NewFuzzerEngine (R := Tape.t) (a_config 3) a_clock)) an_env
    = Returned s rs f' e'
    /\ (forall i j v w, verdicts rs !! i = Some v -> verdicts rs !! j = Some w ->
          FuzzResult.ID v = FuzzResult.ID w -> i = j)
    /\ (forall i v, verdicts rs !! i = Some v ->
          files e' !! failure_path (Config.OutputDir (a_config 3)) (FuzzResult.ID v)
          = Some v).
Proof.
  assert (Hinj : forall i j : nat,
            readings (clock an_env) (ticks (clock an_env) + i)%nat
            = readings (clock an_env) (ticks (clock an_env) + j)%nat -> i = j)
    by (intros i j Hij; cbn in Hij; lia).
  exact (Run_reports_distinct (R := Tape.t) (a_config 3) a_clock an_env a_module
           Hinj (fun _ => eq_refl) eq_refl).
Defined.

Lemma Run_history_witness :
  exists s rs f' e' s',
    Run (fst (NewFuzzerEngine (R := Tape.t) (a_config 3) a_clock)) an_env
    = Returned s rs f' e'
    /\ mutators f' = registry (Config.SpecialCases (a_config 3)) s'
    /\ StatefulMutator.currentState s'
       = last_n 64 (map (hd 0) (stateful_inputs rs)).
Proof.
  exact (Run_history (R := Tape.t) (a_config 3) a_clock an_env a_module eq_refl).
Defined.

Lemma Run_stateful_reports_witness :
  exists s rs f' e',
    Run (fst (NewFuzzerEngine (R := Tape.t) (a_config 3) a_clock)) an_env
    = Returned s rs f' e'
    /\ forall i r v, rs !! i = Some r -> choice r = 2 -> verdict r = Some v ->
         FuzzResult.Input v
         = last_n 64 (map (hd 0) (stateful_inputs (take (S i) rs))).
Proof.
  exact (Run_stateful_reports (R := Tape.t) (a_config 3) a_clock an_env a_module
           eq_refl).
Defined.

Lemma Run_no_handlers_witness :
  exists s rs f' e',
    Run (fst (NewFuzzerEngine (R := Tape.t) (a_config 3) a_clock)) a_bare_env
    = Returned s rs f' e'
    /\ Forall crashed rs
    /\ s = FuzzSummary.Make (Z.max 0 (Config.FuzzCount (a_config 3)))
             (Z.max 0 (Config.FuzzCount (a_config 3))) 0 0
             (Z.max 0 (Config.FuzzCount (a_config 3))).
Proof.
  assert (Hint : is_int (Config.FuzzCount (a_config 3)))
    by (unfold is_int; cbn; lia).
  exact (Run_no_handlers (R := Tape.t) (a_config 3) a_clock a_bare_env a_bare_module
           eq_refl Hint eq_refl).
Defined.

(** ** The stateful mutator in memory *)

Section MemExtras.
Local Open Scope nat_scope.
Context {R : Type} `{RandSource R} `{GrowSlice}.

(** After a call, the returned input lies within an array that the call
    allocated, and appending to the new history does not reach it. *)
Lemma GenerateFuzzInput_input (m : Mem.StatefulMutator.t) (h : Mem.Heap) (r : R) :
  in_bounds (Mem.StatefulMutator.currentState m) h ->
  let '((input, m'), (h', _)) := Mem.StatefulMutator.GenerateFuzzInput m (h, r) in
  in_bounds input h' /\ beyond input (Mem.StatefulMutator.currentState m')
  /\ in_bounds (Mem.StatefulMutator.currentState m') h'
  /\ length h <= Mem.arr input.
Proof.
  intros Hcs.
  pose proof (GenerateFuzzInput_locals m h r Hcs) as Hloc.
  destruct (StatefulMutator.GenerateFuzzInput (pure_of h m) r) as [[pinput pm'] pr'].
  destruct Hloc as (h1 & input & E1 & F1 & B1 & _ & ->). cbn zeta.
  set (cs := Mem.StatefulMutator.currentState m) in *.
  destruct (extends_keeps h h1 cs E1 Hcs) as [Hcs1 _].
  destruct (append_keeps input cs [nth 0 pinput 0%Z] h1 B1) as (Hin & _ & Hfar).
  { destruct Hcs as [[Hc Hs] | [Ha _]];
      [right; cbn; lia | left; right; left; lia]. }
  pose proof (append_in_bounds cs [nth 0 pinput 0%Z] h1 Hcs1) as Hcs2.
  cbn [Mem.StatefulMutator.currentState].
  fold (next_history (Mem.append cs [nth 0 pinput 0%Z] h1).1).
  split_and!; auto using next_history_beyond, next_history_in_bounds.
Qed.

(** X22: a call of [GenerateFuzzInput] on slices, whatever the growth
    policy of [append], returns an input with the bytes that the call on
    contents returns, leaves the history with the same bytes and the
    generator in the same state; the input lies in an array allocated
    during the call, and no array is freed. *)
Theorem Mem_GenerateFuzzInput_contents (m : Mem.StatefulMutator.t) (h : Mem.Heap)
    (r : R) :
  in_bounds (Mem.StatefulMutator.currentState m) h ->
  let '((input, m'), (h', r')) := Mem.StatefulMutator.GenerateFuzzInput m (h, r) in
  let '((pinput, pm'), pr') := StatefulMutator.GenerateFuzzInput (pure_of h m) r in
  Mem.load input h' = pinput /\ pure_of h' m' = pm' /\ r' = pr'
  /\ length h <= Mem.arr input /\ length h <= length h'.
Proof.
  intros Hcs.
  pose proof (GenerateFuzzInput_refines m h r Hcs) as Href.
  pose proof (GenerateFuzzInput_input m h r Hcs) as Hin.
  pose proof (GenerateFuzzInput_keeps _ m h r Hcs (beyond_self _) Hcs) as Hk.
  destruct (Mem.StatefulMutator.GenerateFuzzInput m (h, r)) as [[input m'] [h' r']].
  destruct (StatefulMutator.GenerateFuzzInput (pure_of h m) r) as [[pinput pm'] pr'].
  destruct Href as (? & ? & ?), Hin as (_ & _ & _ & ?), Hk as (_ & _ & _ & _ & ?).
  split_and!; auto.
Qed.

(** X23: an input returned by [GenerateFuzzInput] shares no array with the
    history: whatever calls follow, and whatever the rest of the program
    allocates in between, the bytes of the input stay as they were
    returned. *)
Theorem generated_input_survives (m : Mem.StatefulMutator.t) (h : Mem.Heap)
    (r : R) (later : list (list (list byte) * R)) :
  in_bounds (Mem.StatefulMutator.currentState m) h ->
  let '((input, m1), (h1, _)) := Mem.StatefulMutator.GenerateFuzzInput m (h, r) in
  let '(_, h') := Mem_calls later (m1, h1) in
  Mem.load input h' = Mem.load input h1.
Proof.
  intros Hcs.
  pose proof (GenerateFuzzInput_input m h r Hcs) as Hin.
  destruct (Mem.StatefulMutator.GenerateFuzzInput m (h, r)) as [[input m1] [h1 r1]].
  destruct Hin as (Hin & Hfar & Hcs1 & _).
  pose proof (Mem_calls_keeps input later m1 h1 Hin Hfar Hcs1) as Hk.
  destruct (Mem_calls later (m1, h1)) as [m' h'].
  now destruct Hk as (_ & ? & _).
Qed.

End MemExtras.

Definition a_new_mutator : Mem.StatefulMutator.t := fst (Mem.StatefulMutator.New []).
Definition a_new_heap : Mem.Heap := snd (Mem.StatefulMutator.New []).

Lemma a_new_mutator_in_bounds :
  in_bounds (Mem.StatefulMutator.currentState a_new_mutator) a_new_heap.
Proof. left. split; reflexivity. Defined.

Lemma Mem_GenerateFuzzInput_contents_witness :
  let '((input, m'), (h', r')) :=
    Mem.StatefulMutator.GenerateFuzzInput a_new_mutator (a_new_heap, history_draws1) in
  let '((pinput, pm'), pr') :=
    StatefulMutator.GenerateFuzzInput (pure_of a_new_heap a_new_mutator)
      history_draws1 in
  Mem.load input h' = pinput /\ pure_of h' m' = pm' /\ r' = pr'
  /\ (length a_new_heap <= Mem.arr input)%nat /\ (length a_new_heap <= length h')%nat.
Proof.
  exact (@Mem_GenerateFuzzInput_contents Tape.t TapeSource Doubling
           a_new_mutator a_new_heap history_draws1 a_new_mutator_in_bounds).
Defined.

Lemma generated_input_survives_witness :
  let '((input, m1), (h1, _)) :=
    Mem.StatefulMutator.GenerateFuzzInput a_new_mutator (a_new_heap, history_draws1) in
  let '(_, h') := Mem_calls calls_before (m1, h1) in
  Mem.load input h' = Mem.load input h1.
Proof.
  exact (@generated_input_survives Tape.t TapeSource Doubling
           a_new_mutator a_new_heap history_draws1 calls_before
           a_new_mutator_in_bounds).
Defined.

(** ** Loading the target *)

(** The line declares a method: its first [func ] is followed by the
    parenthesis of a receiver. *)
Definition is_method_line (line : string) : bool :=
  match Strings.Index line "func " with
  | Some n => Strings.HasPrefix (Strings.drop (n + 5) line) "("
  | None => false
  end.

Section StringsFacts.
Local Open Scope nat_scope.

Lemma HasPrefix_length (s p : string) :
  Strings.HasPrefix s p = true -> String.length p <= String.length s.
Proof.
  revert s. induction p as [|x p IH]; intros s Hp; [cbn; lia|].
  destruct s as [|y s]; [discriminate Hp|]. cbn in Hp.
  apply andb_true_iff in Hp as [_ Hp]. cbn. apply IH in Hp. lia.
Qed.

Lemma Index_bound (s sep : string) (m : nat) :
  Strings.Index s sep = Some m -> m + String.length sep <= String.length s.
Proof.
  revert m. induction s as [|c s IH]; intros m; cbn [Strings.Index].
  - destruct (Strings.HasPrefix "" sep) eqn:Hp; [|discriminate].
    intros [= <-]. now apply HasPrefix_length in Hp.
  - destruct (Strings.HasPrefix (String c s) sep) eqn:Hp.
    + intros [= <-]. now apply HasPrefix_length in Hp.
    + destruct (Strings.Index s sep) as [k|]; [|discriminate].
      intros [= <-]. specialize (IH k eq_refl). cbn. lia.
Qed.

Lemma Index_zero (s sep : string) :
  Strings.Index s sep = Some 0 -> Strings.HasPrefix s sep = true.
Proof.
  destruct s as [|c s]; cbn [Strings.Index];
    destruct (Strings.HasPrefix _ sep); auto; try discriminate.
  destruct (Strings.Index s sep); discriminate.
Qed.

Lemma drop_length (n : nat) (s : string) :
  String.length (Strings.drop n s) = String.length s - n.
Proof.
  revert s. induction n as [|n IH]; intros [|c s]; cbn; auto.
Qed.

(** With a non-empty separator the loop of [genSplit] ends before the fuel
    does: more fuel gives the same pieces. *)
Lemma genSplit_fuel (sep : string) (fuel : nat) (s : string) :
  sep <> "" -> String.length s <= fuel ->
  Strings.genSplit fuel s sep = Strings.genSplit (String.length s) s sep.
Proof.
  intros Hsep. assert (Hpos : 0 < String.length sep)
    by (destruct sep; [congruence | cbn; lia]).
  assert (Hgen : forall f1 f2 s, String.length s <= f1 -> String.length s <= f2 ->
                 Strings.genSplit f1 s sep = Strings.genSplit f2 s sep).
  { induction f1 as [|f1 IH]; intros f2 s0 H1 H2.
    - destruct s0; [|cbn in H1; lia].
      destruct f2; cbn [Strings.genSplit];
        destruct (Strings.Index "" sep) as [m|] eqn:Hi; auto.
      apply Index_bound in Hi. cbn in Hi. lia.
    - cbn [Strings.genSplit].
      destruct (Strings.Index s0 sep) as [m|] eqn:Hi;
        [|destruct f2; cbn [Strings.genSplit]; now rewrite Hi].
      pose proof (Index_bound _ _ _ Hi) as Hb.
      destruct f2 as [|f2]; [lia|]. cbn [Strings.genSplit]. rewrite Hi.
      f_equal. apply IH; rewrite drop_length; lia. }
  intros Hl. now apply Hgen.
Qed.

Lemma genSplit_head (fuel : nat) (c : ascii) (s sep : string) :
  Strings.HasPrefix (String c s) sep = false ->
  exists x tl, Strings.genSplit fuel (String c s) sep = String c x :: tl.
Proof.
  intros Hp. destruct fuel; cbn [Strings.genSplit Strings.Index]; rewrite Hp.
  - destruct (option_map S (Strings.Index s sep)); eauto.
  - destruct (Strings.Index s sep) as [k|]; cbn [option_map]; eauto.
Qed.

End StringsFacts.

Section LoaderFacts.
Variable TrimSpace : string -> string.
Hypothesis TrimSpace_empty : TrimSpace "" = "".

Lemma method_line_no_handler (line : string) :
  is_method_line line = true -> Loader.handler_of_line TrimSpace line = None.
Proof.
  unfold is_method_line, Loader.handler_of_line.
  destruct (Strings.Index line "func ") as [n|] eqn:Hi; [|discriminate].
  intros Hp.
  destruct (Strings.Contains line "func" && Strings.Contains line "Msg"); [|reflexivity].
  pose proof (Index_bound _ _ _ Hi) as Hb.
  unfold Strings.Split.
  destruct (String.length line) as [|f] eqn:Hl; [cbn in Hb; lia|].
  cbn [Strings.genSplit]. rewrite Hi.
  change (String.length "func ") with 5%nat.
  destruct (Strings.drop (n + 5) line) as [|c rest]; cbn [Strings.HasPrefix] in Hp;
    [discriminate Hp|].
  rewrite andb_true_r in Hp. apply Ascii.eqb_eq in Hp as <-.
  destruct (genSplit_head f "(" rest "func " eq_refl) as (x & tl & ->).
  cbn. rewrite TrimSpace_empty. destruct (Strings.genSplit _ _ _); reflexivity.
Qed.

End LoaderFacts.

(** [strings.TrimSpace] on ASCII text and [filepath.Join] on clean
    relative paths, for the examples. *)
Definition is_space (c : ascii) : bool :=
  existsb (Ascii.eqb c) [" "; "009"; "010"; "011"; "012"; "013"]%char.

Fixpoint trim_left (s : string) : string :=
  match s with
  | String c s' => if is_space c then trim_left s' else s
  | EmptyString => EmptyString
  end.

Definition TrimSpace_ascii (s : string) : string :=
  String.rev (trim_left (String.rev (trim_left s))).

Definition Join_clean (dir name : string) : string := dir +:+ "/" +:+ name.

Definition a_method_line : string :=
  "x/bank/keeper/msg_server.go:func (k msgServer) Send(goCtx context.Context, msg *types.MsgSend) (*types.MsgSendResponse, error) {".

Definition a_function_line : string :=
  "x/bank/keeper/msg_server.go:func NewMsgServerImpl(keeper Keeper) types.MsgServer {".

Definition a_tree : Tree :=
  MkTree (fun _ => false)
    (fun pattern dir =>
       if String.eqb pattern "func.*Msg.*"
       then (a_method_line +:+ newline +:+ a_function_line +:+ newline, None)
       else ("x/bank/types/genesis.go:type GenesisState struct {" +:+ newline, None)).

Section LoaderExtras.
Variable TrimSpace : string -> string.
Variable Join : string -> string -> string.

(** X24: a line that declares a method, [func] followed by a receiver in
    parentheses, gives no handler: the text between [func ] and the first
    parenthesis is empty.  The handlers of a message server, which are
    methods, are not discovered. *)
Theorem method_declarations_are_skipped (line : string) :
  TrimSpace "" = "" ->
  is_method_line line = true ->
  Loader.handler_of_line TrimSpace line = None.
Proof. intros Hempty. now apply method_line_no_handler. Qed.

Lemma handler_of_line_nonempty (line name : string) :
  Loader.handler_of_line TrimSpace line = Some name -> name <> "".
Proof.
  unfold Loader.handler_of_line.
  destruct (_ && _); [|discriminate].
  destruct (Strings.Split line "func ") as [|p0 [|p1 ps]]; try discriminate.
  destruct (Strings.Split p1 "(") as [|h0 [|h1 hs]]; try discriminate.
  destruct (String.eqb (TrimSpace h0) "") eqn:He; [discriminate|].
  intros [= <-]. now apply String.eqb_neq.
Qed.

Lemma type_of_line_nonempty (line name : string) :
  Loader.type_of_line TrimSpace line = Some name -> name <> "".
Proof.
  unfold Loader.type_of_line.
  destruct (_ && _); [|discriminate].
  destruct (Strings.Split line "type ") as [|p0 [|p1 ps]]; try discriminate.
  destruct (Strings.Split p1 " ") as [|h0 [|h1 hs]]; try discriminate.
  destruct (String.eqb (TrimSpace h0) "") eqn:He; [discriminate|].
  intros [= <-]. now apply String.eqb_neq.
Qed.

Lemma fold_names (f : string -> option string) (lines names : list string) :
  fold_left (fun ns line => match f line with
                            | Some name => ns ++ [name]
                            | None => ns
                            end) lines names
  = names ++ omap f lines.
Proof.
  revert names. induction lines as [|line lines IH]; intros names; cbn.
  - now rewrite app_nil_r.
  - rewrite IH. destruct (f line); [now rewrite <- app_assoc | reflexivity].
Qed.

(** X25: when [LoadCosmosModule] succeeds, the three directories exist and
    both searches ended without error; the module has the path and the
    name given, its handlers are the names that the lines of the first
    search give, in order, its state types those of the second, and no
    name is empty. *)
Theorem LoadCosmosModule_result (tree : Tree) (path moduleName : string)
    (t : CosmosModule.t) :
  Loader.LoadCosmosModule TrimSpace Join tree path moduleName = inl t ->
  CosmosModule.Path t = path /\ CosmosModule.Name t = moduleName
  /\ missing tree path = false
  /\ missing tree (Join path "keeper") = false
  /\ missing tree (Join path "types") = false
  /\ (exists out1 out2,
        grep tree "func.*Msg.*" (Join path "keeper") = (out1, None)
        /\ grep tree "type.*struct" (Join path "types") = (out2, None)
        /\ CosmosModule.Handlers t
           = omap (Loader.handler_of_line TrimSpace) (Strings.Split out1 newline)
        /\ CosmosModule.StateTypes t
           = omap (Loader.type_of_line TrimSpace) (Strings.Split out2 newline))
  /\ Forall (fun name => name <> "")
       (CosmosModule.Handlers t ++ CosmosModule.StateTypes t).
Proof.
  unfold Loader.LoadCosmosModule, Loader.discoverMessageHandlers,
    Loader.discoverStateTypes.
  cbn [CosmosModule.Path CosmosModule.Name CosmosModule.Handlers
       CosmosModule.StateTypes].
  destruct (missing tree path); [discriminate|].
  destruct (missing tree (Join path "keeper")); [discriminate|].
  destruct (grep tree "func.*Msg.*" (Join path "keeper")) as [out1 [e1|]];
    [discriminate|].
  cbn [CosmosModule.Path CosmosModule.Name CosmosModule.Handlers
       CosmosModule.StateTypes].
  destruct (missing tree (Join path "types")); [discriminate|].
  destruct (grep tree "type.*struct" (Join path "types")) as [out2 [e2|]];
    [discriminate|].
  intros [= <-]. rewrite !fold_names.
  cbn [CosmosModule.Path CosmosModule.Name CosmosModule.Handlers
       CosmosModule.StateTypes app].
  split_and!; auto.
  - exists out1, out2. auto.
  - apply Forall_app. split; apply List.Forall_forall; intros name Hin;
      apply list_elem_of_In, list_elem_of_omap in Hin as (line & _ & Hl);
      eauto using handler_of_line_nonempty, type_of_line_nonempty.
Qed.

End LoaderExtras.

Lemma method_declarations_are_skipped_witness :
  Loader.handler_of_line TrimSpace_ascii a_method_line = None.
Proof.
  exact (method_declarations_are_skipped TrimSpace_ascii a_method_line
           eq_refl eq_refl).
Defined.

(** The declaration of a plain function gives its name. *)
Example function_declaration_is_discovered :
  Loader.handler_of_line TrimSpace_ascii a_function_line = Some "NewMsgServerImpl".
Proof. vm_compute. reflexivity. Qed.

Definition a_loaded_module : CosmosModule.t :=
  CosmosModule.Make "x/bank" "bank" ["NewMsgServerImpl"] ["GenesisState"].

Lemma LoadCosmosModule_result_witness :
  CosmosModule.Path a_loaded_module = "x/bank"
  /\ CosmosModule.Name a_loaded_module = "bank"
  /\ missing a_tree "x/bank" = false
  /\ missing a_tree (Join_clean "x/bank" "keeper") = false
  /\ missing a_tree (Join_clean "x/bank" "types") = false
  /\ (exists out1 out2,
        grep a_tree "func.*Msg.*" (Join_clean "x/bank" "keeper") = (out1, None)
        /\ grep a_tree "type.*struct" (Join_clean "x/bank" "types") = (out2, None)
        /\ CosmosModule.Handlers a_loaded_module
           = omap (Loader.handler_of_line TrimSpace_ascii)
               (Strings.Split out1 newline)
        /\ CosmosModule.StateTypes a_loaded_module
           = omap (Loader.type_of_line TrimSpace_ascii)
               (Strings.Split out2 newline))
  /\ Forall (fun name => name <> "")
       (CosmosModule.Handlers a_loaded_module
        ++ CosmosModule.StateTypes a_loaded_module).
Proof.
  assert (Hload : Loader.LoadCosmosModule TrimSpace_ascii Join_clean a_tree
                    "x/bank" "bank" = inl a_loaded_module)
    by (vm_compute; reflexivity).
  exact (LoadCosmosModule_result TrimSpace_ascii Join_clean a_tree
           "x/bank" "bank" a_loaded_module Hload).
Defined.

(** ** What a run keeps *)

Section RunKeeps.
Context {R : Type} `{RandSource R}.

Lemma round_results (t : CosmosModule.t) (f f' : FuzzEngine R) (e e' : Env)
    (r : Round) :
  round t f e = Some (r, f', e') -> results f' = results f.
Proof.
  unfold round.
  destruct (Intn (len (mutators f)) (rand f)) as [k r1].
  destruct (mutators f !! Z.to_nat k) as [mu|]; [|discriminate].
  destruct (GenerateFuzzInput mu r1) as [[inp mu'] r2].
  destruct (CosmosModule.ExecuteFuzz t inp) as [out er].
  destruct (with_clock (ValidateOutput mu' out er) e) as [[v|] e1].
  - unfold trackResult. destruct (FuzzResult.Failed v); run_st.
    + destruct (recordFailure _ v e1) as [[] e2]. intros [= _ <- _]. reflexivity.
    + intros [= _ <- _]. reflexivity.
  - intros [= _ <- _]. reflexivity.
Qed.

Lemma rounds_results (n : nat) (t : CosmosModule.t) (f f' : FuzzEngine R)
    (e e' : Env) (rs : list Round) :
  rounds n t f e = Some (rs, f', e') -> results f' = results f.
Proof.
  revert f e rs. induction n as [|n IH]; intros f e rs; cbn [rounds].
  - intros [= _ <- _]. reflexivity.
  - destruct (round t f e) as [[[r f1] e1]|] eqn:Hr; [|discriminate].
    destruct (rounds n t f1 e1) as [[[rs1 f2] e2]|] eqn:Hrs; [|discriminate].
    intros [= _ <- <-]. rewrite (IH _ _ _ Hrs). eapply round_results, Hr.
Qed.

Lemma files_fold_none dir cr vs (fs : gmap string FuzzResult.t) :
  (forall name, cr name = false) -> files_fold dir cr vs fs = fs.
Proof.
  intros Hcr. revert fs. induction vs as [|v vs IH]; intros fs; [reflexivity|].
  unfold files_fold. cbn [fold_left]. rewrite Hcr. apply IH.
Qed.

(** X26: the engine stores no verdict: its [results] are as empty after a
    run as before, and the only record of a verdict besides the counters
    is its report.  When no report can be created the directory is as it
    was. *)
Theorem Run_keeps_no_results (cfg : Config.t) (c : Clock) (e : Env)
    (t : CosmosModule.t) :
  LoadCosmosModule e (Config.TargetPath cfg) (Config.ModuleName cfg) = inl t ->
  exists s rs f' e',
    Run (fst (NewFuzzerEngine (R := R) cfg c)) e = Returned s rs f' e'
    /\ results f' = []
    /\ ((forall name, creatable e name = false) -> files e' = files e).
Proof.
  intros Hload.
  destruct (Run_detail cfg c e t Hload)
    as (s & rs & f' & e' & s' & Hrun & _ & _ & _ & _ & _ & Hfiles & _).
  exists s, rs, f', e'. split; [exact Hrun|]. split.
  - unfold Run in Hrun.
    destruct (fresh_engine cfg c) as (_ & Hcfg & _).
    rewrite Hcfg, Hload in Hrun.
    destruct (rounds _ t _ e) as [[[rs0 f0] e0]|] eqn:Hrs; [|discriminate Hrun].
    injection Hrun as _ _ <- _.
    rewrite (rounds_results _ _ _ _ _ _ _ Hrs).
    unfold NewFuzzerEngine, bind, ret, registerDefaultMutators.
    destruct (Config.Seed cfg =? 0); reflexivity.
  - intros Hcr. rewrite Hfiles. now apply files_fold_none.
Qed.

End RunKeeps.

Lemma Run_keeps_no_results_witness :
  exists s rs f' e',
    Run (fst (NewFuzzerEngine (R := Tape.t) (a_config 3) a_clock)) another_env
    = Returned s rs f' e'
    /\ results f' = []
    /\ ((forall name, creatable another_env name = false) ->
        files e' = files another_env).
Proof.
  exact (Run_keeps_no_results (R := Tape.t) (a_config 3) a_clock another_env
           a_module eq_refl).
Defined.

(** ** The entry point *)

Section EntryPointFacts.
Context {R : Type} `{RandSource R}.
Variable Base : string -> string.
Variable MkdirAll : string -> option string.
Variable Version GoVersion : string.


End EntryPointFacts.
